(** * gpx_shortcoder: link detection, relative paths and shortcode splicing

    A shallow embedding of [src/gpx_shortcoder.py].  Python [str] values are
    lists of characters; a character is a code point below 256 ([ascii]).
    The functions of [urllib.parse] and [bs4] that the program imports are
    the fields of the class [Library]; the program is written against that
    interface, as the source is written against its imports. *)

From Stdlib Require Import Ascii String.
From Stdlib Require Import List Bool Arith ZArith Lia.
Import ListNotations.

Set Implicit Arguments.
Set Warnings "-register-all".

(* ================================================================== *)
(** * Part I: definitions *)
(* ================================================================== *)

(** ** Python strings *)

Definition str := list ascii.

(** A string literal of the source. *)
Definition txt (s : string) : str := list_ascii_of_string s.
Arguments txt s%_string.

Definition chr (n : nat) : ascii := ascii_of_nat n.
Definition ord (c : ascii) : nat := nat_of_ascii c.

Module PyStr.

Definition char_eqb (a b : ascii) : bool := Ascii.eqb a b.

Fixpoint eqb (s t : str) : bool :=
  match s, t with
  | [], [] => true
  | a :: s', b :: t' => char_eqb a b && eqb s' t'
  | _, _ => false
  end.

(** [not s]: the empty string is falsy. *)
Definition is_empty (s : str) : bool :=
  match s with [] => true | _ => false end.

(** [c.lower()] for one code point below 256: [A-Z] and the Latin-1
    capitals U+00C0..U+00DE (without the multiplication sign U+00D7). *)
Definition lower_char (c : ascii) : ascii :=
  let n := ord c in
  if ((65 <=? n) && (n <=? 90)) || ((192 <=? n) && (n <=? 222) && negb (n =? 215))
  then chr (n + 32) else c.

(** [s.lower()] *)
Definition lower (s : str) : str := map lower_char s.

(** [s.startswith(p)] *)
Fixpoint startswith (s p : str) : bool :=
  match p, s with
  | [], _ => true
  | a :: p', b :: s' => char_eqb a b && startswith s' p'
  | _ :: _, [] => false
  end.

(** [s.endswith(p)] *)
Definition endswith (s p : str) : bool := startswith (rev s) (rev p).

(** [s.lstrip(c)] for a one-character argument. *)
Fixpoint lstrip (c : ascii) (s : str) : str :=
  match s with
  | a :: s' => if char_eqb a c then lstrip c s' else s
  | [] => []
  end.

(** [s.rstrip(c)] for a one-character argument. *)
Definition rstrip (c : ascii) (s : str) : str := rev (lstrip c (rev s)).

(** [s.split(c)] for a one-character separator: never the empty list. *)
Fixpoint split (c : ascii) (s : str) : list str :=
  match s with
  | [] => [[]]
  | a :: s' =>
      if char_eqb a c then [] :: split c s'
      else match split c s' with
           | h :: t => (a :: h) :: t
           | [] => [[a]]
           end
  end.

(** [sep.join(parts)] *)
Fixpoint join (sep : str) (parts : list str) : str :=
  match parts with
  | [] => []
  | [p] => p
  | p :: rest => p ++ sep ++ join sep rest
  end.

(** Index of the first [c] in [s], if any. *)
Fixpoint index (c : ascii) (s : str) : option nat :=
  match s with
  | [] => None
  | a :: s' => if char_eqb a c then Some 0
               else option_map S (index c s')
  end.

(** Index of the last [c] in [s], if any. *)
Fixpoint rindex (c : ascii) (s : str) : option nat :=
  match s with
  | [] => None
  | a :: s' => match rindex c s' with
               | Some i => Some (S i)
               | None => if char_eqb a c then Some 0 else None
               end
  end.

(** [s.find(c, start)] with [0 <= start]: [-1] when absent. *)
Definition find (c : ascii) (s : str) (start : nat) : Z :=
  match index c (skipn start s) with
  | Some i => Z.of_nat (start + i)
  | None => (-1)%Z
  end.

(** [s.rfind(c, 0, stop)] with [0 <= stop]: [-1] when absent. *)
Definition rfind (c : ascii) (s : str) (stop : nat) : Z :=
  match rindex c (firstn stop s) with
  | Some i => Z.of_nat i
  | None => (-1)%Z
  end.

(** [s[a:b]] for [0 <= a] and [0 <= b]. *)
Definition slice (s : str) (a b : Z) : str :=
  firstn (Z.to_nat (b - a)) (skipn (Z.to_nat a) s).

(** [s.rsplit(c, 1)[0]]: what precedes the last [c], or all of [s]. *)
Definition rsplit1_head (c : ascii) (s : str) : str :=
  match rindex c s with
  | Some i => firstn i s
  | None => s
  end.

(** Unicode white space below 256: what [str.strip] removes and what
    [\s] matches. *)
Definition isspace (c : ascii) : bool :=
  let n := ord c in
  ((9 <=? n) && (n <=? 13)) || ((28 <=? n) && (n <=? 32))
  || (n =? 133) || (n =? 160).

Fixpoint lstrip_ws (s : str) : str :=
  match s with
  | a :: s' => if isspace a then lstrip_ws s' else s
  | [] => []
  end.

(** [s.strip()] *)
Definition strip (s : str) : str := rev (lstrip_ws (rev (lstrip_ws s))).

(** The longest prefix of [s] whose characters satisfy [p], and the rest. *)
Fixpoint span_of (p : ascii -> bool) (s : str) : str * str :=
  match s with
  | c :: s' => if p c then let (a, b) := span_of p s' in (c :: a, b)
               else ([], s)
  | [] => ([], [])
  end.

End PyStr.

(** ** Exceptions

    A call either returns or raises; [ValueError] is what [urllib.parse]
    raises on a malformed authority, [ParserRejectedMarkup] what
    [BeautifulSoup] raises on markup that [html.parser] refuses. *)

Inductive exn := ValueError | KeyError | ParserRejectedMarkup.

Inductive outcome (A : Type) : Type :=
| Return (a : A)
| Raise (e : exn).
Arguments Return {A} a.
Arguments Raise {A} e.

Definition bind {A B} (m : outcome A) (k : A -> outcome B) : outcome B :=
  match m with
  | Return a => k a
  | Raise e => Raise e
  end.

Notation "x <- m ;; k" := (bind m (fun x => k))
  (at level 61, m at next level, right associativity).

(** ** The imported libraries *)

(** The two fields of [urlparse(url)] that the program reads. *)
Record ParseResult := { netloc : str; path : str }.

(** A node of the tree [BeautifulSoup] builds: a tag with its attributes
    and contents, a text string, or markup without visible text (comment,
    doctype, processing instruction) kept as its output form. *)
Inductive node :=
| Tag (name : str) (attrs : list (str * str)) (contents : list node)
| NavigableString (s : str)
| Special (output : str).

Class Library := {
  (** [urllib.parse.urlparse] *)
  urlparse : str -> outcome ParseResult;
  (** [urllib.parse.urljoin] *)
  urljoin : str -> str -> outcome str;
  (** [BeautifulSoup(markup, "html.parser")]: the contents of the soup. *)
  BeautifulSoup : str -> outcome (list node);
  (** [str(soup)], for a soup of these contents. *)
  decode : list node -> str
}.

(** ** compute_relative_path *)

Section RelativePath.
Context {L : Library}.

Definition nonempty (s : str) : bool := negb (PyStr.is_empty s).

Definition compute_relative_path (file_url post_url : str) : outcome str :=
  file_parsed <- urlparse file_url ;;
  post_parsed <- urlparse post_url ;;
  if negb (PyStr.eqb (netloc file_parsed) (netloc post_parsed)) then
    Return file_url
  else
    let file_path := path file_parsed in
    let post_path := path post_parsed in
    let post_dir :=
      if PyStr.endswith post_path (txt "/") then post_path
      else PyStr.rsplit1_head "/" post_path ++ txt "/" in
    let post_segments := filter nonempty (PyStr.split "/" post_dir) in
    let ups := repeat (txt "..") (length post_segments) in
    let rel := PyStr.join (txt "/") (ups ++ [PyStr.lstrip "/" file_path]) in
    let rel := if PyStr.is_empty rel then file_path else rel in
    Return rel.

End RelativePath.

(** ** The regular expressions of the program ([re])

    The two patterns of the source use literals, the classes [\s] and
    [[^>]] under a greedy star, greedy optional groups, a two-way
    alternative, [\b], [^] and [$].  A pattern is kept as its syntax tree;
    [re.escape(s)] is the sequence of the characters of [s] as literals.
    The matcher backtracks in the order of [re]: a star takes as much as it
    can and gives back one character at a time, an optional group is tried
    before it is skipped, alternatives are tried left to right. *)

Module Re.

Inductive charset :=
| Space    (* \s *)
| NotGt.   (* [^>] *)

Inductive regex :=
| Eps
| Lit (c : ascii)
| Star (cs : charset)
| Cat (r1 r2 : regex)
| Alt (r1 r2 : regex)
| Opt (r : regex)
| WordBoundary   (* \b *)
| Bos            (* ^ without re.MULTILINE *)
| Eos.           (* $ without re.MULTILINE *)

Definition seq (rs : list regex) : regex := fold_right Cat Eps rs.

(** The literal characters of a pattern fragment such as [<a] or [</a>]. *)
Definition lits (s : str) : regex := seq (map Lit s).

(** [re.escape(s)], compiled. *)
Definition escape (s : str) : regex := lits s.

Definition in_charset (cs : charset) (c : ascii) : bool :=
  match cs with
  | Space => PyStr.isspace c
  | NotGt => negb (PyStr.char_eqb c ">")
  end.

(** [\w] below 256: letters, digits (with the superscripts and vulgar
    fractions of Latin-1) and the underscore. *)
Definition is_word (c : ascii) : bool :=
  let n := ord c in
  ((48 <=? n) && (n <=? 57)) || ((65 <=? n) && (n <=? 90)) || (n =? 95)
  || ((97 <=? n) && (n <=? 122)) || (n =? 170) || (n =? 178) || (n =? 179)
  || (n =? 181) || (n =? 185) || (n =? 186) || ((188 <=? n) && (n <=? 190))
  || ((192 <=? n) && (n <=? 214)) || ((216 <=? n) && (n <=? 246))
  || (248 <=? n).

Definition word_before (prev : option ascii) : bool :=
  match prev with Some c => is_word c | None => false end.

Definition word_after (s : str) : bool :=
  match s with c :: _ => is_word c | [] => false end.

(** A literal [c] of the pattern against a character [ch] of the text. *)
Definition lit_matches (ignorecase : bool) (c ch : ascii) : bool :=
  if ignorecase
  then PyStr.char_eqb (PyStr.lower_char ch) (PyStr.lower_char c)
  else PyStr.char_eqb ch c.

Section Matcher.
Variable R : Type.
Variable ignorecase : bool.

(** A position in the text: the character before it, if any, and what
    remains.  The continuation [k] matches the rest of the pattern. *)
Definition cont := option ascii -> str -> option R.

Fixpoint star (p : ascii -> bool) (prev : option ascii) (s : str)
         (k : cont) : option R :=
  match s with
  | c :: s' =>
      if p c then
        match star p (Some c) s' k with
        | Some r => Some r
        | None => k prev s
        end
      else k prev s
  | [] => k prev s
  end.

Fixpoint run (r : regex) (prev : option ascii) (s : str) (k : cont)
  : option R :=
  match r with
  | Eps => k prev s
  | Lit c =>
      match s with
      | ch :: s' => if lit_matches ignorecase c ch then k (Some ch) s'
                    else None
      | [] => None
      end
  | Star cs => star (in_charset cs) prev s k
  | Cat r1 r2 => run r1 prev s (fun prev' s' => run r2 prev' s' k)
  | Alt r1 r2 =>
      match run r1 prev s k with
      | Some x => Some x
      | None => run r2 prev s k
      end
  | Opt r1 =>
      match run r1 prev s k with
      | Some x => Some x
      | None => k prev s
      end
  | WordBoundary =>
      if xorb (word_before prev) (word_after s) then k prev s else None
  | Bos => match prev with None => k prev s | Some _ => None end
  | Eos =>
      match s with
      | [] => k prev s
      | [c] => if PyStr.char_eqb c (chr 10) then k prev s else None
      | _ => None
      end
  end.
End Matcher.

(** The text matched at one position, [m.group(0)]. *)
Definition match_here (ignorecase : bool) (r : regex)
           (prev : option ascii) (s : str) : option str :=
  match run ignorecase r prev s (fun _ rest => Some rest) with
  | Some rest => Some (firstn (length s - length rest) s)
  | None => None
  end.

(** [re.match(pattern, s, flags)]: a match at the start of [s]. *)
Definition match_ (ignorecase : bool) (r : regex) (s : str) : option str :=
  match_here ignorecase r None s.

Fixpoint search_from (ignorecase : bool) (r : regex) (prev : option ascii)
         (s : str) (pos : nat) : option (nat * str) :=
  match match_here ignorecase r prev s with
  | Some g => Some (pos, g)
  | None =>
      match s with
      | [] => None
      | c :: s' => search_from ignorecase r (Some c) s' (S pos)
      end
  end.

(** [pattern.search(s)]: [(m.start(), m.group(0))] of the leftmost match. *)
Definition search (ignorecase : bool) (r : regex) (s : str)
  : option (nat * str) :=
  search_from ignorecase r None s 0.

End Re.

(** ** The parse tree ([bs4])

    A tag of a soup is addressed by its path: the indices, from the top of
    the soup, of the contents it is reached through.  The source mutates
    the soup in place with [insert_before]; here the soup is passed and
    returned. *)

Module Bs4.

Definition path := list nat.

(** [tag.get(key)] *)
Fixpoint get (attrs : list (str * str)) (key : str) : option str :=
  match attrs with
  | [] => None
  | (k, v) :: rest => if PyStr.eqb k key then Some v else get rest key
  end.

Definition tag_get (n : node) (key : str) : option str :=
  match n with
  | Tag _ attrs _ => get attrs key
  | _ => None
  end.

(** The text strings below a node, in document order. *)
Fixpoint strings (n : node) : list str :=
  match n with
  | Tag _ _ kids => flat_map strings kids
  | NavigableString s => [s]
  | Special _ => []
  end.

(** [tag.get_text(strip=True)]: every string stripped, the empty ones
    dropped, the rest joined without a separator. *)
Definition get_text_strip (n : node) : str :=
  concat (filter nonempty (map PyStr.strip (strings n))).

(** A node and everything below it, in document order, with paths;
    [here] is the path of [n]. *)
Fixpoint walk (here : path) (n : node) {struct n} : list (path * node) :=
  (here, n) ::
  match n with
  | Tag _ _ kids =>
      (fix go (i : nat) (ks : list node) {struct ks} : list (path * node) :=
         match ks with
         | [] => []
         | k :: ks' => walk (here ++ [i]) k ++ go (S i) ks'
         end) 0 kids
  | _ => []
  end.

Fixpoint walk_all (here : path) (i : nat) (ks : list node)
  : list (path * node) :=
  match ks with
  | [] => []
  | k :: ks' => walk (here ++ [i]) k ++ walk_all here (S i) ks'
  end.

(** Everything in the soup, in document order. *)
Definition descendants (soup : list node) : list (path * node) :=
  walk_all [] 0 soup.

Definition is_tag_named (name : str) (n : node) : bool :=
  match n with
  | Tag nm _ _ => PyStr.eqb nm name
  | _ => false
  end.

Definition has_attr (key : str) (n : node) : bool :=
  match tag_get n key with Some _ => true | None => false end.

(** [soup.find_all('a', href=True)] *)
Definition find_all_a_href (soup : list node) : list (path * node) :=
  filter (fun pn => is_tag_named (txt "a") (snd pn)
                    && has_attr (txt "href") (snd pn))
         (descendants soup).

(** The node at a path. *)
Fixpoint node_at (soup : list node) (p : path) : option node :=
  match p with
  | [] => None
  | [i] => nth_error soup i
  | i :: p' =>
      match nth_error soup i with
      | Some (Tag _ _ kids) => node_at kids p'
      | _ => None
      end
  end.

(** [tag.parent.name] for the node at [p]; [top] is the name of what
    holds [soup]. *)
Fixpoint parent_name (top : str) (soup : list node) (p : path) : str :=
  match p with
  | [] => top
  | [i] => top
  | i :: p' =>
      match nth_error soup i with
      | Some (Tag nm _ kids) => parent_name nm kids p'
      | _ => top
      end
  end.

(** The paths of the tags that enclose the node at [p], outermost
    first: the proper prefixes of [p] that address a node. *)
Fixpoint enclosing (p : path) : list path :=
  match p with
  | [] => []
  | i :: p' =>
      match p' with
      | [] => []
      | _ :: _ => [i] :: map (cons i) (enclosing p')
      end
  end.

(** [tag.parents]: the same, nearest first. *)
Definition parents (p : path) : list path := rev (enclosing p).

(** [tag.find_parent(name)]: the nearest enclosing tag of that name. *)
Definition find_parent (name : str) (soup : list node) (p : path)
  : option path :=
  find (fun q => match node_at soup q with
                 | Some n => is_tag_named name n
                 | None => false
                 end)
       (parents p).

(** [tag.insert_before(new)] for the tag at [p], where [new] is a soup:
    its contents are placed, in order, before the tag among the contents
    of the tag's parent. *)
Fixpoint insert_before (soup : list node) (p : path) (new : list node)
  : list node :=
  match p with
  | [] => soup
  | [i] =>
      match nth_error soup i with
      | Some _ => firstn i soup ++ new ++ skipn i soup
      | None => soup
      end
  | i :: p' =>
      match nth_error soup i with
      | Some (Tag nm attrs kids) =>
          firstn i soup ++ Tag nm attrs (insert_before kids p' new)
                 :: skipn (S i) soup
      | _ => soup
      end
  end.

Definition contains (c : ascii) (s : str) : bool :=
  existsb (PyStr.char_eqb c) s.

(** The tags of HTML that have no contents and no end tag. *)
Definition empty_element_tags : list str :=
  map txt ["area"; "base"; "br"; "col"; "embed"; "hr"; "img"; "input";
           "keygen"; "link"; "menuitem"; "meta"; "param"; "source";
           "track"; "wbr"; "basefont"; "bgsound"; "command"; "frame";
           "image"; "isindex"; "nextid"; "spacer"]%string.

Definition can_be_empty_element (name : str) : bool :=
  existsb (PyStr.eqb name) empty_element_tags.

End Bs4.

(** ** Writing a soup out

    [str(soup)] is a function of the library.  The statements on the
    output need its form only: the nodes are written one after the other;
    a tag with contents as a start, the contents and an end; a tag
    without contents, and any other node, as one piece, which may depend
    on the tag the node is in (the formatter leaves the strings of
    [script] and [style] as they are). *)

Record writer := {
  start_tag : str -> list (str * str) -> str;
  end_tag : str -> list (str * str) -> str;
  empty_tag : str -> list (str * str) -> str;
  leaf : str -> node -> str
}.

(** What a writer writes for a node in a tag named [parent]. *)
Fixpoint written (w : writer) (parent : str) (n : node) : str :=
  match n with
  | Tag name attrs kids =>
      match kids with
      | [] => empty_tag w name attrs
      | _ :: _ => start_tag w name attrs
                  ++ flat_map (written w name) kids
                  ++ end_tag w name attrs
      end
  | _ => leaf w parent n
  end.

Definition written_all (w : writer) (parent : str) (ns : list node) : str :=
  flat_map (written w parent) ns.

(** The name of the soup object, the parent of the top nodes. *)
Definition document_name : str := txt "[document]".

(** [str(soup)] is the work of the writer [w]. *)
Definition writes {L : Library} (w : writer) : Prop :=
  forall soup, decode soup = written_all w document_name soup.

(** ** find_gpx_links *)

Section Locator.
Context {L : Library}.

Definition IGNORECASE := true.

(** The test of line 39 on [urlparse(abs_url).path or '']. *)
Definition is_gpx_path (path : str) : bool :=
  PyStr.endswith (PyStr.rstrip "/" (PyStr.lower path)) (txt ".gpx").

Definition quote : Re.regex := Re.Alt (Re.Lit (chr 34)) (Re.Lit "'").

(** [<a\b[^>]*\bhref\s*=\s*Q?] href [Q?[^>]*>\s*] inner [\s*</a>],
    with [Q] the group of the two quote characters, here [quote]. *)
Definition anchor_regex (href anchor_text : str) : Re.regex :=
  Re.seq [Re.lits (txt "<a"); Re.WordBoundary; Re.Star Re.NotGt;
          Re.WordBoundary; Re.lits (txt "href"); Re.Star Re.Space;
          Re.Lit "="; Re.Star Re.Space; Re.Opt quote;
          Re.escape href;
          Re.Opt quote; Re.Star Re.NotGt; Re.Lit ">"; Re.Star Re.Space;
          Re.escape anchor_text;
          Re.Star Re.Space; Re.lits (txt "</a>")].

(** [^\s*P?] matched_str [C?\s*$], with the optional groups
    [P = <p[^>]*>\s*] and [C = \s*</p>]. *)
Definition line_pattern (matched_str : str) : Re.regex :=
  Re.seq [Re.Bos; Re.Star Re.Space;
          Re.Opt (Re.seq [Re.lits (txt "<p"); Re.Star Re.NotGt; Re.Lit ">";
                          Re.Star Re.Space]);
          Re.escape matched_str;
          Re.Opt (Re.seq [Re.Star Re.Space; Re.lits (txt "</p>")]);
          Re.Star Re.Space; Re.Eos].

(** Lines 57-61: the line of [html] that holds offset [idx]. *)
Definition line_of (html : str) (idx : nat) : str :=
  let line_start := (PyStr.rfind (chr 10) html idx + 1)%Z in
  let line_end := PyStr.find (chr 10) html idx in
  let line_end := if (line_end =? -1)%Z then Z.of_nat (length html)
                  else line_end in
  PyStr.slice html line_start line_end.

(** Lines 64-65: does the line hold the matched anchor and nothing else? *)
Definition alone_on_line (html : str) (idx : nat) (matched_str : str)
  : bool :=
  match Re.match_ IGNORECASE (line_pattern matched_str) (line_of html idx)
  with
  | Some _ => true
  | None => false
  end.

(** Lines 47-50: the anchor in the source text. *)
Definition locate (html href anchor_text : str) : option (nat * str) :=
  Re.search IGNORECASE (anchor_regex href anchor_text) html.

(** [a['href']] *)
Definition getitem_href (a : node) : outcome str :=
  match Bs4.tag_get a (txt "href") with
  | Some v => Return v
  | None => Raise KeyError
  end.

(** The body of the loop of lines 34-69, over the remaining anchors. *)
Fixpoint scan (html site_base_url : str) (anchors : list (Bs4.path * node))
  : outcome (list (node * str * str)) :=
  match anchors with
  | [] => Return []
  | (_, a) :: rest =>
      href <- getitem_href a ;;
      abs_url <- urljoin site_base_url href ;;
      parsed <- urlparse abs_url ;;
      if negb (is_gpx_path (path parsed)) then scan html site_base_url rest
      else
        let anchor_text := Bs4.get_text_strip a in
        match locate html href anchor_text with
        | None => scan html site_base_url rest
        | Some (idx, matched_str) =>
            if negb (alone_on_line html idx matched_str)
            then scan html site_base_url rest
            else
              let title := anchor_text in
              results <- scan html site_base_url rest ;;
              Return ((a, abs_url, title) :: results)
        end
  end.

Definition find_gpx_links (html site_base_url : str)
  : outcome (list (node * str * str)) :=
  soup <- BeautifulSoup html ;;
  scan html site_base_url (Bs4.find_all_a_href soup).

End Locator.

(** ** insert_shortcode_into_html *)

Section Splicer.
Context {L : Library}.

Definition option_str_eqb (a b : option str) : bool :=
  match a, b with
  | Some x, Some y => PyStr.eqb x y
  | None, None => true
  | _, _ => false
  end.

(** The test of line 117. *)
Definition same_link (link_tag a : node) : bool :=
  option_str_eqb (Bs4.tag_get a (txt "href"))
                 (Bs4.tag_get link_tag (txt "href"))
  && PyStr.eqb (Bs4.get_text_strip a) (Bs4.get_text_strip link_tag).

Definition insert_shortcode_into_html (html : str) (link_tag : node)
           (shortcode : str) : outcome str :=
  soup <- BeautifulSoup html ;;
  let target := find (fun pn => same_link link_tag (snd pn))
                     (Bs4.find_all_a_href soup) in
  match target with
  | None => Return html
  | Some (target, _) =>
      let parent_p := Bs4.find_parent (txt "p") soup target in
      sc_node <- BeautifulSoup shortcode ;;
      let soup :=
        match parent_p with
        | Some parent_p => Bs4.insert_before soup parent_p sc_node
        | None => Bs4.insert_before soup target sc_node
        end in
      Return (decode soup)
  end.

End Splicer.

(** ** A reference implementation of the imports

    The theorems below hold for every [Library].  The examples run the
    program on this one: [urllib.parse] as in CPython 3.11, and [bs4] over
    [html.parser] for markup made of start tags, end tags and text.
    Comments, declarations, processing instructions, character references
    and the contents of [script] and [style] are not modelled, with one
    exception: the marked sections that [html.parser] refuses. *)

Module Urllib.

Definition isdigit (c : ascii) : bool := (48 <=? ord c) && (ord c <=? 57).

Definition isalpha_ascii (c : ascii) : bool :=
  ((65 <=? ord c) && (ord c <=? 90)) || ((97 <=? ord c) && (ord c <=? 122)).

(** [c in scheme_chars] *)
Definition scheme_char (c : ascii) : bool :=
  isalpha_ascii c || isdigit c || PyStr.char_eqb c "+"
  || PyStr.char_eqb c "-" || PyStr.char_eqb c ".".

(** [c in _WHATWG_C0_CONTROL_OR_SPACE] *)
Definition c0_control_or_space (c : ascii) : bool := ord c <=? 32.

Fixpoint lstrip_c0 (s : str) : str :=
  match s with
  | c :: s' => if c0_control_or_space c then lstrip_c0 s' else s
  | [] => []
  end.

(** Tab, carriage return and newline are removed from a URL. *)
Definition unsafe_byte (c : ascii) : bool :=
  (ord c =? 9) || (ord c =? 13) || (ord c =? 10).

Definition remove_unsafe (s : str) : str :=
  filter (fun c => negb (unsafe_byte c)) s.

Definition mem (s : str) (l : list string) : bool :=
  existsb (fun t => PyStr.eqb s (txt t)) l.

Definition uses_relative : list string :=
  [""; "ftp"; "http"; "gopher"; "nntp"; "imap"; "wais"; "file"; "https";
   "shttp"; "mms"; "prospero"; "rtsp"; "rtspu"; "sftp"; "svn"; "svn+ssh";
   "ws"; "wss"]%string.

Definition uses_netloc : list string :=
  [""; "ftp"; "http"; "gopher"; "nntp"; "telnet"; "imap"; "wais"; "file";
   "mms"; "https"; "shttp"; "snews"; "prospero"; "rtsp"; "rtspu"; "rsync";
   "svn"; "svn+ssh"; "sftp"; "nfs"; "git"; "git+ssh"; "ws"; "wss"]%string.

Definition uses_params : list string :=
  [""; "ftp"; "hdl"; "prospero"; "http"; "imap"; "https"; "shttp"; "rtsp";
   "rtspu"; "sip"; "sips"; "mms"; "sftp"; "tel"]%string.

(** [s.split(c, 1)] when [c] occurs in [s]. *)
Definition split_once (c : ascii) (s : str) : option (str * str) :=
  match PyStr.index c s with
  | Some i => Some (firstn i s, skipn (S i) s)
  | None => None
  end.

(** The first of [/], [?] and [#] in [s], or its length. *)
Fixpoint netloc_end (s : str) : nat :=
  match s with
  | [] => 0
  | c :: s' =>
      if PyStr.char_eqb c "/" || PyStr.char_eqb c "?" || PyStr.char_eqb c "#"
      then 0 else S (netloc_end s')
  end.

(** [s.partition(c)]: what precedes the first [c], whether there is one,
    and what follows it. *)
Definition partition (c : ascii) (s : str) : str * bool * str :=
  match PyStr.index c s with
  | Some i => (firstn i s, true, skipn (S i) s)
  | None => (s, false, [])
  end.

Definition ishex (c : ascii) : bool :=
  isdigit c || ((65 <=? ord c) && (ord c <=? 70))
  || ((97 <=? ord c) && (ord c <=? 102)).

(** [int(s)] for a string of digits. *)
Definition decimal (s : str) : nat :=
  fold_left (fun n c => 10 * n + (ord c - 48)) s 0.

(** [ipaddress]: an octet of an IPv4 address. *)
Definition valid_octet (o : str) : bool :=
  if nonempty o && forallb isdigit o && (length o <=? 3)
  then (PyStr.eqb o (txt "0") || negb (PyStr.startswith o (txt "0")))
       && (decimal o <=? 255)
  else false.

Definition valid_ipv4 (s : str) : bool :=
  nonempty s
  && (length (PyStr.split "." s) =? 4)
  && forallb valid_octet (PyStr.split "." s).

(** [ipaddress]: a group of an IPv6 address. *)
Definition valid_hextet (h : str) : bool :=
  nonempty h && (length h <=? 4) && forallb ishex h.

(** The index of the first empty string, if any. *)
Fixpoint first_empty (l : list str) : option nat :=
  match l with
  | [] => None
  | x :: l' => if PyStr.is_empty x then Some 0
               else option_map S (first_empty l')
  end.

(** [IPv6Address._ip_int_from_string], as far as it accepts or refuses:
    three to nine parts between colons, the last one maybe an IPv4
    address, at most one empty part inside (the [::]), an empty first or
    last part only next to it, fewer than eight groups beside it or
    eight without it. *)
Definition valid_ipv6 (s : str) : bool :=
  nonempty s
  && let parts := PyStr.split ":" s in
     (3 <=? length parts)
     && let tail := last parts [] in
        (if Bs4.contains "." tail then valid_ipv4 tail else true)
        && let parts := if Bs4.contains "." tail
                        then removelast parts ++ [txt "0"; txt "0"]
                        else parts in
           let n := length parts in
           (n <=? 9)
           && let inner := removelast (tl parts) in
              match first_empty inner with
              | None =>
                  (n =? 8) && forallb valid_hextet parts
              | Some i =>
                  let skip_index := S i in
                  match first_empty (skipn (S i) inner) with
                  | Some _ => false
                  | None =>
                      let first_is_empty := PyStr.is_empty (hd [] parts) in
                      let last_is_empty := PyStr.is_empty (last parts []) in
                      let parts_hi := if first_is_empty then skip_index - 1
                                      else skip_index in
                      let parts_lo := if last_is_empty
                                      then n - skip_index - 1 - 1
                                      else n - skip_index - 1 in
                      (if first_is_empty then parts_hi =? 0 else true)
                      && (if last_is_empty then parts_lo =? 0 else true)
                      && (parts_hi + parts_lo <? 8)
                      && forallb valid_hextet (firstn parts_hi parts)
                      && forallb valid_hextet (skipn (n - parts_lo) parts)
                  end
              end.

(** An IPv6 address with its scope, if any, after a [%]. *)
Definition valid_scoped_ipv6 (s : str) : bool :=
  let '(addr, sep, scope_id) := partition "%" s in
  (if sep then nonempty scope_id && negb (Bs4.contains "%" scope_id)
   else true)
  && valid_ipv6 addr.

(** [v], hexadecimal digits, a dot and more. *)
Definition valid_ipvfuture (s : str) : bool :=
  match s with
  | c :: rest =>
      PyStr.char_eqb c "v"
      && match rest with
         | h :: _ =>
             ishex h
             && match snd (PyStr.span_of ishex rest) with
                | d :: more => PyStr.char_eqb d "." && nonempty more
                               && negb (Bs4.contains (chr 10) more)
                | [] => false
                end
         | [] => false
         end
  | [] => false
  end.

(** [_check_bracketed_host]: does it return? *)
Definition check_bracketed_host (hostname : str) : bool :=
  if PyStr.startswith hostname (txt "v") then valid_ipvfuture hostname
  else valid_scoped_ipv6 hostname.

(** [_check_bracketed_netloc]: does it return? *)
Definition check_bracketed_netloc (netloc : str) : bool :=
  let hostname_and_port :=
    match PyStr.rindex "@" netloc with
    | Some i => skipn (S i) netloc
    | None => netloc
    end in
  let '(before_bracket, have_open_br, bracketed) :=
    partition "[" hostname_and_port in
  if have_open_br then
    if nonempty before_bracket then false
    else
      let '(hostname, _, port) := partition "]" bracketed in
      if nonempty port && negb (PyStr.startswith port (txt ":")) then false
      else check_bracketed_host hostname
  else
    let '(hostname, _, _) := partition ":" hostname_and_port in
    check_bracketed_host hostname.

Record SplitResult := {
  s_scheme : str; s_netloc : str; s_path : str; s_query : str;
  s_fragment : str }.

Definition urlsplit (url scheme : str) : outcome SplitResult :=
  let url := remove_unsafe (lstrip_c0 url) in
  let '(scheme, url) :=
    match PyStr.index ":" url, url with
    | Some (S i), c :: _ =>
        if isalpha_ascii c && forallb scheme_char (firstn (S i) url)
        then (PyStr.lower (firstn (S i) url), skipn (S (S i)) url)
        else (scheme, url)
    | _, _ => (scheme, url)
    end in
  let split_netloc :=
    if PyStr.startswith url (txt "//") then
      let rest := skipn 2 url in
      let n := netloc_end rest in
      (firstn n rest, skipn n rest)
    else ([], url) in
  let '(netloc, url) := split_netloc in
  if xorb (Bs4.contains "[" netloc) (Bs4.contains "]" netloc)
  then Raise ValueError
  else if Bs4.contains "[" netloc && negb (check_bracketed_netloc netloc)
  then Raise ValueError
  else
    let '(url, fragment) :=
      match split_once "#" url with Some p => p | None => (url, []) end in
    let '(url, query) :=
      match split_once "?" url with Some p => p | None => (url, []) end in
    Return {| s_scheme := scheme; s_netloc := netloc; s_path := url;
              s_query := query; s_fragment := fragment |}.

Definition splitparams (url : str) : str * str :=
  match PyStr.rindex "/" url with
  | Some r =>
      match PyStr.index ";" (skipn r url) with
      | Some i => (firstn (r + i) url, skipn (S (r + i)) url)
      | None => (url, [])
      end
  | None =>
      match PyStr.index ";" url with
      | Some i => (firstn i url, skipn (S i) url)
      | None => (firstn (length url - 1) url, url)
      end
  end.

Record Parsed := {
  p_scheme : str; p_netloc : str; p_path : str; p_params : str;
  p_query : str; p_fragment : str }.

Definition urlparse6 (url scheme : str) : outcome Parsed :=
  r <- urlsplit url scheme ;;
  let '(url, params) :=
    if mem (s_scheme r) uses_params && Bs4.contains ";" (s_path r)
    then splitparams (s_path r) else (s_path r, []) in
  Return {| p_scheme := s_scheme r; p_netloc := s_netloc r; p_path := url;
            p_params := params; p_query := s_query r;
            p_fragment := s_fragment r |}.

Definition urlunsplit (scheme netloc url query fragment : str) : str :=
  let url :=
    if nonempty netloc
       || (nonempty scheme && mem scheme uses_netloc
           && negb (PyStr.startswith url (txt "//")))
    then txt "//" ++ netloc
         ++ (if nonempty url && negb (PyStr.startswith url (txt "/"))
             then txt "/" ++ url else url)
    else url in
  let url := if nonempty scheme then scheme ++ txt ":" ++ url else url in
  let url := if nonempty query then url ++ txt "?" ++ query else url in
  if nonempty fragment then url ++ txt "#" ++ fragment else url.

Definition urlunparse (p : Parsed) : str :=
  let url := if nonempty (p_params p)
             then p_path p ++ txt ";" ++ p_params p else p_path p in
  urlunsplit (p_scheme p) (p_netloc p) url (p_query p) (p_fragment p).

Definition is_dot (s : str) : bool := PyStr.eqb s (txt ".").
Definition is_dotdot (s : str) : bool := PyStr.eqb s (txt "..").

(** The loop of [urljoin] over the segments; [resolved] is reversed. *)
Fixpoint resolve_segments (resolved : list str) (segments : list str)
  : list str :=
  match segments with
  | [] => rev resolved
  | seg :: rest =>
      if is_dotdot seg then resolve_segments (tl resolved) rest
      else if is_dot seg then resolve_segments resolved rest
      else resolve_segments (seg :: resolved) rest
  end.

(** [segments[1:-1] = filter(None, segments[1:-1])] *)
Definition filter_inner (segments : list str) : list str :=
  match segments with
  | [] => []
  | [s] => [s]
  | s :: rest => s :: filter nonempty (removelast rest) ++ [last rest []]
  end.

Definition urljoin (base url : str) : outcome str :=
  if PyStr.is_empty base then Return url
  else if PyStr.is_empty url then Return base
  else
    b <- urlparse6 base [] ;;
    u <- urlparse6 url (p_scheme b) ;;
    if negb (PyStr.eqb (p_scheme u) (p_scheme b))
       || negb (mem (p_scheme u) uses_relative)
    then Return url
    else if mem (p_scheme u) uses_netloc && nonempty (p_netloc u)
    then Return (urlunparse u)
    else
      let netloc := if mem (p_scheme u) uses_netloc then p_netloc b
                    else p_netloc u in
      if PyStr.is_empty (p_path u) && PyStr.is_empty (p_params u) then
        Return (urlunparse
          {| p_scheme := p_scheme u; p_netloc := netloc;
             p_path := p_path b; p_params := p_params b;
             p_query := if PyStr.is_empty (p_query u) then p_query b
                        else p_query u;
             p_fragment := p_fragment u |})
      else
        let base_parts := PyStr.split "/" (p_path b) in
        let base_parts :=
          if nonempty (last base_parts []) then removelast base_parts
          else base_parts in
        let segments :=
          if PyStr.startswith (p_path u) (txt "/")
          then PyStr.split "/" (p_path u)
          else filter_inner (base_parts ++ PyStr.split "/" (p_path u)) in
        let resolved_path := resolve_segments [] segments in
        let resolved_path :=
          if is_dot (last segments []) || is_dotdot (last segments [])
          then resolved_path ++ [[]] else resolved_path in
        let joined := PyStr.join (txt "/") resolved_path in
        Return (urlunparse
          {| p_scheme := p_scheme u; p_netloc := netloc;
             p_path := if PyStr.is_empty joined then txt "/" else joined;
             p_params := p_params u; p_query := p_query u;
             p_fragment := p_fragment u |}).

(** [urlparse(url)], reduced to the fields the program reads. *)
Definition urlparse (url : str) : outcome ParseResult :=
  p <- urlparse6 url [] ;;
  Return {| netloc := p_netloc p; path := p_path p |}.

(** [urlparse(url).hostname], from the netloc: what follows the last
    [@], within brackets or up to the first [:], in lower case up to a
    [%]; [None] is the empty string here. *)
Definition hostname (netloc : str) : str :=
  let hostinfo := match PyStr.rindex "@" netloc with
                  | Some i => skipn (S i) netloc
                  | None => netloc
                  end in
  let host :=
    match PyStr.index "[" hostinfo with
    | Some i =>
        let bracketed := skipn (S i) hostinfo in
        match PyStr.index "]" bracketed with
        | Some j => firstn j bracketed
        | None => bracketed
        end
    | None =>
        match PyStr.index ":" hostinfo with
        | Some j => firstn j hostinfo
        | None => hostinfo
        end
    end in
  match PyStr.index "%" host with
  | Some k => PyStr.lower (firstn k host) ++ skipn k host
  | None => PyStr.lower host
  end.

End Urllib.

Module HtmlParser.

Inductive token :=
| StartTag (name : str) (attrs : list (str * str)) (closed : bool)
| EndTag (name : str)
| Data (s : str)
| Rejected.

(** The longest prefix of [s] whose characters satisfy [p], and the rest. *)
Fixpoint span (p : ascii -> bool) (s : str) : str * str :=
  match s with
  | c :: s' => if p c then let (a, b) := span p s' in (c :: a, b)
               else ([], s)
  | [] => ([], [])
  end.

Definition is_char (c d : ascii) : bool := PyStr.char_eqb c d.

(** [<] and a letter open a start tag, [</] and a letter an end tag. *)
Definition starttag_open (s : str) : bool :=
  match s with
  | a :: c :: _ => is_char a "<" && Urllib.isalpha_ascii c
  | _ => false
  end.

Definition endtag_open (s : str) : bool :=
  match s with
  | a :: b :: c :: _ => is_char a "<" && is_char b "/"
                        && Urllib.isalpha_ascii c
  | _ => false
  end.

(** Text up to the next [<] that opens a tag or a marked section. *)
Fixpoint data (s : str) : str * str :=
  match s with
  | [] => ([], [])
  | c :: s' =>
      if starttag_open s || endtag_open s
         || PyStr.startswith s (txt "<![") then ([], s)
      else let (a, b) := data s' in (c :: a, b)
  end.

(** A repeated attribute keeps its place and takes the later value. *)
Fixpoint set_attr (attrs : list (str * str)) (k v : str)
  : list (str * str) :=
  match attrs with
  | [] => [(k, v)]
  | (k', v') :: rest => if PyStr.eqb k' k then (k, v) :: rest
                        else (k', v') :: set_attr rest k v
  end.

Definition name_char (c : ascii) : bool :=
  negb (PyStr.isspace c || is_char c "/" || is_char c ">").

Definition attr_name_char (c : ascii) : bool :=
  name_char c && negb (is_char c "=").

Definition unquoted_char (c : ascii) : bool :=
  negb (PyStr.isspace c || is_char c ">").

Definition is_quote (c : ascii) : bool :=
  is_char c (chr 34) || is_char c "'".

(** The attributes of a start tag, up to its [>]; [None] when the tag is
    not closed. *)
Fixpoint attributes (fuel : nat) (s : str) (acc : list (str * str))
  : option (list (str * str) * bool * str) :=
  match fuel with
  | 0 => None
  | S fuel' =>
      match snd (span PyStr.isspace s) with
      | [] => None
      | c :: s1 =>
          if is_char c ">" then Some (acc, false, s1)
          else if is_char c "/" then
            match s1 with
            | c2 :: s2 => if is_char c2 ">" then Some (acc, true, s2)
                          else attributes fuel' s1 acc
            | [] => None
            end
          else
            let (k, s2) := span attr_name_char s1 in
            let name := PyStr.lower (c :: k) in
            match snd (span PyStr.isspace s2) with
            | e :: s3 =>
                if is_char e "=" then
                  let s4 := snd (span (is_char "=") s3) in
                  match snd (span PyStr.isspace s4) with
                  | q :: s5 =>
                      if is_quote q then
                        match Urllib.split_once q s5 with
                        | Some (v, s6) =>
                            attributes fuel' s6 (set_attr acc name v)
                        | None => None
                        end
                      else
                        let (v, s6) := span unquoted_char (q :: s5) in
                        attributes fuel' s6 (set_attr acc name v)
                  | [] => None
                  end
                else attributes fuel' s2 (set_attr acc name [])
            | [] => None
            end
      end
  end.

(** [parse_marked_section] at a text that starts with [<![): a name
    follows, one of those the parser knows, or the parser raises; a text
    that ends within the name is left for later. *)
Definition declname_char (c : ascii) : bool :=
  Urllib.isalpha_ascii c || Urllib.isdigit c || is_char c "-"
  || is_char c "_" || is_char c ".".

Definition marked_sections : list string :=
  ["temp"; "cdata"; "ignore"; "include"; "rcdata"; "if"; "else";
   "endif"]%string.

Definition marked_section_rejected (s : str) : bool :=
  PyStr.startswith s (txt "<![")
  && match skipn 3 s with
     | [] => false
     | c :: rest =>
         if Urllib.isalpha_ascii c then
           let (name, r1) := span declname_char (c :: rest) in
           match snd (span PyStr.isspace r1) with
           | [] => false
           | _ :: _ => negb (Urllib.mem (PyStr.lower name) marked_sections)
           end
         else true
     end.

Fixpoint tokens (fuel : nat) (s : str) : list token :=
  match fuel with
  | 0 => []
  | S fuel' =>
      match s with
      | [] => []
      | c :: s' =>
          if starttag_open s then
            let (name, rest) := span name_char s' in
            match attributes (S (length rest)) rest [] with
            | Some (attrs, closed, rest') =>
                StartTag (PyStr.lower name) attrs closed
                :: tokens fuel' rest'
            | None => Data [c] :: tokens fuel' s'
            end
          else if endtag_open s then
            match Urllib.split_once ">" (skipn 1 s') with
            | Some (name, rest') =>
                EndTag (PyStr.lower (PyStr.strip name))
                :: tokens fuel' rest'
            | None => Data [c] :: tokens fuel' s'
            end
          else if marked_section_rejected s then [Rejected]
          else if PyStr.startswith s (txt "<![")
          then Data [c] :: tokens fuel' s'
          else
            let (d, rest) := data s in Data d :: tokens fuel' rest
      end
  end.

(** An open tag of the builder: name, attributes, contents so far
    (latest first).  The bottom frame is the soup itself. *)
Definition frame := (str * list (str * str) * list node)%type.

Record builder := { tagStack : list frame; current_data : str }.

Definition add (n : node) (stack : list frame) : list frame :=
  match stack with
  | (nm, at_, kids) :: rest => (nm, at_, n :: kids) :: rest
  | [] => []
  end.

(** [popTag]: the top frame becomes a node of the frame below. *)
Definition popTag (stack : list frame) : list frame :=
  match stack with
  | (nm, at_, kids) :: (f :: rest) => add (Tag nm at_ (rev kids)) (f :: rest)
  | _ => stack
  end.

Definition ascii_space (c : ascii) : bool :=
  (ord c =? 32) || (ord c =? 10) || (ord c =? 9) || (ord c =? 12)
  || (ord c =? 13).

Definition frame_name (f : frame) : str := fst (fst f).

(** Is a tag open in which white space is kept ([pre], [textarea])? *)
Definition preserves_whitespace (stack : list frame) : bool :=
  existsb (fun f => Urllib.mem (frame_name f) ["pre"; "textarea"]%string)
          stack.

(** [endData]: the pending text becomes a string of the soup; text of
    ASCII spaces only shrinks to one newline or one space, unless it is
    within [pre] or [textarea]. *)
Definition endData (b : builder) : builder :=
  match current_data b with
  | [] => b
  | d =>
      let d := if forallb ascii_space d
                  && negb (preserves_whitespace (tagStack b))
               then (if Bs4.contains (chr 10) d then [chr 10] else txt " ")
               else d in
      {| tagStack := add (NavigableString d) (tagStack b);
         current_data := [] |}
  end.

(** Is a tag of that name open (above the soup)? *)
Definition is_open (name : str) (stack : list frame) : bool :=
  existsb (fun f => PyStr.eqb (frame_name f) name) (removelast stack).

(** [_popToTag(name)]: close everything down to the nearest open tag of
    that name, that one included. *)
Fixpoint popToTag (fuel : nat) (name : str) (stack : list frame)
  : list frame :=
  match fuel with
  | 0 => stack
  | S fuel' =>
      match stack with
      | f :: (_ :: _) =>
          if PyStr.eqb (frame_name f) name then popTag stack
          else popToTag fuel' name (popTag stack)
      | _ => stack
      end
  end.

Definition feed (b : builder) (t : token) : builder :=
  match t with
  | Data s => {| tagStack := tagStack b;
                 current_data := current_data b ++ s |}
  | StartTag name attrs closed =>
      let b := endData b in
      if Bs4.can_be_empty_element name || closed
      then {| tagStack := add (Tag name attrs []) (tagStack b);
              current_data := [] |}
      else {| tagStack := (name, attrs, []) :: tagStack b;
              current_data := [] |}
  | EndTag name =>
      let b := endData b in
      if is_open name (tagStack b)
      then {| tagStack := popToTag (length (tagStack b)) name (tagStack b);
              current_data := [] |}
      else b
  | Rejected => b
  end.

Fixpoint close_all (fuel : nat) (stack : list frame) : list node :=
  match fuel with
  | 0 => []
  | S fuel' =>
      match stack with
      | [(_, _, kids)] => rev kids
      | _ :: _ :: _ => close_all fuel' (popTag stack)
      | [] => []
      end
  end.

Definition is_rejected (t : token) : bool :=
  match t with Rejected => true | _ => false end.

(** [BeautifulSoup(markup, "html.parser").contents] *)
Definition parse (markup : str) : outcome (list node) :=
  let ts := tokens (length markup) markup in
  if existsb is_rejected ts then Raise ParserRejectedMarkup
  else
    let b := fold_left feed ts
               {| tagStack := [(document_name, [], [])];
                  current_data := [] |} in
    let b := endData b in
    Return (close_all (length (tagStack b)) (tagStack b)).

End HtmlParser.

(** The formatter ["minimal"] of [bs4], as [str(soup)] uses it. *)
Module Formatter.

(** [&], [<] and [>] become entities. *)
Definition substitute_char (c : ascii) : str :=
  if PyStr.char_eqb c "&" then txt "&amp;"
  else if PyStr.char_eqb c "<" then txt "&lt;"
  else if PyStr.char_eqb c ">" then txt "&gt;"
  else [c].

Definition substitute (s : str) : str := flat_map substitute_char s.

(** An attribute value in quotes: double quotes unless the value holds
    one; then single quotes, or [&quot;] if it holds both. *)
Definition quoted_attribute_value (v : str) : str :=
  let dq := chr 34 in
  if Bs4.contains dq v then
    if Bs4.contains "'" v then
      [dq] ++ flat_map (fun c => if PyStr.char_eqb c dq then txt "&quot;"
                                 else [c]) v ++ [dq]
    else txt "'" ++ v ++ txt "'"
  else [dq] ++ v ++ [dq].

(** [s < t] for strings: by code points, a proper prefix first. *)
Fixpoint ltb (s t : str) : bool :=
  match s, t with
  | _, [] => false
  | [], _ :: _ => true
  | a :: s', b :: t' =>
      (ord a <? ord b) || ((ord a =? ord b) && ltb s' t')
  end.

Fixpoint insert_sorted (kv : str * str) (l : list (str * str))
  : list (str * str) :=
  match l with
  | [] => [kv]
  | x :: l' => if ltb (fst kv) (fst x) then kv :: l
               else x :: insert_sorted kv l'
  end.

(** [sorted(tag.attrs.items())]: the attributes by name. *)
Definition sorted (attrs : list (str * str)) : list (str * str) :=
  fold_right insert_sorted [] attrs.

(** The attributes whose value is a list of words, for every tag and for
    some tags. *)
Definition cdata_list_attributes (tag : str) : list string :=
  app ["class"; "accesskey"; "dropzone"]%string
      (if Urllib.mem tag ["a"; "link"]%string then ["rel"; "rev"]%string
       else if Urllib.mem tag ["td"; "th"]%string then ["headers"]%string
       else if Urllib.mem tag ["form"]%string then ["accept-charset"]%string
       else if Urllib.mem tag ["object"]%string then ["archive"]%string
       else if Urllib.mem tag ["area"]%string then ["rel"]%string
       else if Urllib.mem tag ["icon"]%string then ["sizes"]%string
       else if Urllib.mem tag ["iframe"]%string then ["sandbox"]%string
       else if Urllib.mem tag ["output"]%string then ["for"]%string
       else []).

(** The words of a value, [cur] being the word read so far, reversed. *)
Fixpoint words_from (cur : str) (s : str) : list str :=
  match s with
  | [] => if PyStr.is_empty cur then [] else [rev cur]
  | c :: s' =>
      if PyStr.isspace c
      then (if PyStr.is_empty cur then words_from [] s'
            else rev cur :: words_from [] s')
      else words_from (c :: cur) s'
  end.

(** The value as it is written: a list of words joined by single
    spaces, any other value as it is. *)
Definition attribute_value (tag key v : str) : str :=
  if Urllib.mem key (cdata_list_attributes tag)
  then PyStr.join (txt " ") (words_from [] v)
  else v.

Definition attribute_string (tag : str) (attrs : list (str * str)) : str :=
  flat_map (fun kv => txt " " ++ fst kv ++ txt "=" ++
                      quoted_attribute_value
                        (substitute (attribute_value tag (fst kv) (snd kv))))
           (sorted attrs).

(** The strings of [script] and [style] are written as they are. *)
Definition output_ready (parent : str) (n : node) : str :=
  match n with
  | NavigableString s =>
      if Urllib.mem parent ["script"; "style"]%string then s
      else substitute s
  | Special out => out
  | Tag _ _ _ => []
  end.

Definition minimal : writer :=
  {| start_tag := fun name attrs =>
       txt "<" ++ name ++ attribute_string name attrs ++ txt ">";
     end_tag := fun name _ => txt "</" ++ name ++ txt ">";
     empty_tag := fun name attrs =>
       if Bs4.can_be_empty_element name
       then txt "<" ++ name ++ attribute_string name attrs ++ txt "/>"
       else txt "<" ++ name ++ attribute_string name attrs ++ txt "></"
            ++ name ++ txt ">";
     leaf := output_ready |}.

(** [str(soup)] *)
Definition decode (soup : list node) : str :=
  written_all minimal document_name soup.

End Formatter.

(** The reference library. *)
Definition reference : Library :=
  {| urlparse := Urllib.urlparse;
     urljoin := Urllib.urljoin;
     BeautifulSoup := HtmlParser.parse;
     decode := Formatter.decode |}.

(** [SHORTCODE_TPL.format(relpath=relpath, title=title)] *)
Definition shortcode (relpath title : str) : str :=
  txt "[osm_map_v3 map_center=" ++ [chr 34] ++ txt "autolat,autolon"
  ++ [chr 34] ++ txt " zoom=" ++ [chr 34] ++ txt "autozoom" ++ [chr 34]
  ++ txt " width=" ++ [chr 34] ++ txt "100%" ++ [chr 34]
  ++ txt " height=" ++ [chr 34] ++ txt "450" ++ [chr 34]
  ++ txt " file_list=" ++ [chr 34] ++ relpath ++ [chr 34]
  ++ txt " file_color_list=" ++ [chr 34] ++ txt "red" ++ [chr 34]
  ++ txt " file_title=" ++ [chr 34] ++ title ++ [chr 34] ++ txt "]".

(** Markup with double quotes is written with [`] in the examples. *)
Definition markup (s : string) : str :=
  map (fun c => if PyStr.char_eqb c "`" then chr 34 else c) (txt s).
Arguments markup s%_string.

(** ** What a pattern matches

    [Matches.mt r prev w rest]: the pattern [r] matches exactly the text
    [w] when [prev] is the character before it and [rest] is the text after
    it ([\b] and [$] look at both).  The matcher [Re.run] is proved sound
    and complete for it below. *)

Module Matches.

(** The character before the position reached after reading [w]. *)
Definition after (prev : option ascii) (w : str) : option ascii :=
  fold_left (fun _ c => Some c) w prev.

Fixpoint mt (ignorecase : bool) (r : Re.regex) (prev : option ascii)
         (w rest : str) : Prop :=
  match r with
  | Re.Eps => w = []
  | Re.Lit c => exists ch, w = [ch] /\ Re.lit_matches ignorecase c ch = true
  | Re.Star cs => Forall (fun c => Re.in_charset cs c = true) w
  | Re.Cat r1 r2 =>
      exists w1 w2, w = w1 ++ w2
                    /\ mt ignorecase r1 prev w1 (w2 ++ rest)
                    /\ mt ignorecase r2 (after prev w1) w2 rest
  | Re.Alt r1 r2 =>
      mt ignorecase r1 prev w rest \/ mt ignorecase r2 prev w rest
  | Re.Opt r1 => mt ignorecase r1 prev w rest \/ w = []
  | Re.WordBoundary =>
      w = [] /\ xorb (Re.word_before prev) (Re.word_after rest) = true
  | Re.Bos => w = [] /\ prev = None
  | Re.Eos => w = [] /\ (rest = [] \/ rest = [chr 10])
  end.

End Matches.

(** ** The vocabulary of the statements *)

(** Equal up to the case of letters, as [re.IGNORECASE] compares. *)
Definition ci_eq (s t : str) : Prop := PyStr.lower s = PyStr.lower t.

(** White space only. *)
Definition blank (s : str) : Prop := Forall (fun c => PyStr.isspace c = true) s.

(** No [>]. *)
Definition no_gt (s : str) : Prop := Forall (fun c => c <> ">"%char) s.

(** An empty string or one quote character. *)
Definition opt_quote (q : str) : Prop :=
  q = [] \/ q = [chr 34] \/ q = txt "'".

(** The line separator of [line_of]. *)
Definition newline : ascii := chr 10.

(** An opening tag whose name starts with [p], and white space after it:
    what the group [P] of [line_pattern] matches. *)
Definition p_open (w : str) : Prop :=
  exists tag attrs ws, w = tag ++ attrs ++ txt ">" ++ ws
                       /\ ci_eq tag (txt "<p") /\ no_gt attrs /\ blank ws.

(** White space and [</p>]: what the group [C] of [line_pattern] matches. *)
Definition p_close (w : str) : Prop :=
  exists ws tag, w = ws ++ tag /\ blank ws /\ ci_eq tag (txt "</p>").

(** The line holds the anchor [m] alone, up to the case of letters: around
    it only white space, an opening [<p...>] before and a [</p>] after. *)
Definition isolated (line m : str) : Prop :=
  exists ws1 p m' c ws2,
    line = ws1 ++ p ++ m' ++ c ++ ws2
    /\ blank ws1 /\ (p = [] \/ p_open p) /\ ci_eq m' m
    /\ (c = [] \/ p_close c) /\ blank ws2.

(** The reading of the line-isolation guard without white space inside the
    paragraph: the stripped line is the matched text itself, with at most
    an opening [<p...>] tag right before it and [</p>] right after it. *)
Definition strictly_isolated (line m : str) : Prop :=
  exists p c,
    PyStr.strip line = p ++ m ++ c
    /\ (p = [] \/ exists attrs, p = txt "<p" ++ attrs ++ txt ">"
                                /\ no_gt attrs)
    /\ (c = [] \/ c = txt "</p>").




(** [needle in hay] *)
Fixpoint infix (needle hay : str) : bool :=
  PyStr.startswith hay needle
  || match hay with
     | [] => false
     | _ :: hay' => infix needle hay'
     end.

(** The qualifying-file test with one trailing [/] removed, as the
    specification words it. *)
Definition strip_one_trailing_slash (s : str) : str :=
  if PyStr.endswith s (txt "/") then removelast s else s.

Definition qualifying_one_slash (path : str) : bool :=
  PyStr.endswith (PyStr.lower (strip_one_trailing_slash path)) (txt ".gpx").

(** The relative path in the words of the specification: the reference
    directory, one [..] step for each of its non-empty segments, then the
    target path without its leading slashes. *)
Definition reference_directory (post_path : str) : str :=
  if PyStr.endswith post_path (txt "/") then post_path
  else PyStr.join (txt "/") (removelast (PyStr.split "/" post_path))
       ++ txt "/".

(** The number of non-empty segments of a path: the maximal runs of
    characters other than [/]; [inside] tells whether a run is open. *)
Fixpoint segments_from (inside : bool) (s : str) : nat :=
  match s with
  | [] => 0
  | c :: s' =>
      if PyStr.char_eqb c "/" then segments_from false s'
      else (if inside then 0 else 1) + segments_from true s'
  end.

Definition nonempty_segments (s : str) : nat := segments_from false s.

Definition relative_reference (file_path post_path : str) : str :=
  let steps := nonempty_segments (reference_directory post_path) in
  let joined := concat (repeat (txt "../") steps)
                ++ PyStr.lstrip "/" file_path in
  if PyStr.is_empty joined then file_path else joined.

(** Resolution of a reference against a base URI, RFC 3986 section 5.2:
    the reference is parsed into its components (appendix B) and
    transformed (5.2.2), with the merge of paths (5.2.3) and the removal
    of dot segments (5.2.4). *)
Module Rfc3986.

Record uri := {
  u_scheme : option str;
  u_authority : option str;
  u_path : str;
  u_query : option str;
  u_fragment : option str
}.

Definition one_of (cs : string) (c : ascii) : bool :=
  existsb (PyStr.char_eqb c) (txt cs).

(** The longest prefix of [s] without a character of [stop], and the
    rest. *)
Fixpoint until (stop : ascii -> bool) (s : str) : str * str :=
  match s with
  | [] => ([], [])
  | c :: s' => if stop c then ([], s)
               else let (a, b) := until stop s' in (c :: a, b)
  end.

(** Appendix B: scheme up to a first [:] that no [/], [?] or [#]
    precedes; authority after [//]; path up to [?] or [#]; query up to
    [#]; fragment. *)
Definition parse (r : str) : uri :=
  let (head, tail) := until (one_of ":/?#") r in
  let (scheme, r1) :=
    match head, tail with
    | _ :: _, c :: t => if PyStr.char_eqb c ":" then (Some head, t)
                        else (None, r)
    | _, _ => (None, r)
    end in
  let (authority, r2) :=
    if PyStr.startswith r1 (txt "//")
    then let (a, t) := until (one_of "/?#") (skipn 2 r1) in (Some a, t)
    else (None, r1) in
  let (path, r3) := until (one_of "?#") r2 in
  let (query, r4) :=
    match r3 with
    | c :: t => if PyStr.char_eqb c "?"
                then let (q, t') := until (one_of "#") t in (Some q, t')
                else (None, r3)
    | [] => (None, r3)
    end in
  let fragment :=
    match r4 with
    | c :: t => if PyStr.char_eqb c "#" then Some t else None
    | [] => None
    end in
  {| u_scheme := scheme; u_authority := authority; u_path := path;
     u_query := query; u_fragment := fragment |}.

(** 5.2.4, step 2C: the output without its last segment and the slash
    before it. *)
Definition remove_last_segment (output : str) : str :=
  match PyStr.rindex "/" output with
  | Some i => firstn i output
  | None => []
  end.

(** 5.2.4, step 2E: the first segment of the input, with its initial
    slash if any, and the rest. *)
Definition first_segment (input : str) : str * str :=
  match input with
  | c :: rest =>
      if PyStr.char_eqb c "/"
      then let (seg, r) := until (one_of "/") rest in (c :: seg, r)
      else until (one_of "/") input
  | [] => ([], [])
  end.

(** 5.2.4: the loop over the input buffer; every round shortens it. *)
Fixpoint remove_dots_from (fuel : nat) (input output : str) : str :=
  match fuel with
  | 0 => output
  | S fuel' =>
      if PyStr.is_empty input then output
      else if PyStr.startswith input (txt "../")
      then remove_dots_from fuel' (skipn 3 input) output
      else if PyStr.startswith input (txt "./")
      then remove_dots_from fuel' (skipn 2 input) output
      else if PyStr.startswith input (txt "/./")
      then remove_dots_from fuel' (skipn 2 input) output
      else if PyStr.eqb input (txt "/.")
      then remove_dots_from fuel' (txt "/") output
      else if PyStr.startswith input (txt "/../")
      then remove_dots_from fuel' (skipn 3 input)
                            (remove_last_segment output)
      else if PyStr.eqb input (txt "/..")
      then remove_dots_from fuel' (txt "/") (remove_last_segment output)
      else if PyStr.eqb input (txt ".") || PyStr.eqb input (txt "..")
      then remove_dots_from fuel' [] output
      else let (seg, rest) := first_segment input in
           remove_dots_from fuel' rest (output ++ seg)
  end.

Definition remove_dot_segments (p : str) : str :=
  remove_dots_from (S (length p)) p [].

(** 5.2.3 *)
Definition merge (base : uri) (rel : str) : str :=
  match u_authority base, u_path base with
  | Some _, [] => txt "/" ++ rel
  | _, base_path =>
      match PyStr.rindex "/" base_path with
      | Some i => firstn (S i) base_path ++ rel
      | None => rel
      end
  end.

(** 5.2.2: the target of the reference [r] for the base URI. *)
Definition resolve (base : uri) (r : str) : uri :=
  let R := parse r in
  match u_scheme R with
  | Some _ =>
      {| u_scheme := u_scheme R; u_authority := u_authority R;
         u_path := remove_dot_segments (u_path R);
         u_query := u_query R; u_fragment := u_fragment R |}
  | None =>
      match u_authority R with
      | Some _ =>
          {| u_scheme := u_scheme base; u_authority := u_authority R;
             u_path := remove_dot_segments (u_path R);
             u_query := u_query R; u_fragment := u_fragment R |}
      | None =>
          if PyStr.is_empty (u_path R) then
            {| u_scheme := u_scheme base; u_authority := u_authority base;
               u_path := u_path base;
               u_query := match u_query R with
                          | Some q => Some q
                          | None => u_query base
                          end;
               u_fragment := u_fragment R |}
          else
            {| u_scheme := u_scheme base; u_authority := u_authority base;
               u_path := remove_dot_segments
                           (if PyStr.startswith (u_path R) (txt "/")
                            then u_path R else merge base (u_path R));
               u_query := u_query R; u_fragment := u_fragment R |}
      end
  end.

(** The stack reading of the loop: the segments kept, the last one
    first. *)
Definition step (out : list str) (seg : str) : list str :=
  if Urllib.is_dotdot seg then tl out
  else if Urllib.is_dot seg then out
  else seg :: out.

(** The output buffer that holds the segments of a stack. *)
Definition buffer (stack : list str) : str :=
  concat (map (fun s => "/"%char :: s) (rev stack)).

End Rfc3986.

(** A URI of a scheme and an authority with a path alone: the URL of a
    post cut back to a directory, and what a relative path leads to. *)
Definition uri_at (scheme : option str) (authority path : str)
  : Rfc3986.uri :=
  {| Rfc3986.u_scheme := scheme; Rfc3986.u_authority := Some authority;
     Rfc3986.u_path := path; Rfc3986.u_query := None;
     Rfc3986.u_fragment := None |}.

(** A path [/s1/s2/.../sn/] of segments, and a segment: no slash, and
    here not empty. *)
Definition no_slash (s : str) : Prop := Forall (fun c => c <> "/"%char) s.

Definition plain_segment (s : str) : Prop := s <> [] /\ no_slash s.

Definition directory (segs : list str) : str :=
  txt "/" ++ concat (map (fun s => s ++ txt "/") segs).

(** The post path has the directory [/s1/.../sn/]: it is that directory,
    or that directory and a last segment; the empty path has [/]. *)
Definition in_directory (post_path : str) (segs : list str) : Prop :=
  (post_path = [] /\ segs = [])
  \/ exists leaf, no_slash leaf /\ post_path = directory segs ++ leaf.

Definition not_dot_segment (s : str) : Prop :=
  s <> txt "." /\ s <> txt "..".

(** What a path holds up to its first slash. *)
Definition leading_segment (s : str) : str :=
  fst (Rfc3986.until (Rfc3986.one_of "/") s).

Definition no_colon (s : str) : Prop := Forall (fun c => c <> ":"%char) s.

(** What follows a segment in a path: nothing, or the slash of the next
    segment. *)
Definition tail_ok (tail : str) : Prop :=
  tail = [] \/ exists t, tail = "/"%char :: t.

(** Neither [?] nor [#], as in every path component. *)
Definition path_only (s : str) : Prop :=
  Forall (fun c => c <> "?"%char /\ c <> "#"%char) s.

(** ** The vocabulary of the statements on the soup *)

(** The tag at [q] is a [p]. *)
Definition is_p (soup : list node) (q : Bs4.path) : Prop :=
  exists n, Bs4.node_at soup q = Some n
            /\ Bs4.is_tag_named (txt "p") n = true.

(** The tag at [q] encloses the node at [p]. *)
Definition encloses (q p : Bs4.path) : Prop :=
  exists k, 0 < k < length p /\ q = firstn k p.

(** Where the directive goes for the anchor at [target]: before the
    nearest [p] that encloses it, or before the anchor when none does. *)
Definition insertion_point (soup : list node) (target q : Bs4.path) : Prop :=
  (encloses q target /\ is_p soup q
   /\ forall q', encloses q' target -> length q < length q'
                 -> ~ is_p soup q')
  \/ (q = target /\ forall q', encloses q' target -> ~ is_p soup q').

(** The anchor the splicer looks for: same href, same stripped text. *)
Definition same_anchor (link_tag a : node) : Prop :=
  Bs4.tag_get a (txt "href") = Bs4.tag_get link_tag (txt "href")
  /\ Bs4.get_text_strip a = Bs4.get_text_strip link_tag.

(** [out] is [html] with some text inserted at one place. *)
Definition inserted_into (html out : str) : Prop :=
  exists pre ins post, html = pre ++ post /\ out = pre ++ ins ++ post.

(** ** The vocabulary of the statements on [find_gpx_links] *)

(** What the loop of [find_gpx_links] checks of one anchor before it
    appends [(a, url, title)]: the href resolves to [url], the path of
    [url] passes the extension test, the title is the stripped text, the
    anchor is found in the source text and stands alone on its line. *)
Definition detected {L : Library} (html base : str) (a : node)
           (url title : str) : Prop :=
  exists href parsed idx m,
    Bs4.tag_get a (txt "href") = Some href
    /\ urljoin base href = Return url
    /\ urlparse url = Return parsed
    /\ is_gpx_path (path parsed) = true
    /\ title = Bs4.get_text_strip a
    /\ locate html href title = Some (idx, m)
    /\ alone_on_line html idx m = true.

(** The href of an anchor cannot be resolved: [urljoin] raises, or
    [urlparse] raises on what [urljoin] returned. *)
Definition unresolvable {L : Library} (base href : str) (e : exn) : Prop :=
  urljoin base href = Raise e
  \/ exists url, urljoin base href = Return url /\ urlparse url = Raise e.

(** [xs] is [ys] with some elements left out, the order kept. *)
Inductive subsequence {A : Type} : list A -> list A -> Prop :=
| sub_nil : subsequence [] []
| sub_skip x xs ys : subsequence xs ys -> subsequence xs (x :: ys)
| sub_keep x xs ys : subsequence xs ys -> subsequence (x :: xs) (x :: ys).

(** The anchor as it is usually written: [<a href=], the href in double
    quotes, [>], the text, [</a>]. *)
Definition canonical_anchor (href text : str) : str :=
  txt "<a href=" ++ [chr 34] ++ href ++ [chr 34] ++ txt ">" ++ text
  ++ txt "</a>".

(** ** main: the API base, the posts and the loop over them *)

(** Lines 187-197: the site and the API base from the command line.
    [api_base] is [args.api_base], [None] when the option is absent. *)
Definition api_endpoints (site_arg : str) (api_base : option str)
  : str * str :=
  let site := PyStr.rstrip "/" site_arg in
  let derived :=
    if PyStr.endswith site (txt "/wp-json")
    then (firstn (length site - length (txt "/wp-json")) site, site)
    else (site, site ++ txt "/wp-json") in
  match api_base with
  | Some b => if nonempty b then (site, PyStr.rstrip "/" b) else derived
  | None => derived
  end.

(** The fields of a post of the REST API that [main] reads, strings where
    they are present; [None] is a key that is absent.  [post_guid] is
    [guid.rendered]. *)
Record Post := {
  post_id : nat;
  post_title : str;
  post_raw : option str;
  post_rendered : option str;
  post_link : option str;
  post_guid : option str
}.

(** An entry of [updates]. *)
Record Update := {
  update_post_id : nat;
  update_title : str;
  update_old : str;
  update_new : str
}.

Section Pipeline.
Context {L : Library}.

(** Lines 240-246: the raw content with credentials, else the rendered
    content. *)
Definition content_of (auth : bool) (post : Post) : str :=
  let rendered := match post_rendered post with Some r => r | None => [] end in
  if auth then
    match post_raw post with
    | Some raw => if nonempty raw then raw else rendered
    | None => rendered
    end
  else rendered.

(** Line 255: [post.get('link') or post.get('guid', {}).get('rendered',
    site)]. *)
Definition post_url (site : str) (post : Post) : str :=
  let fallback := match post_guid post with Some g => g | None => site end in
  match post_link post with
  | Some l => if nonempty l then l else fallback
  | None => fallback
  end.

(** Lines 254-257: one shortcode per match, each spliced into the result
    of the splice before. *)
Fixpoint splice_all (post_url : str) (new_content : str)
         (link_matches : list (node * str * str)) : outcome str :=
  match link_matches with
  | [] => Return new_content
  | (a_tag, file_url, file_title) :: rest =>
      relpath <- compute_relative_path file_url post_url ;;
      let sc := shortcode relpath file_title in
      new_content <- insert_shortcode_into_html new_content a_tag sc ;;
      splice_all post_url new_content rest
  end.

(** Line 236: [args.limit and posts_processed >= args.limit]. *)
Definition limit_reached (limit : option Z) (posts_processed : nat) : bool :=
  match limit with
  | Some l => negb (l =? 0)%Z && (l <=? Z.of_nat posts_processed)%Z
  | None => false
  end.

(** Lines 235-287: the loop over the posts, with the two values of the
    summary as its state.  Printing, the preview files and [update_post]
    (whose exceptions are caught) change neither. *)
Fixpoint main_loop (limit : option Z) (auth : bool) (site : str)
         (posts : list Post) (posts_processed : nat) (updates : list Update)
  : outcome (nat * list Update) :=
  match posts with
  | [] => Return (posts_processed, updates)
  | post :: rest =>
      if limit_reached limit posts_processed
      then Return (posts_processed, updates)
      else
        let content := content_of auth post in
        link_matches <- find_gpx_links content site ;;
        match link_matches with
        | [] => main_loop limit auth site rest posts_processed updates
        | _ :: _ =>
            new_content <- splice_all (post_url site post) content
                                      link_matches ;;
            let updates :=
              if negb (PyStr.eqb new_content content)
              then updates ++ [{| update_post_id := post_id post;
                                  update_title := post_title post;
                                  update_old := content;
                                  update_new := new_content |}]
              else updates in
            main_loop limit auth site rest (S posts_processed) updates
        end
  end.

End Pipeline.

(** ** get_posts

    The server is a function from the page number to what [session.get]
    gives: a response, or [None] when the request itself raises.  Of a
    response the generator reads the status, the decoded list and the
    header [X-WP-TotalPages], here already an integer.  The generator need
    not stop (a server may serve full pages for ever), so the pages are
    counted down from [fuel]. *)

Record Response := {
  status_code : nat;
  json : list Post;
  total_pages : option Z
}.

Inductive ending :=
| Exhausted    (* the generator returns *)
| Failed       (* an exception leaves the generator *)
| Unfinished.  (* more pages than fuel *)

(** [resp.raise_for_status()] raises on 4xx and 5xx. *)
Definition is_error (status : nat) : bool :=
  (400 <=? status) && (status <? 600).

Fixpoint get_posts_from (session_get : nat -> option Response)
         (per_page : nat) (fuel : nat) (page : nat) : list Post * ending :=
  match fuel with
  | 0 => ([], Unfinished)
  | S fuel' =>
      match session_get page with
      | None => ([], Failed)
      | Some resp =>
          if status_code resp =? 404 then ([], Exhausted)
          else if is_error (status_code resp) then ([], Failed)
          else
            let items := json resp in
            match items with
            | [] => ([], Exhausted)
            | _ :: _ =>
                let stop :=
                  match total_pages resp with
                  | Some total => (total <=? Z.of_nat page)%Z
                  | None => length items <? per_page
                  end in
                if stop then (items, Exhausted)
                else
                  let (more, e) :=
                    get_posts_from session_get per_page fuel' (S page) in
                  (items ++ more, e)
            end
      end
  end.

(** [get_posts(site_api_url, per_page, auth)]: the posts it yields and how
    it ends. *)
Definition get_posts (session_get : nat -> option Response)
           (per_page : nat) (fuel : nat) : list Post * ending :=
  get_posts_from session_get per_page fuel 1.

(** The pages [first], ..., [first + n - 1] of a server. *)
Definition pages (session_get : nat -> option Response) (first n : nat)
  : list Post :=
  flat_map (fun k => match session_get k with
                     | Some resp => json resp
                     | None => []
                     end) (seq first n).

(** A page on which the loop of [get_posts] goes on: it is served
    without error and not empty, and neither the header nor its size ends
    the loop. *)
Definition goes_on (session_get : nat -> option Response)
           (per_page page : nat) : Prop :=
  exists resp,
    session_get page = Some resp
    /\ status_code resp <> 404
    /\ is_error (status_code resp) = false
    /\ json resp <> []
    /\ match total_pages resp with
       | Some total => (Z.of_nat page < total)%Z
       | None => per_page <= length (json resp)
       end.

(** ** Examples *)

Definition example_html : str :=
  markup "<p><a href=`/files/track.gpx`>My Hike</a></p>".

Definition example_base : str := txt "https://example.com".

Definition example_anchor : node :=
  Tag (txt "a") [(txt "href", txt "/files/track.gpx")]
      [NavigableString (txt "My Hike")].

Definition example_match : str :=
  markup "<a href=`/files/track.gpx`>My Hike</a>".

(** White space between the paragraph tag and the anchor. *)
Definition spaced_html : str :=
  markup "<p> <a href=`/t.gpx`>t</a></p>".


(** An attribute in single quotes. *)
Definition single_quoted_html : str :=
  txt "<p><a href='/t.gpx'>t</a></p>".

Definition short_anchor : node :=
  Tag (txt "a") [(txt "href", txt "/t.gpx")] [NavigableString (txt "t")].

(** The anchor and the two lines of the specification's example. *)
Definition bare_anchor : str := markup "<a href=`x`>t</a>".
Definition wrapped_line : str := markup "<p><a href=`x`>t</a></p>".
Definition crowded_line : str := markup "prefix <a href=`x`>t</a> suffix".

(** A link to a file whose name holds a marked section. *)
Definition rejecting_html : str :=
  markup "<p><a href=`/<![x]>.gpx`>t</a></p>".

Definition example_post : Post :=
  {| post_id := 7;
     post_title := txt "Hike";
     post_raw := Some example_html;
     post_rendered := Some (txt "<p>rendered</p>");
     post_link := Some (txt "https://example.com/2020/05/01/post/");
     post_guid := None |}.

Definition plain_post : Post :=
  {| post_id := 8;
     post_title := txt "Notes";
     post_raw := Some (txt "<p>no links here</p>");
     post_rendered := None;
     post_link := None;
     post_guid := None |}.

(** A server with two pages of one post each, and the header. *)
Definition example_server (page : nat) : option Response :=
  match page with
  | 1 => Some {| status_code := 200; json := [example_post];
                 total_pages := Some 2%Z |}
  | 2 => Some {| status_code := 200; json := [plain_post];
                 total_pages := Some 2%Z |}
  | _ => Some {| status_code := 400; json := []; total_pages := None |}
  end.

(** A server without the header: a full page of two posts, then a short
    one. *)
Definition headerless_server (page : nat) : option Response :=
  match page with
  | 1 => Some {| status_code := 200; json := [example_post; plain_post];
                 total_pages := None |}
  | 2 => Some {| status_code := 200; json := [plain_post];
                 total_pages := None |}
  | _ => None
  end.

(** A server whose second page is not found, and one whose second page
    is an error; the first page is full. *)
Definition vanishing_server (page : nat) : option Response :=
  match page with
  | 1 => Some {| status_code := 200; json := [example_post; plain_post];
                 total_pages := None |}
  | _ => Some {| status_code := 404; json := []; total_pages := None |}
  end.

Definition failing_server (page : nat) : option Response :=
  match page with
  | 1 => Some {| status_code := 200; json := [example_post; plain_post];
                 total_pages := None |}
  | _ => Some {| status_code := 500; json := []; total_pages := None |}
  end.

(* ================================================================== *)
(** * Part II: theorems *)
(* ================================================================== *)

Unset Implicit Arguments.

(** ** Strings *)

Lemma char_eqb_eq (a b : ascii) : PyStr.char_eqb a b = true <-> a = b.
Proof. unfold PyStr.char_eqb. apply Ascii.eqb_eq. Qed.

Lemma char_eqb_refl (a : ascii) : PyStr.char_eqb a a = true.
Proof. apply char_eqb_eq. reflexivity. Qed.

Lemma char_eqb_neq (a b : ascii) : PyStr.char_eqb a b = false <-> a <> b.
Proof. unfold PyStr.char_eqb. apply Ascii.eqb_neq. Qed.

Lemma str_eqb_eq (s t : str) : PyStr.eqb s t = true <-> s = t.
Proof.
  revert t. induction s as [|a s IH]; intros [|b t]; simpl;
    try (split; [discriminate | discriminate]); try tauto.
  rewrite andb_true_iff, char_eqb_eq, IH. split.
  - intros [-> ->]. reflexivity.
  - intros H. injection H as -> ->. auto.
Qed.

Lemma str_eqb_refl (s : str) : PyStr.eqb s s = true.
Proof. apply str_eqb_eq. reflexivity. Qed.

Lemma str_eqb_neq (s t : str) : PyStr.eqb s t = false <-> s <> t.
Proof.
  split.
  - intros H E. apply str_eqb_eq in E. congruence.
  - intros H. destruct (PyStr.eqb s t) eqn:E; [|reflexivity].
    apply str_eqb_eq in E. contradiction.
Qed.

Lemma startswith_iff (s p : str) :
  PyStr.startswith s p = true <-> exists t, s = p ++ t.
Proof.
  revert s. induction p as [|a p IH]; intros s; simpl.
  - split; [intros _; exists s; reflexivity | destruct s; reflexivity].
  - destruct s as [|b s]; simpl.
    + split; [discriminate | intros [t H]; discriminate].
    + rewrite andb_true_iff, char_eqb_eq, IH. split.
      * intros [-> [t ->]]. exists t. reflexivity.
      * intros [t H]. injection H as -> ->. split; [reflexivity | eauto].
Qed.

Lemma endswith_iff (s p : str) :
  PyStr.endswith s p = true <-> exists t, s = t ++ p.
Proof.
  unfold PyStr.endswith. rewrite startswith_iff. split.
  - intros [t H]. exists (rev t).
    rewrite <- (rev_involutive s), H, rev_app_distr, rev_involutive.
    reflexivity.
  - intros [t ->]. exists (rev t). apply rev_app_distr.
Qed.

Lemma split_not_nil (c : ascii) (s : str) : PyStr.split c s <> [].
Proof.
  destruct s as [|a s]; simpl; [discriminate|].
  destruct (PyStr.char_eqb a c); [discriminate|].
  destruct (PyStr.split c s); discriminate.
Qed.

Lemma split_cons_other (c a : ascii) (s : str) :
  a <> c ->
  PyStr.split c (a :: s)
  = (a :: hd [] (PyStr.split c s)) :: tl (PyStr.split c s).
Proof.
  intros H. simpl. apply char_eqb_neq in H. rewrite H.
  pose proof (split_not_nil c s) as Hn.
  destruct (PyStr.split c s); [contradiction | reflexivity].
Qed.

Lemma split_without (c : ascii) (s : str) :
  ~ In c s -> PyStr.split c s = [s].
Proof.
  induction s as [|a s IH]; intros H; [reflexivity|].
  rewrite split_cons_other by (intros ->; apply H; left; reflexivity).
  rewrite IH by (intros Hin; apply H; right; exact Hin). reflexivity.
Qed.

(** Splitting distributes over a separator. *)
Lemma split_app_sep (c : ascii) (x y : str) :
  PyStr.split c (x ++ c :: y) = PyStr.split c x ++ PyStr.split c y.
Proof.
  induction x as [|a x IH].
  - simpl. rewrite char_eqb_refl. reflexivity.
  - destruct (PyStr.char_eqb a c) eqn:E.
    + simpl. rewrite E, IH. reflexivity.
    + apply char_eqb_neq in E.
      change ((a :: x) ++ c :: y) with (a :: (x ++ c :: y)).
      rewrite !split_cons_other, IH by exact E.
      pose proof (split_not_nil c x) as Hn.
      destruct (PyStr.split c x); [contradiction | reflexivity].
Qed.

Lemma split_segment (c : ascii) (x y : str) :
  ~ In c x -> PyStr.split c (x ++ c :: y) = x :: PyStr.split c y.
Proof.
  intros H. rewrite split_app_sep, split_without by exact H. reflexivity.
Qed.

Lemma join_cons (sep p : str) (rest : list str) :
  rest <> [] ->
  PyStr.join sep (p :: rest) = p ++ sep ++ PyStr.join sep rest.
Proof. destruct rest; [contradiction | reflexivity]. Qed.

(** [sep.join(s.split(sep))] is [s]. *)
Lemma join_split (c : ascii) (s : str) :
  PyStr.join [c] (PyStr.split c s) = s.
Proof.
  induction s as [|a s IH]; [reflexivity|].
  destruct (PyStr.char_eqb a c) eqn:E.
  - simpl. rewrite E. rewrite join_cons by apply split_not_nil.
    apply char_eqb_eq in E. subst a. simpl. rewrite IH. reflexivity.
  - apply char_eqb_neq in E. rewrite split_cons_other by exact E.
    pose proof (split_not_nil c s) as Hn.
    destruct (PyStr.split c s) as [|h t]; [contradiction|]. simpl in *.
    destruct t; simpl in *; rewrite <- IH; reflexivity.
Qed.

Lemma rindex_none (c : ascii) (s : str) :
  PyStr.rindex c s = None <-> ~ In c s.
Proof.
  induction s as [|a s IH]; simpl.
  - tauto.
  - destruct (PyStr.rindex c s).
    + split; [discriminate|]. intros H. exfalso.
      assert (~ In c s) as Hs by tauto.
      apply IH in Hs. discriminate.
    + destruct (PyStr.char_eqb a c) eqn:E.
      * apply char_eqb_eq in E. split; [discriminate | intros H; tauto].
      * apply char_eqb_neq in E. split; [|reflexivity].
        intros _ [H | H]; [contradiction | tauto].
Qed.

Lemma rindex_app_sep (c : ascii) (x y : str) :
  ~ In c y -> PyStr.rindex c (x ++ c :: y) = Some (length x).
Proof.
  intros H. induction x as [|a x IH]; simpl.
  - apply rindex_none in H. rewrite H, char_eqb_refl. reflexivity.
  - rewrite IH. reflexivity.
Qed.

(** The last occurrence of a character that occurs. *)
Lemma in_last_split (c : ascii) (s : str) :
  In c s -> exists x y, s = x ++ c :: y /\ ~ In c y.
Proof.
  induction s as [|a s IH]; intros H; [contradiction|].
  destruct (in_dec ascii_dec c s) as [Hs | Hs].
  - destruct (IH Hs) as (x & y & -> & Hy). exists (a :: x), y. auto.
  - destruct H as [-> | H]; [|contradiction]. exists [], s. auto.
Qed.

Lemma firstn_length_app (A : Type) (x y : list A) : firstn (length x) (x ++ y) = x.
Proof.
  rewrite firstn_app, Nat.sub_diag, firstn_all. simpl. apply app_nil_r.
Qed.

(** [s.rsplit(c, 1)[0]] drops the last segment of a string that has a
    separator. *)
Lemma rsplit1_head_join (c : ascii) (s : str) :
  In c s ->
  PyStr.rsplit1_head c s = PyStr.join [c] (removelast (PyStr.split c s)).
Proof.
  intros H. destruct (in_last_split c s H) as (x & y & -> & Hy).
  unfold PyStr.rsplit1_head. rewrite rindex_app_sep by exact Hy.
  rewrite firstn_length_app, split_app_sep, (split_without c y Hy).
  rewrite removelast_last. symmetry. apply join_split.
Qed.

Lemma join_steps (step x : str) (n : nat) :
  PyStr.join (txt "/") (repeat step n ++ [x])
  = concat (repeat (step ++ txt "/") n) ++ x.
Proof.
  induction n as [|n IH]; [reflexivity|].
  change (repeat step (S n) ++ [x]) with (step :: (repeat step n ++ [x])).
  rewrite join_cons by (destruct (repeat step n); discriminate).
  rewrite IH. simpl. rewrite <- !app_assoc. reflexivity.
Qed.

(** Counting the non-empty parts of a split is counting the runs of
    characters between separators. *)
Lemma segments_from_split (s : str) :
  segments_from false s
  = length (filter nonempty (PyStr.split "/" s))
  /\ segments_from true s
     = length (filter nonempty (tl (PyStr.split "/" s))).
Proof.
  induction s as [|a s [IH1 IH2]]; [split; reflexivity|].
  destruct (PyStr.char_eqb a "/") eqn:E.
  - simpl. rewrite E. simpl. auto.
  - assert (a <> "/"%char) as Ha by (apply char_eqb_neq; exact E).
    rewrite split_cons_other by exact Ha.
    simpl segments_from. rewrite E. simpl. rewrite IH2. auto.
Qed.

Lemma nonempty_segments_split (s : str) :
  length (filter nonempty (PyStr.split "/" s)) = nonempty_segments s.
Proof. symmetry. apply segments_from_split. Qed.

(** ** compute_relative_path *)

Section RelativePathFacts.
Context {L : Library}.

Lemma post_dir_reference_directory (post_path : str) :
  post_path = [] \/ (exists t, post_path = "/"%char :: t) ->
  (if PyStr.endswith post_path (txt "/") then post_path
   else PyStr.rsplit1_head "/" post_path ++ txt "/")
  = reference_directory post_path.
Proof.
  intros H. unfold reference_directory.
  destruct (PyStr.endswith post_path (txt "/")); [reflexivity|].
  destruct H as [-> | [t ->]]; [reflexivity|].
  rewrite rsplit1_head_join by (left; reflexivity). reflexivity.
Qed.

(** C9.  When the two URLs parse and their [netloc]s differ,
    [compute_relative_path] returns the file URL itself and does not
    raise. *)
Theorem cross_host_returns_the_url (file_url post_url : str)
        (f p : ParseResult) :
  urlparse file_url = Return f ->
  urlparse post_url = Return p ->
  netloc f <> netloc p ->
  compute_relative_path file_url post_url = Return file_url.
Proof.
  intros Hf Hp Hne. unfold compute_relative_path.
  rewrite Hf, Hp. simpl. apply str_eqb_neq in Hne. rewrite Hne.
  reflexivity.
Qed.

(** C2, as the program has it.  For two URLs of one [netloc] (the
    authority as it is written, not the host alone), the post path empty
    or rooted (as in every URL with a host): the result is the relative
    reference of
    the specification, from the reference directory (the post path when
    it ends in a slash, else without its final segment and with a slash),
    one [..] step per non-empty segment, and the file path without its
    leading slashes; the raw file path when that is empty. *)
Theorem relative_path_as_specified (file_url post_url : str)
        (f p : ParseResult) :
  urlparse file_url = Return f ->
  urlparse post_url = Return p ->
  netloc f = netloc p ->
  path p = [] \/ (exists t, path p = "/"%char :: t) ->
  compute_relative_path file_url post_url
  = Return (relative_reference (path f) (path p)).
Proof.
  intros Hf Hp Hnl Hroot. unfold compute_relative_path.
  rewrite Hf, Hp. cbn [bind]. rewrite Hnl, str_eqb_refl.
  cbn [negb]. cbv zeta.
  rewrite (post_dir_reference_directory _ Hroot).
  rewrite nonempty_segments_split, join_steps. reflexivity.
Qed.

End RelativePathFacts.

Lemma cross_host_witness :
  @compute_relative_path reference
     (txt "https://cdn.example.org/tracks/hike.gpx")
     (txt "https://example.com/2020/05/01/post/")
  = Return (txt "https://cdn.example.org/tracks/hike.gpx").
Proof.
  apply (@cross_host_returns_the_url reference _ _
           {| netloc := txt "cdn.example.org";
              path := txt "/tracks/hike.gpx" |}
           {| netloc := txt "example.com";
              path := txt "/2020/05/01/post/" |});
    [ vm_compute; reflexivity | vm_compute; reflexivity | discriminate ].
Defined.

Lemma relative_path_witness :
  @compute_relative_path reference
     (txt "https://example.com/wp-content/uploads/track.gpx")
     (txt "https://example.com/2020/05/01/post/")
  = Return (txt "../../../../wp-content/uploads/track.gpx").
Proof.
  eapply eq_trans.
  - apply (@relative_path_as_specified reference _ _
             {| netloc := txt "example.com";
                path := txt "/wp-content/uploads/track.gpx" |}
             {| netloc := txt "example.com";
                path := txt "/2020/05/01/post/" |});
      [ vm_compute; reflexivity | vm_compute; reflexivity
      | reflexivity | right; eexists; reflexivity ].
  - vm_compute. reflexivity.
Defined.

(** Two URLs of one host whose netlocs differ, one with the port written
    out: the program takes them for two hosts and returns the file URL,
    not the relative path of the construction. *)
Lemma same_host_with_port_is_not_relative :
  Urllib.urlparse (txt "https://example.com:443/files/t.gpx")
  = Return {| netloc := txt "example.com:443"; path := txt "/files/t.gpx" |}
  /\ Urllib.urlparse (txt "https://example.com/post/")
     = Return {| netloc := txt "example.com"; path := txt "/post/" |}
  /\ Urllib.hostname (txt "example.com:443")
     = Urllib.hostname (txt "example.com")
  /\ @compute_relative_path reference
       (txt "https://example.com:443/files/t.gpx")
       (txt "https://example.com/post/")
     = Return (txt "https://example.com:443/files/t.gpx")
  /\ relative_reference (txt "/files/t.gpx") (txt "/post/")
     = txt "../files/t.gpx"
  /\ txt "https://example.com:443/files/t.gpx" <> txt "../files/t.gpx".
Proof. vm_compute. repeat split. discriminate. Qed.

(** ** Characters *)

Ltac each_char c := destruct c as [[] [] [] [] [] [] [] []].

Lemma lower_char_slash (c : ascii) :
  PyStr.lower_char c = "/"%char <-> c = "/"%char.
Proof.
  each_char c; vm_compute; split; intros H; (reflexivity || discriminate H).
Qed.

Lemma lower_char_newline (c : ascii) :
  PyStr.lower_char c = PyStr.lower_char newline -> c = newline.
Proof.
  each_char c; vm_compute; intros H; (reflexivity || discriminate H).
Qed.

Lemma lower_char_idem (c : ascii) :
  PyStr.lower_char (PyStr.lower_char c) = PyStr.lower_char c.
Proof. each_char c; vm_compute; reflexivity. Qed.

(** ** Stripping *)

Lemma lstrip_spec (c : ascii) (s : str) :
  exists k, s = repeat c k ++ PyStr.lstrip c s
            /\ (forall t, PyStr.lstrip c s <> c :: t).
Proof.
  induction s as [|a s (k & IH & Hn)].
  - exists 0. split; [reflexivity | discriminate].
  - simpl. destruct (PyStr.char_eqb a c) eqn:E.
    + apply char_eqb_eq in E. subst a. exists (S k). simpl.
      split; [f_equal; exact IH | exact Hn].
    + exists 0. split; [reflexivity|]. intros t H. injection H as -> _.
      rewrite char_eqb_refl in E. discriminate.
Qed.

Lemma lstrip_repeat (c : ascii) (k : nat) (s : str) :
  PyStr.lstrip c (repeat c k ++ s) = PyStr.lstrip c s.
Proof.
  induction k as [|k IH]; [reflexivity|]. simpl.
  rewrite char_eqb_refl. exact IH.
Qed.

Lemma lstrip_other (c a : ascii) (s : str) :
  a <> c -> PyStr.lstrip c (a :: s) = a :: s.
Proof. intros H. simpl. apply char_eqb_neq in H. rewrite H. reflexivity. Qed.

Lemma lstrip_map (f : ascii -> ascii) (c : ascii) (s : str) :
  (forall a, f a = c <-> a = c) ->
  PyStr.lstrip c (map f s) = map f (PyStr.lstrip c s).
Proof.
  intros Hf. induction s as [|a s IH]; [reflexivity|]. simpl.
  destruct (PyStr.char_eqb a c) eqn:E.
  - apply char_eqb_eq in E. subst a.
    replace (f c) with c by (symmetry; apply Hf; reflexivity).
    rewrite char_eqb_refl. exact IH.
  - apply char_eqb_neq in E.
    assert (f a <> c) as Hn by (intros H; apply E; apply Hf; exact H).
    apply char_eqb_neq in Hn. rewrite Hn. reflexivity.
Qed.

Lemma rev_repeat (c : ascii) (k : nat) : rev (repeat c k) = repeat c k.
Proof.
  induction k as [|k IH]; [reflexivity|]. simpl. rewrite IH.
  clear IH. induction k as [|k IH]; [reflexivity|]. simpl.
  rewrite IH. reflexivity.
Qed.

Lemma rstrip_spec (c : ascii) (s : str) :
  exists k, s = PyStr.rstrip c s ++ repeat c k
            /\ (forall t, PyStr.rstrip c s <> t ++ [c]).
Proof.
  unfold PyStr.rstrip. destruct (lstrip_spec c (rev s)) as (k & H & Hn).
  exists k. split.
  - apply (f_equal (@rev ascii)) in H.
    rewrite rev_involutive, rev_app_distr, rev_repeat in H. exact H.
  - intros t E. apply (Hn (rev t)).
    rewrite <- (rev_involutive (PyStr.lstrip c (rev s))), E, rev_app_distr.
    reflexivity.
Qed.

Lemma rstrip_repeat (c : ascii) (k : nat) (s : str) :
  PyStr.rstrip c (s ++ repeat c k) = PyStr.rstrip c s.
Proof.
  unfold PyStr.rstrip. rewrite rev_app_distr, rev_repeat, lstrip_repeat.
  reflexivity.
Qed.

Lemma rstrip_other (c a : ascii) (s : str) :
  a <> c -> PyStr.rstrip c (s ++ [a]) = s ++ [a].
Proof.
  intros H. unfold PyStr.rstrip. rewrite rev_app_distr. simpl rev at 2.
  simpl app. rewrite lstrip_other by exact H.
  change (a :: rev s) with ([a] ++ rev s).
  rewrite rev_app_distr, rev_involutive. reflexivity.
Qed.

Lemma rstrip_lower (s : str) :
  PyStr.rstrip "/" (PyStr.lower s) = PyStr.lower (PyStr.rstrip "/" s).
Proof.
  unfold PyStr.rstrip, PyStr.lower.
  rewrite <- map_rev, lstrip_map by apply lower_char_slash.
  rewrite map_rev. reflexivity.
Qed.

Lemma all_slashes_repeat (s : str) :
  Forall (fun c => c = "/"%char) s -> s = repeat "/"%char (length s).
Proof.
  induction 1 as [|a s Ha _ IH]; [reflexivity|].
  simpl. subst a. f_equal. exact IH.
Qed.

(** ** The qualifying-file test *)

(** C7, as the program has it.  The test of [find_gpx_links] on the path
    of the resolved URL holds exactly when the path is some text, then
    the extension [.gpx] in any case of letters, then any number of
    slashes: every trailing slash is dropped, not one.  The empty path
    fails the test. *)
Theorem gpx_path_is_extension_then_slashes (path : str) :
  (is_gpx_path path = true
   <-> exists stem ext slashes,
         path = stem ++ ext ++ slashes
         /\ ci_eq ext (txt ".gpx")
         /\ Forall (fun c => c = "/"%char) slashes)
  /\ is_gpx_path [] = false.
Proof.
  split; [|reflexivity]. unfold is_gpx_path. rewrite rstrip_lower. split.
  - intros H. apply endswith_iff in H. destruct H as [t H].
    unfold PyStr.lower in H. apply map_eq_app in H.
    destruct H as (stem & ext & Hs & _ & Hext).
    destruct (rstrip_spec "/" path) as (k & Hk & _).
    exists stem, ext, (repeat "/"%char k). split; [|split].
    + rewrite app_assoc, <- Hs. exact Hk.
    + exact Hext.
    + clear. induction k; simpl; constructor; auto.
  - intros (stem & ext & slashes & -> & Hext & Hsl).
    rewrite (all_slashes_repeat _ Hsl), app_assoc, rstrip_repeat.
    unfold ci_eq, PyStr.lower in Hext.
    destruct ext as [|e1 [|e2 [|e3 [|e4 [|e5 ext]]]]]; try discriminate Hext.
    injection Hext as H1 H2 H3 H4.
    assert (e4 <> "/"%char) as Hne.
    { intros ->. vm_compute in H4. discriminate H4. }
    change [e1; e2; e3; e4] with ([e1; e2; e3] ++ [e4]).
    rewrite app_assoc, rstrip_other by exact Hne.
    apply endswith_iff. exists (PyStr.lower stem).
    unfold PyStr.lower. rewrite <- !app_assoc, !map_app. simpl.
    rewrite H1, H2, H3, H4. reflexivity.
Qed.

(** The path [/track.gpx//] of [https://example.com/track.gpx//] passes
    the test of the program and fails the test that drops one slash. *)
Lemma two_trailing_slashes_qualify :
  Urllib.urlparse (txt "https://example.com/track.gpx//")
  = Return {| netloc := txt "example.com"; path := txt "/track.gpx//" |}
  /\ is_gpx_path (txt "/track.gpx//") = true
  /\ qualifying_one_slash (txt "/track.gpx//") = false.
Proof. vm_compute. repeat split. Qed.

(** ** Resolving the relative path *)

Lemma split_concat_segments (segs : list str) (tail : str) :
  Forall no_slash segs ->
  PyStr.split "/" (concat (map (fun s => s ++ txt "/") segs) ++ tail)
  = segs ++ PyStr.split "/" tail.
Proof.
  induction 1 as [|s segs Hs _ IH]; [reflexivity|].
  replace (concat (map (fun s => s ++ txt "/") (s :: segs)) ++ tail)
    with (s ++ "/"%char :: (concat (map (fun s => s ++ txt "/") segs)
                            ++ tail))
    by (cbn [map concat]; rewrite <- !app_assoc; reflexivity).
  rewrite split_segment, IH; [reflexivity|].
  intros Hin. unfold no_slash in Hs. rewrite Forall_forall in Hs.
  exact (Hs _ Hin eq_refl).
Qed.

Lemma split_directory (segs : list str) (tail : str) :
  Forall plain_segment segs ->
  PyStr.split "/" (directory segs ++ tail)
  = [] :: segs ++ PyStr.split "/" tail.
Proof.
  intros H. unfold directory. simpl. f_equal.
  apply split_concat_segments.
  eapply Forall_impl; [|exact H]. intros s [_ Hs]. exact Hs.
Qed.

Lemma filter_nonempty_plain (segs : list str) :
  Forall plain_segment segs -> filter nonempty segs = segs.
Proof.
  induction 1 as [|s segs [Hs _] _ IH]; [reflexivity|].
  simpl. destruct s; [contradiction|]. simpl. rewrite IH. reflexivity.
Qed.

Lemma directory_ends_with_slash (segs : list str) :
  exists t, directory segs = t ++ txt "/".
Proof.
  unfold directory. induction segs as [|s segs _] using rev_ind.
  - exists []. reflexivity.
  - exists (txt "/" ++ concat (map (fun s => s ++ txt "/") segs) ++ s).
    rewrite map_app, concat_app. simpl. rewrite app_nil_r, <- !app_assoc.
    reflexivity.
Qed.

Lemma exists_last_char (s : str) :
  s <> [] -> exists t z, s = t ++ [z].
Proof.
  intros H. destruct (exists_last H) as (t & z & E). eauto.
Qed.

Lemma no_slash_not_endswith (x leaf : str) :
  leaf <> [] -> no_slash leaf ->
  PyStr.endswith (x ++ leaf) (txt "/") = false.
Proof.
  intros Hne Hns. destruct (PyStr.endswith (x ++ leaf) (txt "/")) eqn:E;
    [|reflexivity].
  apply endswith_iff in E. destruct E as [t E].
  destruct (exists_last_char leaf Hne) as (l & z & ->).
  rewrite app_assoc in E. apply app_inj_tail in E. destruct E as [_ ->].
  unfold no_slash in Hns. rewrite Forall_forall in Hns.
  exfalso. apply (Hns "/"%char); [|reflexivity].
  apply in_or_app. right. left. reflexivity.
Qed.

(** The directory the program computes for a post path. *)
Lemma post_dir_in_directory (post_path : str) (segs : list str) :
  in_directory post_path segs ->
  (if PyStr.endswith post_path (txt "/") then post_path
   else PyStr.rsplit1_head "/" post_path ++ txt "/")
  = directory segs.
Proof.
  intros [[-> ->] | (leaf & Hleaf & ->)]; [reflexivity|].
  destruct leaf as [|a leaf].
  - rewrite app_nil_r.
    destruct (directory_ends_with_slash segs) as [t E].
    replace (PyStr.endswith (directory segs) (txt "/")) with true;
      [reflexivity|].
    symmetry. apply endswith_iff. eauto.
  - rewrite no_slash_not_endswith by (discriminate || exact Hleaf).
    destruct (directory_ends_with_slash segs) as [t E]. rewrite E.
    unfold PyStr.rsplit1_head. rewrite <- app_assoc. simpl.
    rewrite rindex_app_sep.
    + rewrite firstn_length_app. reflexivity.
    + intros Hin. unfold no_slash in Hleaf. rewrite Forall_forall in Hleaf.
      exact (Hleaf _ Hin eq_refl).
Qed.

Lemma lstrip_unrooted (body : str) :
  (forall t, body <> "/"%char :: t) -> PyStr.lstrip "/" body = body.
Proof.
  intros H. destruct body as [|a body]; [reflexivity|].
  apply lstrip_other. intros ->. exact (H body eq_refl).
Qed.

Module Rfc3986Facts.
Import Rfc3986.

Lemma step_length (out : list str) (seg : str) :
  length (step out seg) <= S (length out).
Proof.
  unfold step. destruct (Urllib.is_dotdot seg).
  - destruct out; simpl; lia.
  - destruct (Urllib.is_dot seg); simpl; lia.
Qed.

Lemma fold_step_length (segs : list str) (out : list str) :
  length (fold_left step segs out) <= length segs + length out.
Proof.
  revert out. induction segs as [|s segs IH]; intros out; simpl; [lia|].
  specialize (IH (step out s)). pose proof (step_length out s). lia.
Qed.

(** As many [..] as the stack is deep, or more, empty it. *)
Lemma fold_step_up (n : nat) (out : list str) :
  length out <= n -> fold_left step (repeat (txt "..") n) out = [].
Proof.
  revert out. induction n as [|n IH]; intros out H.
  - destruct out; [reflexivity | simpl in H; lia].
  - simpl. apply IH. unfold step. simpl.
    destruct out; simpl in *; lia.
Qed.

Lemma step_plain (out : list str) (seg : str) :
  not_dot_segment seg -> step out seg = seg :: out.
Proof.
  intros [H1 H2]. unfold step, Urllib.is_dotdot, Urllib.is_dot.
  apply str_eqb_neq in H1, H2. rewrite H1, H2. reflexivity.
Qed.

Lemma fold_step_plain (segs : list str) (out : list str) :
  Forall not_dot_segment segs ->
  fold_left step segs out = rev segs ++ out.
Proof.
  intros H. revert out. induction H as [|s segs Hs _ IH]; intros out;
    [reflexivity|].
  simpl. rewrite step_plain, IH by exact Hs.
  rewrite <- app_assoc. reflexivity.
Qed.

Lemma step_no_slash (out : list str) (seg : str) :
  Forall no_slash out -> no_slash seg -> Forall no_slash (step out seg).
Proof.
  intros Ho Hs. unfold step. destruct (Urllib.is_dotdot seg).
  - destruct out; [constructor | inversion Ho; assumption].
  - destruct (Urllib.is_dot seg); [exact Ho | constructor; assumption].
Qed.

Lemma last_app_nonempty (xs ys : list str) :
  ys <> [] -> last (xs ++ ys) [] = last ys [].
Proof.
  intros H. induction xs as [|x xs IH]; [reflexivity|].
  simpl. rewrite IH. destruct (xs ++ ys) eqn:E; [|reflexivity].
  apply app_eq_nil in E. destruct E as [_ ->]. contradiction.
Qed.

Lemma last_plain (segs : list str) :
  segs <> [] -> Forall not_dot_segment segs ->
  Urllib.is_dot (last segs []) || Urllib.is_dotdot (last segs []) = false.
Proof.
  intros Hne H. destruct (exists_last Hne) as (front & s & ->).
  rewrite last_last. apply Forall_app in H. destruct H as [_ H].
  inversion H as [|? ? [H1 H2] _]; subst.
  unfold Urllib.is_dot, Urllib.is_dotdot.
  apply str_eqb_neq in H1, H2. rewrite H1, H2. reflexivity.
Qed.

(** [until] cuts a text before its first stop character. *)
Lemma until_spec (stop : ascii -> bool) (s : str) :
  s = fst (until stop s) ++ snd (until stop s)
  /\ Forall (fun c => stop c = false) (fst (until stop s))
  /\ (snd (until stop s) = []
      \/ exists c t, snd (until stop s) = c :: t /\ stop c = true).
Proof.
  induction s as [|c s (IH1 & IH2 & IH3)]; simpl.
  - repeat split; [constructor | left; reflexivity].
  - destruct (stop c) eqn:E; simpl.
    + repeat split; [constructor | right; eauto].
    + destruct (until stop s) as [a b]. simpl in *.
      repeat split; [f_equal; exact IH1 | constructor; assumption
                     | exact IH3].
Qed.

Lemma until_segment (stop : ascii -> bool) (s tail : str) :
  Forall (fun c => stop c = false) s ->
  (tail = [] \/ exists c t, tail = c :: t /\ stop c = true) ->
  until stop (s ++ tail) = (s, tail).
Proof.
  intros Hs Ht. induction Hs as [|c s Hc _ IH]; simpl.
  - destruct Ht as [-> | (c & t & -> & Hc)]; [reflexivity|].
    simpl. rewrite Hc. reflexivity.
  - rewrite Hc, IH. reflexivity.
Qed.

Lemma one_of_slash (c : ascii) :
  one_of "/" c = false <-> c <> "/"%char.
Proof.
  unfold one_of. cbn [txt list_ascii_of_string existsb].
  rewrite orb_false_r. apply char_eqb_neq.
Qed.

Lemma no_slash_until (s : str) :
  no_slash s -> Forall (fun c => one_of "/" c = false) s.
Proof.
  intros H. eapply Forall_impl; [|exact H].
  intros c Hc. apply one_of_slash. exact Hc.
Qed.

(** A reference without [?] and [#], without a colon in its leading
    segment and without two slashes in front, is a path and nothing
    else. *)
Lemma parse_path_only (r : str) :
  path_only r -> no_colon (leading_segment r) ->
  PyStr.startswith r (txt "//") = false ->
  parse r = {| u_scheme := None; u_authority := None; u_path := r;
               u_query := None; u_fragment := None |}.
Proof.
  intros Hp Hc Hs. unfold parse.
  assert (until (one_of ":/?#") r = until (one_of "/") r) as ->.
  { clear Hs. unfold leading_segment in Hc.
    induction r as [|c r IH]; [reflexivity|].
    inversion Hp as [|? ? [Hq Hf] Hp']; subst. cbn [until] in *.
    destruct (one_of "/" c) eqn:E.
    - unfold one_of in *. cbn [txt list_ascii_of_string existsb] in *.
      rewrite orb_false_r in E. rewrite E, orb_true_r. reflexivity.
    - destruct (until (one_of "/") r) as [a b] eqn:Eu. cbn [fst] in *.
      inversion Hc as [|? ? Hcol Hc']; subst.
      replace (one_of ":/?#" c) with false.
      + rewrite (IH Hp' Hc'). reflexivity.
      + symmetry. unfold one_of in *.
        cbn [txt list_ascii_of_string existsb] in *.
        rewrite orb_false_r in E. rewrite E.
        apply char_eqb_neq in Hcol, Hq, Hf. rewrite Hcol, Hq, Hf.
        reflexivity. }
  destruct (until_spec (one_of "/") r) as (_ & _ & Htail).
  destruct (until (one_of "/") r) as [head tail]. cbn [fst snd] in Htail.
  assert ((match head, tail with
           | _ :: _, c :: t => if PyStr.char_eqb c ":" then (Some head, t)
                               else (None, r)
           | _, _ => (None, r)
           end) = (@None str, r)) as ->.
  { destruct head as [|h head]; [destruct tail; reflexivity|].
    destruct Htail as [-> | (c & t & -> & Hc')]; [reflexivity|].
    apply Bool.not_false_iff_true in Hc'.
    rewrite one_of_slash in Hc'.
    destruct (ascii_dec c "/") as [-> | Hne]; [reflexivity|].
    exfalso. apply Hc'. exact Hne. }
  rewrite Hs.
  assert (until (one_of "?#") r = (r, [])) as ->.
  { rewrite <- (app_nil_r r) at 1. apply until_segment; [|left; reflexivity].
    eapply Forall_impl; [|exact Hp]. intros c [Hq Hf].
    unfold one_of. cbn [txt list_ascii_of_string existsb].
    apply char_eqb_neq in Hq, Hf. rewrite Hq, Hf. reflexivity. }
  reflexivity.
Qed.

Lemma buffer_push (stack : list str) (s : str) :
  buffer (s :: stack) = buffer stack ++ "/"%char :: s.
Proof.
  unfold buffer. cbn [rev]. rewrite map_app, concat_app. cbn [map concat].
  rewrite app_nil_r. reflexivity.
Qed.

Lemma remove_last_segment_buffer (stack : list str) :
  Forall no_slash stack ->
  remove_last_segment (buffer stack) = buffer (tl stack).
Proof.
  intros H. destruct stack as [|s stack]; [reflexivity|].
  inversion H as [|? ? Hs _]; subst.
  rewrite buffer_push. unfold remove_last_segment.
  rewrite rindex_app_sep.
  - rewrite firstn_length_app. reflexivity.
  - intros Hin. unfold no_slash in Hs. rewrite Forall_forall in Hs.
    exact (Hs _ Hin eq_refl).
Qed.

(** One round of the loop on an input that starts with a slash. *)
Lemma loop_rooted (fuel : nat) (rest out : str) :
  remove_dots_from (S fuel) ("/"%char :: rest) out
  = if PyStr.startswith rest (txt "./")
    then remove_dots_from fuel (skipn 1 rest) out
    else if PyStr.eqb rest (txt ".")
    then remove_dots_from fuel (txt "/") out
    else if PyStr.startswith rest (txt "../")
    then remove_dots_from fuel (skipn 2 rest) (remove_last_segment out)
    else if PyStr.eqb rest (txt "..")
    then remove_dots_from fuel (txt "/") (remove_last_segment out)
    else remove_dots_from fuel (snd (until (one_of "/") rest))
           (out ++ "/"%char :: fst (until (one_of "/") rest)).
Proof.
  cbn [remove_dots_from PyStr.is_empty].
  change (PyStr.startswith ("/"%char :: rest) (txt "../")) with false.
  change (PyStr.startswith ("/"%char :: rest) (txt "./")) with false.
  change (PyStr.startswith ("/"%char :: rest) (txt "/./"))
    with (PyStr.startswith rest (txt "./")).
  change (PyStr.eqb ("/"%char :: rest) (txt "/."))
    with (PyStr.eqb rest (txt ".")).
  change (PyStr.startswith ("/"%char :: rest) (txt "/../"))
    with (PyStr.startswith rest (txt "../")).
  change (PyStr.eqb ("/"%char :: rest) (txt "/.."))
    with (PyStr.eqb rest (txt "..")).
  change (PyStr.eqb ("/"%char :: rest) (txt ".")) with false.
  change (PyStr.eqb ("/"%char :: rest) (txt "..")) with false.
  cbn [orb skipn].
  destruct (PyStr.startswith rest (txt "./")); [reflexivity|].
  destruct (PyStr.eqb rest (txt ".")); [reflexivity|].
  destruct (PyStr.startswith rest (txt "../")); [reflexivity|].
  destruct (PyStr.eqb rest (txt "..")); [reflexivity|].
  unfold first_segment.
  change (PyStr.char_eqb "/" "/") with true. cbv iota.
  destruct (until (one_of "/") rest) as [seg r]. reflexivity.
Qed.

Lemma tail_ok_until (tail : str) :
  tail_ok tail ->
  tail = [] \/ exists c t, tail = c :: t /\ one_of "/" c = true.
Proof.
  intros [-> | [t ->]]; [left; reflexivity|].
  right. exists "/"%char, t. split; reflexivity.
Qed.

(** The round for one segment of the input. *)
Lemma loop_segment (fuel : nat) (s tail : str) (stack : list str) :
  no_slash s -> tail_ok tail -> Forall no_slash stack ->
  remove_dots_from (S fuel) ("/"%char :: s ++ tail) (buffer stack)
  = match tail with
    | [] =>
        if Urllib.is_dot s || Urllib.is_dotdot s
        then remove_dots_from fuel (txt "/") (buffer (step stack s))
        else buffer (step stack s)
    | _ :: _ => remove_dots_from fuel tail (buffer (step stack s))
    end.
Proof.
  intros Hs Ht Hstack. rewrite loop_rooted.
  unfold step, Urllib.is_dot, Urllib.is_dotdot.
  destruct (PyStr.eqb s (txt "..")) eqn:E2.
  { apply str_eqb_eq in E2. subst s.
    rewrite (remove_last_segment_buffer _ Hstack).
    destruct Ht as [-> | [t ->]]; [reflexivity|].
    destruct t; reflexivity. }
  destruct (PyStr.eqb s (txt ".")) eqn:E1.
  { apply str_eqb_eq in E1. subst s.
    destruct Ht as [-> | [t ->]]; [reflexivity|].
    destruct t; reflexivity. }
  apply str_eqb_neq in E1, E2.
  assert (PyStr.startswith (s ++ tail) (txt "./") = false) as ->.
  { destruct (PyStr.startswith (s ++ tail) (txt "./")) eqn:E; [|reflexivity].
    exfalso. apply startswith_iff in E. destruct E as [x E].
    destruct s as [|c [|d s]].
    - destruct Ht as [-> | [t ->]]; discriminate E.
    - injection E as -> E. apply E1. reflexivity.
    - injection E as -> -> _. inversion Hs as [|? ? _ Hs']; subst.
      inversion Hs' as [|? ? Hd _]; subst. apply Hd. reflexivity. }
  assert (PyStr.eqb (s ++ tail) (txt ".") = false) as ->.
  { apply str_eqb_neq. intros E.
    destruct s as [|c s].
    - destruct Ht as [-> | [t ->]]; discriminate E.
    - injection E as -> E. apply app_eq_nil in E. destruct E as [-> _].
      apply E1. reflexivity. }
  assert (PyStr.startswith (s ++ tail) (txt "../") = false) as ->.
  { destruct (PyStr.startswith (s ++ tail) (txt "../")) eqn:E;
      [|reflexivity].
    exfalso. apply startswith_iff in E. destruct E as [x E].
    destruct s as [|c [|d [|e s]]].
    - destruct Ht as [-> | [t ->]]; discriminate E.
    - destruct Ht as [-> | [t ->]]; discriminate E.
    - injection E as -> -> _. apply E2. reflexivity.
    - injection E as -> -> -> _. inversion Hs as [|? ? _ Hs']; subst.
      inversion Hs' as [|? ? _ Hs'']; subst.
      inversion Hs'' as [|? ? He _]; subst. apply He. reflexivity. }
  assert (PyStr.eqb (s ++ tail) (txt "..") = false) as ->.
  { apply str_eqb_neq. intros E.
    destruct s as [|c [|d s]].
    - destruct Ht as [-> | [t ->]]; discriminate E.
    - destruct Ht as [-> | [t ->]]; discriminate E.
    - injection E as -> -> E. apply app_eq_nil in E. destruct E as [-> _].
      apply E2. reflexivity. }
  rewrite (until_segment _ s tail (no_slash_until _ Hs) (tail_ok_until _ Ht)).
  cbn [fst snd orb]. rewrite <- buffer_push.
  destruct tail; [|reflexivity].
  destruct fuel; reflexivity.
Qed.

(** The loop on a rooted path does to the output buffer what [step] does
    to the stack of its segments; a final dot segment leaves a slash. *)
Lemma remove_dots_segments (segs : list str) :
  Forall no_slash segs -> segs <> [] ->
  forall stack fuel,
    Forall no_slash stack -> length segs < fuel ->
    remove_dots_from fuel (concat (map (cons "/"%char) segs)) (buffer stack)
    = buffer (fold_left step segs stack)
      ++ (if Urllib.is_dot (last segs [])
             || Urllib.is_dotdot (last segs [])
          then txt "/" else []).
Proof.
  induction 1 as [|s segs Hs Hsegs IH]; intros Hne stack fuel Hstack Hfuel;
    [contradiction|].
  destruct fuel as [|fuel]; [lia|]. cbn [length] in Hfuel.
  destruct segs as [|s2 segs].
  - cbn [map concat fold_left last]. rewrite app_nil_r.
    rewrite <- (app_nil_r s) at 1.
    rewrite (loop_segment fuel s [] stack Hs (or_introl eq_refl) Hstack).
    destruct (Urllib.is_dot s || Urllib.is_dotdot s);
      [|rewrite app_nil_r; reflexivity].
    destruct fuel as [|fuel]; [lia|].
    pose proof (loop_segment fuel [] [] (step stack s)) as Hl.
    cbn [app] in Hl. change (txt "/") with ["/"%char]. rewrite Hl.
    + change (Urllib.is_dot [] || Urllib.is_dotdot []) with false.
      cbv iota. change (step (step stack s) []) with ([] :: step stack s).
      rewrite buffer_push. reflexivity.
    + constructor.
    + left. reflexivity.
    + apply step_no_slash; assumption.
  - change (concat (map (cons "/"%char) (s :: s2 :: segs)))
      with ("/"%char :: s ++ "/"%char :: s2
                              ++ concat (map (cons "/"%char) segs)).
    rewrite (loop_segment fuel s _ stack Hs
               (or_intror (ex_intro _ _ eq_refl)) Hstack).
    cbn [app].
    change ("/"%char :: s2 ++ concat (map (cons "/"%char) segs))
      with (concat (map (cons "/"%char) (s2 :: segs))).
    rewrite IH.
    + reflexivity.
    + discriminate.
    + apply step_no_slash; assumption.
    + cbn [length] in Hfuel |- *. lia.
Qed.

Lemma slashed_length (segs : list str) :
  length segs <= length (concat (map (cons "/"%char) segs)).
Proof.
  induction segs as [|s segs IH]; [simpl; lia|].
  cbn [map concat]. rewrite length_app. cbn [length]. lia.
Qed.

Lemma slashed_join (segs : list str) :
  segs <> [] ->
  concat (map (cons "/"%char) segs) = "/"%char :: PyStr.join (txt "/") segs.
Proof.
  induction segs as [|s segs IH]; intros H; [contradiction|].
  destruct segs as [|s2 segs].
  - cbn. rewrite app_nil_r. reflexivity.
  - rewrite join_cons by discriminate.
    change (concat (map (cons "/"%char) (s :: s2 :: segs)))
      with (("/"%char :: s) ++ concat (map (cons "/"%char) (s2 :: segs))).
    rewrite IH by discriminate. reflexivity.
Qed.

End Rfc3986Facts.

Section RoundTrip.
Context {L : Library}.

Lemma merge_directory (scheme : option str) (authority : str)
      (segs : list str) (rel : str) :
  Rfc3986.merge (uri_at scheme authority (directory segs)) rel
  = directory segs ++ rel.
Proof.
  unfold Rfc3986.merge, uri_at.
  cbn [Rfc3986.u_authority Rfc3986.u_path].
  destruct (directory segs) as [|c u] eqn:Ed;
    [unfold directory in Ed; discriminate Ed|].
  rewrite <- Ed.
  destruct (directory_ends_with_slash segs) as [t E]. rewrite E.
  change (t ++ txt "/") with (t ++ "/"%char :: []).
  rewrite rindex_app_sep by (intros []).
  rewrite firstn_all2 by (rewrite length_app; simpl; lia).
  reflexivity.
Qed.

Lemma steps_not_rooted (n : nat) (body : str) :
  (forall t, body <> "/"%char :: t) ->
  PyStr.startswith (concat (repeat (txt "../") n) ++ body) (txt "/")
  = false.
Proof.
  intros H. destruct n as [|n]; [|reflexivity]. cbn [repeat concat app].
  destruct (PyStr.startswith body (txt "/")) eqn:E; [|reflexivity].
  apply startswith_iff in E. destruct E as [t ->].
  exfalso. exact (H t eq_refl).
Qed.

(** The dot segments of the merged path: the steps up undo the directory,
    the file path remains. *)
Lemma remove_dots_up_and_down (dsegs : list str) (body : str) :
  Forall plain_segment dsegs ->
  Forall not_dot_segment (PyStr.split "/" body) ->
  Rfc3986.remove_dot_segments
    (directory dsegs ++ concat (repeat (txt "../") (length dsegs)) ++ body)
  = "/"%char :: body.
Proof.
  intros Hd Hdots.
  set (segs := dsegs ++ repeat (txt "..") (length dsegs)
                     ++ PyStr.split "/" body).
  assert (directory dsegs
          ++ concat (repeat (txt "../") (length dsegs)) ++ body
          = concat (map (cons "/"%char) segs)) as Hpath.
  { rewrite Rfc3986Facts.slashed_join
      by (unfold segs; intros E; apply app_eq_nil in E; destruct E as [_ E];
          apply app_eq_nil in E; destruct E as [_ E];
          exact (split_not_nil _ _ E)).
    rewrite <- (join_split "/" (directory dsegs ++ _)).
    rewrite (split_directory _ _ Hd).
    replace (repeat (txt "../") (length dsegs))
      with (map (fun s => s ++ txt "/") (repeat (txt "..") (length dsegs)))
      by apply map_repeat.
    rewrite split_concat_segments
      by (clear; induction (length dsegs); simpl; constructor; auto;
          repeat constructor; discriminate).
    rewrite join_cons
      by (intros E; apply app_eq_nil in E; destruct E as [_ E];
          apply app_eq_nil in E; destruct E as [_ E];
          exact (split_not_nil _ _ E)).
    reflexivity. }
  unfold Rfc3986.remove_dot_segments. rewrite Hpath.
  assert (Forall no_slash segs) as Hns.
  { unfold segs. apply Forall_app. split.
    - eapply Forall_impl; [|exact Hd]. intros s [_ Hs]. exact Hs.
    - apply Forall_app. split.
      + clear. induction (length dsegs); simpl; constructor; auto.
        repeat constructor; discriminate.
      + clear. induction body as [|c body IH]; [repeat constructor|].
        destruct (ascii_dec c "/") as [-> | Hne].
        * change (PyStr.split "/" ("/"%char :: body))
            with ([] :: PyStr.split "/" body).
          constructor; [constructor | exact IH].
        * rewrite (split_cons_other _ _ _ Hne).
          pose proof (split_not_nil "/" body) as Hn.
          destruct (PyStr.split "/" body) as [|h t]; [contradiction|].
          inversion IH; subst. cbn [hd tl].
          constructor; [constructor; assumption | assumption]. }
  assert (segs <> []) as Hsegs.
  { unfold segs. intros E. apply app_eq_nil in E. destruct E as [_ E].
    apply app_eq_nil in E. destruct E as [_ E].
    exact (split_not_nil _ _ E). }
  pose proof (Rfc3986Facts.remove_dots_segments segs Hns Hsegs []
                (S (length (concat (map (cons "/"%char) segs))))
                (Forall_nil _)
                (proj2 (Nat.lt_succ_r _ _)
                       (Rfc3986Facts.slashed_length segs))) as Hloop.
  change (Rfc3986.buffer []) with (@nil ascii) in Hloop.
  rewrite Hloop. clear Hloop.
  unfold segs at 1. rewrite !fold_left_app.
  rewrite Rfc3986Facts.fold_step_up
    by (pose proof (Rfc3986Facts.fold_step_length dsegs []);
        simpl in *; lia).
  rewrite Rfc3986Facts.fold_step_plain by exact Hdots.
  unfold segs. rewrite app_assoc.
  rewrite Rfc3986Facts.last_app_nonempty by apply split_not_nil.
  rewrite Rfc3986Facts.last_plain by (apply split_not_nil || exact Hdots).
  rewrite !app_nil_r. unfold Rfc3986.buffer. rewrite rev_involutive.
  rewrite Rfc3986Facts.slashed_join by apply split_not_nil.
  change (txt "/") with ["/"%char]. rewrite join_split. reflexivity.
Qed.

Lemma resolve_steps (scheme : option str) (authority : str)
      (dsegs : list str) (body : str) :
  Forall plain_segment dsegs ->
  (forall t, body <> "/"%char :: t) ->
  Forall not_dot_segment (PyStr.split "/" body) ->
  path_only body ->
  (dsegs = [] -> no_colon (leading_segment body)) ->
  concat (repeat (txt "../") (length dsegs)) ++ body <> [] ->
  Rfc3986.resolve (uri_at scheme authority (directory dsegs))
    (concat (repeat (txt "../") (length dsegs)) ++ body)
  = uri_at scheme authority ("/"%char :: body).
Proof.
  intros Hd Hb Hdots Hpath Hcolon Hne. unfold Rfc3986.resolve.
  rewrite Rfc3986Facts.parse_path_only.
  - cbn [Rfc3986.u_scheme Rfc3986.u_authority Rfc3986.u_path
         Rfc3986.u_query Rfc3986.u_fragment].
    destruct (concat (repeat (txt "../") (length dsegs)) ++ body) eqn:E;
      [contradiction|].
    cbn [PyStr.is_empty]. rewrite <- E. clear E Hne.
    rewrite steps_not_rooted by exact Hb.
    rewrite merge_directory, remove_dots_up_and_down by assumption.
    reflexivity.
  - unfold path_only. apply Forall_app. split; [|exact Hpath].
    clear. induction (length dsegs); simpl; [constructor|].
    repeat (constructor; [split; discriminate|]). assumption.
  - destruct dsegs as [|d dsegs].
    + cbn [length repeat concat app]. apply Hcolon. reflexivity.
    + cbn. repeat constructor; discriminate.
  - destruct dsegs as [|d dsegs]; [|reflexivity].
    cbn [length repeat concat app].
    destruct (PyStr.startswith body (txt "//")) eqn:E; [|reflexivity].
    apply startswith_iff in E. destruct E as [t ->].
    exfalso. exact (Hb _ eq_refl).
Qed.

(** C3, as the program has it.  For two URLs of one [netloc], the post
    path in a directory [/s1/.../sn/] of non-empty segments, the file
    path rooted with one slash, free of [.] and [..] segments and, when
    the directory is the root, of a colon before its second slash:
    resolving the result of [compute_relative_path] against the URL of
    that directory (RFC 3986, section 5.2) gives the URL of the file
    path, with the scheme and the authority of the base. *)
Theorem relative_path_resolves_to_file_path
        (file_url post_url : str) (f p : ParseResult)
        (dsegs : list str) (body : str) (scheme : option str) :
  urlparse file_url = Return f ->
  urlparse post_url = Return p ->
  netloc f = netloc p ->
  in_directory (path p) dsegs ->
  Forall plain_segment dsegs ->
  path f = txt "/" ++ body ->
  (forall t, body <> "/"%char :: t) ->
  Forall not_dot_segment (PyStr.split "/" body) ->
  path_only body ->
  (dsegs = [] -> no_colon (leading_segment body)) ->
  exists rel,
    compute_relative_path file_url post_url = Return rel
    /\ Rfc3986.resolve (uri_at scheme (netloc p) (directory dsegs)) rel
       = uri_at scheme (netloc p) (path f).
Proof.
  intros Hf Hp Hnl Hdir Hd Hfp Hb Hdots Hpath Hcolon.
  set (joined := concat (repeat (txt "../") (length dsegs)) ++ body).
  assert (compute_relative_path file_url post_url
          = Return (if PyStr.is_empty joined then txt "/" ++ body
                    else joined)) as Hrel.
  { unfold compute_relative_path.
    rewrite Hf, Hp. cbn [bind]. rewrite Hnl, str_eqb_refl.
    cbn [negb]. cbv zeta. rewrite (post_dir_in_directory _ _ Hdir).
    replace (PyStr.split "/" (directory dsegs)) with ([] :: dsegs ++ [[]])
      by (pose proof (split_directory dsegs [] Hd) as Hs;
          rewrite app_nil_r in Hs; symmetry; exact Hs).
    cbn [filter nonempty PyStr.is_empty negb].
    rewrite filter_app, (filter_nonempty_plain _ Hd). cbn [filter].
    rewrite app_nil_r, join_steps, Hfp.
    change (PyStr.lstrip "/" (txt "/" ++ body))
      with (PyStr.lstrip "/" body).
    rewrite (lstrip_unrooted _ Hb). reflexivity. }
  eexists. split; [exact Hrel|]. rewrite Hfp.
  destruct joined as [|a l] eqn:E; cbn [PyStr.is_empty].
  - apply app_eq_nil in E. destruct E as [E ->].
    destruct dsegs; [reflexivity | discriminate E].
  - rewrite <- E. apply resolve_steps; try assumption.
    fold joined. rewrite E. discriminate.
Qed.

End RoundTrip.

Lemma round_trip_witness :
  exists rel,
    @compute_relative_path reference
       (txt "https://example.com/wp-content/uploads/track.gpx")
       (txt "https://example.com/2020/05/post") = Return rel
    /\ Rfc3986.resolve
         (uri_at (Some (txt "https")) (txt "example.com") (txt "/2020/05/"))
         rel
       = uri_at (Some (txt "https")) (txt "example.com")
                (txt "/wp-content/uploads/track.gpx").
Proof.
  apply (@relative_path_resolves_to_file_path reference
           (txt "https://example.com/wp-content/uploads/track.gpx")
           (txt "https://example.com/2020/05/post")
           {| netloc := txt "example.com";
              path := txt "/wp-content/uploads/track.gpx" |}
           {| netloc := txt "example.com"; path := txt "/2020/05/post" |}
           [txt "2020"; txt "05"] (txt "wp-content/uploads/track.gpx")
           (Some (txt "https"))).
  - vm_compute. reflexivity.
  - vm_compute. reflexivity.
  - reflexivity.
  - right. exists (txt "post"). split; [|reflexivity].
    repeat constructor; discriminate.
  - repeat constructor; discriminate.
  - reflexivity.
  - discriminate.
  - vm_compute. repeat constructor; discriminate.
  - repeat constructor; discriminate.
  - discriminate.
Defined.

(** The file path [//files/t.gpx] has two leading slashes; the relative
    path [../files/t.gpx] loses one and resolves to [/files/t.gpx]. *)
Lemma double_slash_does_not_round_trip :
  Urllib.urlparse (txt "https://example.com//files/t.gpx")
  = Return {| netloc := txt "example.com"; path := txt "//files/t.gpx" |}
  /\ Urllib.urlparse (txt "https://example.com/post/")
     = Return {| netloc := txt "example.com"; path := txt "/post/" |}
  /\ @compute_relative_path reference
       (txt "https://example.com//files/t.gpx")
       (txt "https://example.com/post/") = Return (txt "../files/t.gpx")
  /\ Rfc3986.resolve
       (uri_at (Some (txt "https")) (txt "example.com") (txt "/post/"))
       (txt "../files/t.gpx")
     = uri_at (Some (txt "https")) (txt "example.com") (txt "/files/t.gpx")
  /\ Rfc3986.u_path
       (Rfc3986.resolve
          (uri_at (Some (txt "https")) (txt "example.com") (txt "/post/"))
          (txt "../files/t.gpx"))
     <> txt "//files/t.gpx".
Proof. vm_compute. repeat split. discriminate. Qed.

(** Under the root a first segment with a colon is read as a scheme: for
    the file path [/a:b/t.gpx] and a post at the root the relative path
    is [a:b/t.gpx], a URI of the scheme [a]. *)
Lemma colon_in_the_first_segment_is_a_scheme :
  @compute_relative_path reference
     (txt "https://example.com/a:b/t.gpx") (txt "https://example.com/")
  = Return (txt "a:b/t.gpx")
  /\ Rfc3986.resolve
       (uri_at (Some (txt "https")) (txt "example.com") (txt "/"))
       (txt "a:b/t.gpx")
     = {| Rfc3986.u_scheme := Some (txt "a"); Rfc3986.u_authority := None;
          Rfc3986.u_path := txt "b/t.gpx"; Rfc3986.u_query := None;
          Rfc3986.u_fragment := None |}.
Proof. vm_compute. split; reflexivity. Qed.

(** ** The matcher is sound and complete *)

Module ReFacts.
Import Matches.

Lemma after_app (prev : option ascii) (w1 w2 : str) :
  after prev (w1 ++ w2) = after (after prev w1) w2.
Proof. unfold after. apply fold_left_app. Qed.

Section Runs.
Variable R : Type.
Variable ic : bool.

Lemma star_sound (p : ascii -> bool) (s : str) :
  forall (prev : option ascii) (k : Re.cont R) (x : R),
    Re.star p prev s k = Some x ->
    exists w rest, s = w ++ rest
                   /\ Forall (fun c => p c = true) w
                   /\ k (after prev w) rest = Some x.
Proof.
  induction s as [|c s IH]; intros prev k x H; simpl in H.
  - exists [], []. auto.
  - destruct (p c) eqn:Hp.
    + destruct (Re.star p (Some c) s k) as [r|] eqn:Hs.
      * injection H as ->. destruct (IH _ _ _ Hs) as (w & rest & -> & Hw & Hk).
        exists (c :: w), rest. auto.
      * exists [], (c :: s). auto.
    + exists [], (c :: s). auto.
Qed.

Lemma star_fallback (p : ascii -> bool) (s : str) (prev : option ascii)
      (k : Re.cont R) (x : R) :
  k prev s = Some x -> exists y, Re.star p prev s k = Some y.
Proof.
  intros H. destruct s as [|c s]; simpl; [eauto|].
  destruct (p c); [|eauto].
  destruct (Re.star p (Some c) s k); eauto.
Qed.

Lemma star_complete (p : ascii -> bool) (w : str) :
  forall (prev : option ascii) (rest : str) (k : Re.cont R) (x : R),
    Forall (fun c => p c = true) w ->
    k (after prev w) rest = Some x ->
    exists y, Re.star p prev (w ++ rest) k = Some y.
Proof.
  induction w as [|c w IH]; intros prev rest k x Hw Hk.
  - simpl. eapply star_fallback. exact Hk.
  - inversion Hw as [|? ? Hc Hw']; subst. simpl. rewrite Hc.
    destruct (IH (Some c) rest k x Hw' Hk) as [y Hy]. rewrite Hy. eauto.
Qed.

(** Soundness: a successful run has read a text the pattern matches. *)
Lemma run_sound (r : Re.regex) :
  forall (prev : option ascii) (s : str) (k : Re.cont R) (x : R),
    Re.run ic r prev s k = Some x ->
    exists w rest, s = w ++ rest /\ mt ic r prev w rest
                   /\ k (after prev w) rest = Some x.
Proof.
  induction r as [|c|cs|r1 IH1 r2 IH2|r1 IH1 r2 IH2|r1 IH1| | |];
    intros prev s k x H; simpl in H.
  - exists [], s. simpl. auto.
  - destruct s as [|ch s]; [discriminate|].
    destruct (Re.lit_matches ic c ch) eqn:E; [|discriminate].
    exists [ch], s. simpl. eauto.
  - destruct (star_sound _ _ _ _ _ H) as (w & rest & -> & Hw & Hk).
    exists w, rest. simpl. auto.
  - destruct (IH1 _ _ _ _ H) as (w1 & rest1 & -> & H1 & Hk).
    destruct (IH2 _ _ _ _ Hk) as (w2 & rest & -> & H2 & Hk2).
    exists (w1 ++ w2), rest. rewrite <- app_assoc, after_app. simpl.
    split; [reflexivity|]. split; [|exact Hk2]. exists w1, w2. auto.
  - destruct (Re.run ic r1 prev s k) as [y|] eqn:E.
    + injection H as ->. destruct (IH1 _ _ _ _ E) as (w & rest & -> & Hm & Hk).
      exists w, rest. simpl. auto.
    + destruct (IH2 _ _ _ _ H) as (w & rest & -> & Hm & Hk).
      exists w, rest. simpl. auto.
  - destruct (Re.run ic r1 prev s k) as [y|] eqn:E.
    + injection H as ->. destruct (IH1 _ _ _ _ E) as (w & rest & -> & Hm & Hk).
      exists w, rest. simpl. auto.
    + exists [], s. simpl. auto.
  - destruct (xorb (Re.word_before prev) (Re.word_after s)) eqn:E;
      [|discriminate].
    exists [], s. simpl. auto.
  - destruct prev; [discriminate|]. exists [], s. simpl. auto.
  - destruct s as [|c [|c' s]]; try discriminate.
    + exists [], []. simpl. auto.
    + destruct (PyStr.char_eqb c (chr 10)) eqn:E; [|discriminate].
      apply char_eqb_eq in E. subst c. exists [], [chr 10]. simpl. auto.
Qed.

(** Completeness: when the pattern matches a prefix after which the
    continuation succeeds, the run succeeds. *)
Lemma run_complete (r : Re.regex) :
  forall (prev : option ascii) (w rest : str) (k : Re.cont R) (x : R),
    mt ic r prev w rest ->
    k (after prev w) rest = Some x ->
    exists y, Re.run ic r prev (w ++ rest) k = Some y.
Proof.
  induction r as [|c|cs|r1 IH1 r2 IH2|r1 IH1 r2 IH2|r1 IH1| | |];
    intros prev w rest k x Hm Hk; simpl in Hm.
  - subst w. simpl. eauto.
  - destruct Hm as (ch & -> & E). simpl. rewrite E. eauto.
  - simpl. eapply star_complete; eassumption.
  - destruct Hm as (w1 & w2 & -> & H1 & H2). rewrite after_app in Hk.
    destruct (IH2 _ _ _ _ _ H2 Hk) as [y Hy].
    rewrite <- app_assoc. simpl.
    exact (IH1 _ _ _ _ _ H1 Hy).
  - simpl. destruct Hm as [Hm | Hm].
    + destruct (IH1 _ _ _ _ _ Hm Hk) as [y Hy]. rewrite Hy. eauto.
    + destruct (Re.run ic r1 prev (w ++ rest) k); [eauto|].
      exact (IH2 _ _ _ _ _ Hm Hk).
  - simpl. destruct Hm as [Hm | ->].
    + destruct (IH1 _ _ _ _ _ Hm Hk) as [y Hy]. rewrite Hy. eauto.
    + destruct (Re.run ic r1 prev ([] ++ rest) k); eauto.
  - destruct Hm as [-> E]. simpl. rewrite E. eauto.
  - destruct Hm as [-> ->]. simpl. eauto.
  - destruct Hm as [-> [-> | ->]]; simpl; eauto.
Qed.

End Runs.

Lemma match_here_sound (ic : bool) (r : Re.regex) (prev : option ascii)
      (s g : str) :
  Re.match_here ic r prev s = Some g ->
  exists rest, s = g ++ rest /\ mt ic r prev g rest.
Proof.
  unfold Re.match_here. intros H.
  destruct (Re.run ic r prev s (fun _ rest => Some rest)) as [rest|] eqn:E;
    [|discriminate].
  injection H as <-.
  destruct (run_sound _ _ _ _ _ _ _ E) as (w & rest' & -> & Hm & Hk).
  injection Hk as ->. exists rest.
  rewrite length_app, Nat.add_sub, firstn_length_app. auto.
Qed.

Lemma match_here_complete (ic : bool) (r : Re.regex) (prev : option ascii)
      (w rest : str) :
  mt ic r prev w rest ->
  exists g, Re.match_here ic r prev (w ++ rest) = Some g.
Proof.
  intros Hm. unfold Re.match_here.
  destruct (run_complete _ _ _ _ _ _ (fun _ rest => Some rest) _ Hm eq_refl)
    as [y Hy].
  rewrite Hy. eauto.
Qed.

(** [search] finds a text the pattern matches, at the offset it reports. *)
Lemma search_from_sound (ic : bool) (r : Re.regex) (s : str) :
  forall (prev : option ascii) (pos i : nat) (g : str),
    Re.search_from ic r prev s pos = Some (i, g) ->
    exists pre rest, s = pre ++ g ++ rest /\ i = pos + length pre
                     /\ mt ic r (after prev pre) g rest.
Proof.
  induction s as [|c s IH]; intros prev pos i g H; simpl in H.
  - destruct (Re.match_here ic r prev []) as [g'|] eqn:E; [|discriminate].
    injection H as <- <-.
    destruct (match_here_sound _ _ _ _ _ E) as (rest & Hs & Hm).
    exists [], rest. simpl. rewrite Nat.add_0_r. auto.
  - destruct (Re.match_here ic r prev (c :: s)) as [g'|] eqn:E.
    + injection H as <- <-.
      destruct (match_here_sound _ _ _ _ _ E) as (rest & Hs & Hm).
      exists [], rest. simpl. rewrite Nat.add_0_r. auto.
    + destruct (IH _ _ _ _ H) as (pre & rest & -> & -> & Hm).
      exists (c :: pre), rest. simpl. split; [reflexivity|].
      split; [lia | exact Hm].
Qed.

(** ... and it is the leftmost: wherever the pattern matches in the
    text, [search] succeeds at that offset or before it. *)
Lemma search_from_complete (ic : bool) (r : Re.regex) (pre : str) :
  forall (prev : option ascii) (pos : nat) (w rest : str),
    mt ic r (after prev pre) w rest ->
    exists i g, Re.search_from ic r prev (pre ++ w ++ rest) pos = Some (i, g)
                /\ i <= pos + length pre.
Proof.
  induction pre as [|c pre IH]; intros prev pos w rest Hm.
  - destruct (match_here_complete _ _ _ _ _ Hm) as [g Hg].
    exists pos, g. split; [|simpl; lia].
    change (after prev []) with prev in Hg. simpl app.
    destruct (w ++ rest); simpl; rewrite Hg; reflexivity.
  - simpl app. simpl Re.search_from.
    destruct (Re.match_here ic r prev (c :: pre ++ w ++ rest)) as [g|].
    + exists pos, g. split; [reflexivity | lia].
    + destruct (IH (Some c) (S pos) w rest Hm) as (i & g & Hs & Hle).
      exists i, g. split; [exact Hs | simpl; lia].
Qed.

End ReFacts.

(** ** What the two patterns match *)

Module PatternFacts.
Import Matches.

Lemma lit_matches_ci (c ch : ascii) :
  Re.lit_matches true c ch = true
  <-> PyStr.lower_char ch = PyStr.lower_char c.
Proof. unfold Re.lit_matches. apply char_eqb_eq. Qed.

Lemma lit_gt (ch : ascii) :
  Re.lit_matches true ">" ch = true <-> ch = ">"%char.
Proof.
  rewrite lit_matches_ci.
  each_char ch; vm_compute; split; intros H; (reflexivity || discriminate H).
Qed.

Lemma lit_eq (ch : ascii) :
  Re.lit_matches true "=" ch = true <-> ch = "="%char.
Proof.
  rewrite lit_matches_ci.
  each_char ch; vm_compute; split; intros H; (reflexivity || discriminate H).
Qed.

Lemma lit_double_quote (ch : ascii) :
  Re.lit_matches true (chr 34) ch = true <-> ch = chr 34.
Proof.
  rewrite lit_matches_ci.
  each_char ch; vm_compute; split; intros H; (reflexivity || discriminate H).
Qed.

Lemma lit_single_quote (ch : ascii) :
  Re.lit_matches true "'" ch = true <-> ch = "'"%char.
Proof.
  rewrite lit_matches_ci.
  each_char ch; vm_compute; split; intros H; (reflexivity || discriminate H).
Qed.

(** A sequence of literals matches the texts equal to it up to case. *)
Lemma mt_lits (s : str) :
  forall (prev : option ascii) (w rest : str),
    mt true (Re.lits s) prev w rest <-> ci_eq w s.
Proof.
  unfold ci_eq, PyStr.lower.
  induction s as [|c s IH]; intros prev w rest.
  - simpl. split; [intros ->; reflexivity|].
    intros H. destruct w; [reflexivity | discriminate].
  - change (Re.lits (c :: s)) with (Re.Cat (Re.Lit c) (Re.lits s)).
    cbn [mt]. split.
    + intros (w1 & w2 & -> & (ch & -> & Hc) & H2).
      apply lit_matches_ci in Hc. apply IH in H2. simpl.
      rewrite Hc, H2. reflexivity.
    + intros H. destruct w as [|ch w]; [discriminate|].
      simpl in H. injection H as Hc H.
      exists [ch], w. split; [reflexivity|]. split.
      * exists ch. split; [reflexivity|]. apply lit_matches_ci. exact Hc.
      * apply IH. exact H.
Qed.

Lemma star_not_gt (w : str) :
  Forall (fun c => Re.in_charset Re.NotGt c = true) w <-> no_gt w.
Proof.
  unfold no_gt. rewrite !Forall_forall. split; intros H c Hc.
  - specialize (H c Hc). simpl in H. apply negb_true_iff in H.
    apply char_eqb_neq. exact H.
  - simpl. apply negb_true_iff. apply char_eqb_neq. exact (H c Hc).
Qed.

(** The group [P] of [line_pattern]. *)
Lemma mt_p_open (prev : option ascii) (w rest : str) :
  mt true (Re.seq [Re.lits (txt "<p"); Re.Star Re.NotGt; Re.Lit ">";
                   Re.Star Re.Space]) prev w rest
  <-> p_open w.
Proof.
  unfold Re.seq, p_open. cbn [fold_right mt]. split.
  - intros (tag & x1 & -> & Htag & attrs & x2 & -> & Hattrs
            & gt & x3 & -> & (ch & -> & Hgt) & ws & x4 & -> & Hws & ->).
    apply mt_lits in Htag. apply star_not_gt in Hattrs.
    apply lit_gt in Hgt. subst ch.
    exists tag, attrs, ws. rewrite app_nil_r. auto.
  - intros (tag & attrs & ws & -> & Htag & Hattrs & Hws).
    exists tag, (attrs ++ txt ">" ++ ws). split; [reflexivity|].
    split; [apply mt_lits; exact Htag|].
    exists attrs, (txt ">" ++ ws). split; [reflexivity|].
    split; [apply star_not_gt; exact Hattrs|].
    exists (txt ">"), ws. split; [reflexivity|]. split.
    + exists ">"%char. split; [reflexivity | apply lit_gt; reflexivity].
    + exists ws, []. rewrite app_nil_r. auto.
Qed.

(** The group [C] of [line_pattern]. *)
Lemma mt_p_close (prev : option ascii) (w rest : str) :
  mt true (Re.seq [Re.Star Re.Space; Re.lits (txt "</p>")]) prev w rest
  <-> p_close w.
Proof.
  unfold Re.seq, p_close. cbn [fold_right mt]. split.
  - intros (ws & x1 & -> & Hws & tag & x2 & -> & Htag & ->).
    apply mt_lits in Htag. exists ws, tag. rewrite app_nil_r. auto.
  - intros (ws & tag & -> & Hws & Htag).
    exists ws, tag. split; [reflexivity|]. split; [exact Hws|].
    exists tag, []. rewrite app_nil_r. split; [reflexivity|].
    split; [apply mt_lits; exact Htag | reflexivity].
Qed.

(** [line_pattern] matches a text that holds the anchor alone, up to the
    end of the subject or to a last newline. *)
Lemma mt_line_pattern (m w rest : str) :
  mt true (line_pattern m) None w rest
  <-> isolated w m /\ (rest = [] \/ rest = [newline]).
Proof.
  unfold line_pattern, isolated. unfold Re.seq at 1.
  cbn [fold_right mt]. split.
  - intros (w0 & x0 & -> & [-> _] & ws1 & x1 & -> & Hws1
            & p & x2 & -> & Hp & m' & x3 & -> & Hm
            & c & x4 & -> & Hc & ws2 & x5 & -> & Hws2
            & w6 & x6 & -> & [-> Hend] & ->).
    split; [|exact Hend].
    exists ws1, p, m', c, ws2. simpl. rewrite !app_nil_r.
    split; [reflexivity|]. split; [exact Hws1|].
    split; [destruct Hp as [Hp | ->];
            [right; apply mt_p_open in Hp; exact Hp | left; reflexivity]|].
    split; [apply mt_lits in Hm; exact Hm|].
    split; [destruct Hc as [Hc | ->];
            [right; apply mt_p_close in Hc; exact Hc | left; reflexivity]|].
    exact Hws2.
  - intros [(ws1 & p & m' & c & ws2 & -> & Hws1 & Hp & Hm & Hc & Hws2) Hend].
    exists [], (ws1 ++ p ++ m' ++ c ++ ws2). split; [reflexivity|].
    split; [split; reflexivity|].
    exists ws1, (p ++ m' ++ c ++ ws2). split; [reflexivity|].
    split; [exact Hws1|].
    exists p, (m' ++ c ++ ws2). split; [reflexivity|].
    split; [destruct Hp as [-> | Hp];
            [right; reflexivity | left; apply mt_p_open; exact Hp]|].
    exists m', (c ++ ws2). split; [reflexivity|].
    split; [apply mt_lits; exact Hm|].
    exists c, ws2. split; [reflexivity|].
    split; [destruct Hc as [-> | Hc];
            [right; reflexivity | left; apply mt_p_close; exact Hc]|].
    exists ws2, []. split; [rewrite app_nil_r; reflexivity|].
    split; [exact Hws2|].
    exists [], []. split; [reflexivity|]. split; [|reflexivity].
    split; [reflexivity | exact Hend].
Qed.

End PatternFacts.

(** ** The line of an offset *)

Lemma index_none (c : ascii) (s : str) :
  PyStr.index c s = None <-> ~ In c s.
Proof.
  induction s as [|a s IH]; simpl; [tauto|].
  destruct (PyStr.char_eqb a c) eqn:E.
  - apply char_eqb_eq in E. split; [discriminate | tauto].
  - apply char_eqb_neq in E. destruct (PyStr.index c s); simpl.
    + split; [discriminate|]. intros H. exfalso. apply H. right.
      destruct (in_dec ascii_dec c s) as [Hin|Hn]; [exact Hin|].
      apply IH in Hn. discriminate.
    + split; [|reflexivity]. intros _ [H|H]; [contradiction|].
      apply IH in H; [exact H | reflexivity].
Qed.

Lemma index_some (c : ascii) (s : str) (i : nat) :
  PyStr.index c s = Some i ->
  exists x y, s = x ++ c :: y /\ length x = i /\ ~ In c x.
Proof.
  revert i. induction s as [|a s IH]; intros i H; simpl in H; [discriminate|].
  destruct (PyStr.char_eqb a c) eqn:E.
  - apply char_eqb_eq in E. subst a. injection H as <-.
    exists [], s. auto.
  - apply char_eqb_neq in E.
    destruct (PyStr.index c s) as [j|]; [|discriminate].
    simpl in H. injection H as <-.
    destruct (IH j eq_refl) as (x & y & -> & <- & Hx).
    exists (a :: x), y. split; [reflexivity|]. split; [reflexivity|].
    intros [H|H]; [contradiction | exact (Hx H)].
Qed.

Lemma rindex_some (c : ascii) (s : str) (i : nat) :
  PyStr.rindex c s = Some i ->
  exists x y, s = x ++ c :: y /\ length x = i /\ ~ In c y.
Proof.
  intros H.
  destruct (in_dec ascii_dec c s) as [Hin|Hn].
  - destruct (in_last_split c s Hin) as (x & y & -> & Hy).
    rewrite rindex_app_sep in H by exact Hy. injection H as <-.
    exists x, y. auto.
  - apply rindex_none in Hn. congruence.
Qed.

Lemma skipn_length_app (x y : str) : skipn (length x) (x ++ y) = y.
Proof.
  rewrite skipn_app, Nat.sub_diag, skipn_all. reflexivity.
Qed.

(** The line of [idx]: what follows the last newline before [idx] and
    what precedes the first newline from [idx] on. *)
Lemma line_of_spec (html : str) (idx : nat) :
  exists pre a b post,
    firstn idx html = pre ++ a /\ skipn idx html = b ++ post
    /\ line_of html idx = a ++ b
    /\ ~ In newline a /\ ~ In newline b
    /\ (pre = [] \/ exists p, pre = p ++ [newline])
    /\ (post = [] \/ exists q, post = newline :: q).
Proof.
  unfold line_of, PyStr.rfind, PyStr.find, PyStr.slice.
  fold newline.
  pose proof (firstn_skipn idx html) as Hsplit.
  pose proof (firstn_le_length idx html) as Hlen.
  destruct (PyStr.rindex newline (firstn idx html)) as [i|] eqn:Ei;
    destruct (PyStr.index newline (skipn idx html)) as [j|] eqn:Ej.
  - apply rindex_some in Ei. destruct Ei as (x & a & Ef & <- & Ha).
    apply index_some in Ej. destruct Ej as (b & y & Es & <- & Hb).
    exists (x ++ [newline]), a, b, (newline :: y).
    rewrite <- app_assoc. simpl. repeat split; eauto.
    assert (length (firstn idx html) = idx) as Hidx.
    { apply firstn_length_le.
      assert (length (skipn idx html) > 0)
        by (rewrite Es, length_app; simpl; lia).
      rewrite length_skipn in H. lia. }
    rewrite Ef, length_app in Hidx. simpl in Hidx.
    replace (Z.of_nat (idx + length b) =? -1)%Z with false
      by (symmetry; apply Z.eqb_neq; lia).
    rewrite <- Hsplit, Ef, Es.
    replace (Z.to_nat (Z.of_nat (length x) + 1)) with (length (x ++ [newline]))
      by (rewrite length_app; simpl; lia).
    replace (x ++ newline :: a) with ((x ++ [newline]) ++ a)
      by (rewrite <- app_assoc; reflexivity).
    rewrite <- app_assoc, skipn_length_app.
    replace (Z.to_nat (Z.of_nat (idx + length b)
                       - (Z.of_nat (length x) + 1)))
      with (length (a ++ b)) by (rewrite length_app; lia).
    rewrite app_assoc, firstn_length_app. reflexivity.
  - apply rindex_some in Ei. destruct Ei as (x & a & Ef & <- & Ha).
    apply index_none in Ej.
    exists (x ++ [newline]), a, (skipn idx html), [].
    rewrite <- app_assoc, app_nil_r. simpl. repeat split; eauto.
    simpl. rewrite <- Hsplit at 2. rewrite <- Hsplit at 1.
    rewrite Ef.
    replace (Z.to_nat (Z.of_nat (length x) + 1)) with (length (x ++ [newline]))
      by (rewrite length_app; simpl; lia).
    replace (x ++ newline :: a) with ((x ++ [newline]) ++ a)
      by (rewrite <- app_assoc; reflexivity).
    rewrite <- app_assoc, skipn_length_app.
    apply firstn_all2. rewrite !length_app. simpl. lia.
  - apply rindex_none in Ei.
    apply index_some in Ej. destruct Ej as (b & y & Es & <- & Hb).
    exists [], (firstn idx html), b, (newline :: y).
    simpl. repeat split; eauto.
    assert (length (firstn idx html) = idx) as Hidx.
    { apply firstn_length_le.
      assert (length (skipn idx html) > 0)
        by (rewrite Es, length_app; simpl; lia).
      rewrite length_skipn in H. lia. }
    replace (Z.of_nat (idx + length b) =? -1)%Z with false
      by (symmetry; apply Z.eqb_neq; lia).
    rewrite <- Hsplit at 1. rewrite Es.
    change (Z.to_nat (-1 + 1)) with 0. cbn [skipn].
    replace (Z.to_nat (Z.of_nat (idx + length b) - 0))
      with (length (firstn idx html ++ b)) by (rewrite length_app; lia).
    rewrite app_assoc, firstn_length_app. reflexivity.
  - apply rindex_none in Ei. apply index_none in Ej.
    exists [], (firstn idx html), (skipn idx html), [].
    rewrite app_nil_r. simpl. repeat split; eauto.
    rewrite Hsplit. apply firstn_all2. lia.
Qed.

Lemma line_of_no_newline (html : str) (idx : nat) :
  ~ In newline (line_of html idx).
Proof.
  destruct (line_of_spec html idx) as (pre & a & b & post & _ & _ & -> & Ha
                                       & Hb & _).
  intros H. apply in_app_or in H. tauto.
Qed.

(** X26.  The line of lines 57-61 is a piece of the text without a
    newline, bounded on each side by a newline or by an end of the text,
    and the offset lies in it. *)
Theorem line_of_is_the_line (html : str) (idx : nat) :
  exists pre post,
    html = pre ++ line_of html idx ++ post
    /\ ~ In newline (line_of html idx)
    /\ (pre = [] \/ exists p, pre = p ++ [newline])
    /\ (post = [] \/ exists q, post = newline :: q)
    /\ length pre <= idx
    /\ Nat.min idx (length html)
       <= length pre + length (line_of html idx).
Proof.
  destruct (line_of_spec html idx)
    as (pre & a & b & post & Hf & Hs & Hline & Ha & Hb & Hpre & Hpost).
  exists pre, post. rewrite Hline.
  pose proof (firstn_skipn idx html) as Hsplit.
  pose proof (length_firstn idx html) as Hlen.
  rewrite Hf, length_app in Hlen.
  split; [rewrite <- Hsplit, Hf, Hs, <- !app_assoc; reflexivity|].
  split; [intros H; apply in_app_or in H; tauto|].
  split; [exact Hpre|]. split; [exact Hpost|].
  rewrite length_app. lia.
Qed.

(** ** find_gpx_links *)

Section LocatorFacts.
Context {L : Library}.

Lemma getitem_href_return (a : node) (href : str) :
  getitem_href a = Return href <-> Bs4.tag_get a (txt "href") = Some href.
Proof.
  unfold getitem_href. destruct (Bs4.tag_get a (txt "href")).
  - split; intros H; injection H as ->; reflexivity.
  - split; discriminate.
Qed.

(** One round of the loop, when the whole loop returns. *)
Lemma scan_cons (html base : str) (p : Bs4.path) (a : node)
      (rest : list (Bs4.path * node)) (results : list (node * str * str)) :
  scan html base ((p, a) :: rest) = Return results ->
  exists tail,
    scan html base rest = Return tail
    /\ ((exists url title, results = (a, url, title) :: tail
                           /\ detected html base a url title)
        \/ (results = tail
            /\ forall url title, ~ detected html base a url title)).
Proof.
  cbn [scan]. unfold bind at 1.
  destruct (getitem_href a) as [href|e] eqn:Eh; [|discriminate].
  apply getitem_href_return in Eh.
  unfold bind at 1.
  destruct (urljoin base href) as [url|e] eqn:Ej; [|discriminate].
  unfold bind at 1.
  destruct (urlparse url) as [parsed|e] eqn:Ep; [|discriminate].
  destruct (is_gpx_path (path parsed)) eqn:Eg; cbn [negb].
  - destruct (locate html href (Bs4.get_text_strip a)) as [[idx m]|] eqn:El.
    + destruct (alone_on_line html idx m) eqn:Ea; cbn [negb].
      * unfold bind.
        destruct (scan html base rest) as [tail|e]; [|discriminate].
        intros H. injection H as <-. exists tail. split; [reflexivity|].
        left. exists url, (Bs4.get_text_strip a). split; [reflexivity|].
        exists href, parsed, idx, m. auto 10.
      * intros H. exists results. split; [exact H|]. right.
        split; [reflexivity|].
        intros url' title' (href' & parsed' & idx' & m' & H1 & H2 & H3 & H4
                            & H5 & H6 & H7).
        rewrite Eh in H1. injection H1 as <-. subst title'.
        rewrite El in H6. injection H6 as <- <-. congruence.
    + intros H. exists results. split; [exact H|]. right.
      split; [reflexivity|].
      intros url' title' (href' & parsed' & idx' & m' & H1 & H2 & H3 & H4
                          & H5 & H6 & H7).
      rewrite Eh in H1. injection H1 as <-. subst title'. congruence.
  - intros H. exists results. split; [exact H|]. right.
    split; [reflexivity|].
    intros url' title' (href' & parsed' & idx' & m' & H1 & H2 & H3 & H4
                        & H5 & H6 & H7).
    rewrite Eh in H1. injection H1 as <-.
    rewrite Ej in H2. injection H2 as <-.
    rewrite Ep in H3. injection H3 as <-. congruence.
Qed.

Lemma detected_functional (html base : str) (a : node)
      (url url' title title' : str) :
  detected html base a url title -> detected html base a url' title' ->
  url = url' /\ title = title'.
Proof.
  intros (h & ps & i & m & H1 & H2 & _ & _ & H5 & _)
         (h' & ps' & i' & m' & H1' & H2' & _ & _ & H5' & _).
  rewrite H1 in H1'. injection H1' as <-.
  rewrite H2 in H2'. injection H2' as <-. subst. auto.
Qed.

Lemma scan_membership (html base : str) (anchors : list (Bs4.path * node)) :
  forall results,
    scan html base anchors = Return results ->
    forall a url title,
      In (a, url, title) results
      <-> (exists p, In (p, a) anchors) /\ detected html base a url title.
Proof.
  induction anchors as [|[p0 a0] rest IH]; intros results H a url title.
  - injection H as <-. split; [intros [] | intros [[p []] _]].
  - destruct (scan_cons _ _ _ _ _ _ H) as (tail & Ht & Hcase).
    specialize (IH tail Ht a url title).
    destruct Hcase as [(url0 & title0 & -> & Hd) | [-> Hn]].
    + split.
      * intros [E | Hin].
        -- injection E as <- <- <-. split; [exists p0; left; reflexivity|].
           exact Hd.
        -- apply IH in Hin. destruct Hin as [[p Hp] Hd'].
           split; [exists p; right; exact Hp | exact Hd'].
      * intros [[p [E | Hp]] Hd'].
        -- injection E as _ <-.
           destruct (detected_functional _ _ _ _ _ _ _ Hd Hd') as [-> ->].
           left. reflexivity.
        -- right. apply IH. split; [exists p; exact Hp | exact Hd'].
    + split.
      * intros Hin. apply IH in Hin. destruct Hin as [[p Hp] Hd'].
        split; [exists p; right; exact Hp | exact Hd'].
      * intros [[p [E | Hp]] Hd'].
        -- injection E as _ <-. exfalso. exact (Hn _ _ Hd').
        -- apply IH. split; [exists p; exact Hp | exact Hd'].
Qed.

(** [find_gpx_links] returns when the document parses and the loop over
    its anchors returns. *)
Lemma find_gpx_links_return (html base : str)
      (results : list (node * str * str)) :
  find_gpx_links html base = Return results ->
  exists soup, BeautifulSoup html = Return soup
               /\ scan html base (Bs4.find_all_a_href soup) = Return results.
Proof.
  unfold find_gpx_links.
  destruct (BeautifulSoup html) as [soup|e]; cbn [bind]; [|discriminate].
  intros H. exists soup. auto.
Qed.

(** X1.  When [find_gpx_links] returns, the document has been parsed, and
    a triple is in the result exactly when its tag is one of the anchors
    with an href of the parsed document and passes every check of the
    loop. *)
Theorem find_gpx_links_membership (html base : str)
        (results : list (node * str * str)) :
  find_gpx_links html base = Return results ->
  exists soup,
    BeautifulSoup html = Return soup
    /\ forall a url title,
         In (a, url, title) results
         <-> (exists p, In (p, a) (Bs4.find_all_a_href soup))
             /\ detected html base a url title.
Proof.
  intros H. destruct (find_gpx_links_return _ _ _ H) as (soup & Hs & Hscan).
  exists soup. split; [exact Hs|].
  intros a url title. apply scan_membership. exact Hscan.
Qed.

Lemma scan_subsequence (html base : str) (anchors : list (Bs4.path * node)) :
  forall results,
    scan html base anchors = Return results ->
    subsequence (map (fun r => fst (fst r)) results) (map snd anchors).
Proof.
  induction anchors as [|[p0 a0] rest IH]; intros results H.
  - injection H as <-. constructor.
  - destruct (scan_cons _ _ _ _ _ _ H) as (tail & Ht & Hcase).
    specialize (IH tail Ht).
    destruct Hcase as [(url0 & title0 & -> & _) | [-> _]]; simpl.
    + apply sub_keep. exact IH.
    + apply sub_skip. exact IH.
Qed.

(** X2.  The tags of the result are anchors of the parsed document, in
    document order: a subsequence of [soup.find_all('a', href=True)]. *)
Theorem find_gpx_links_document_order (html base : str)
        (results : list (node * str * str)) :
  find_gpx_links html base = Return results ->
  exists soup,
    BeautifulSoup html = Return soup
    /\ subsequence (map (fun r => fst (fst r)) results)
                   (map snd (Bs4.find_all_a_href soup)).
Proof.
  intros H. destruct (find_gpx_links_return _ _ _ H) as (soup & Hs & Hscan).
  exists soup. split; [exact Hs|].
  exact (scan_subsequence html base _ _ Hscan).
Qed.

End LocatorFacts.

(** ** The anchor pattern *)

Module AnchorFacts.
Import Matches PatternFacts.

Lemma mt_opt_quote (prev : option ascii) (w rest : str) :
  mt true (Re.Opt quote) prev w rest <-> opt_quote w.
Proof.
  unfold quote, opt_quote. cbn [mt]. split.
  - intros [[(ch & -> & H) | (ch & -> & H)] | ->].
    + apply lit_double_quote in H. subst ch. auto.
    + apply lit_single_quote in H. subst ch. auto.
    + auto.
  - intros [-> | [-> | ->]].
    + right. reflexivity.
    + left. left. exists (chr 34). split; [reflexivity|].
      apply lit_double_quote. reflexivity.
    + left. right. exists "'"%char. split; [reflexivity|].
      apply lit_single_quote. reflexivity.
Qed.


(** The anchor as usually written is matched, whatever surrounds it. *)
Lemma mt_canonical_anchor (href text : str) (prev : option ascii)
      (rest : str) :
  mt true (anchor_regex href text) prev (canonical_anchor href text) rest.
Proof.
  unfold anchor_regex, canonical_anchor. unfold Re.seq at 1.
  cbn [fold_right mt].
  exists (txt "<a"), (txt " href=" ++ [chr 34] ++ href ++ [chr 34] ++ txt ">"
                      ++ text ++ txt "</a>").
  split; [reflexivity|]. split; [apply mt_lits; reflexivity|].
  exists [], (txt " href=" ++ [chr 34] ++ href ++ [chr 34] ++ txt ">"
              ++ text ++ txt "</a>").
  split; [reflexivity|]. split; [split; reflexivity|].
  exists (txt " "), (txt "href=" ++ [chr 34] ++ href ++ [chr 34] ++ txt ">"
                     ++ text ++ txt "</a>").
  split; [reflexivity|].
  split; [apply star_not_gt; repeat constructor; discriminate|].
  exists [], (txt "href=" ++ [chr 34] ++ href ++ [chr 34] ++ txt ">"
              ++ text ++ txt "</a>").
  split; [reflexivity|]. split; [split; reflexivity|].
  exists (txt "href"), (txt "=" ++ [chr 34] ++ href ++ [chr 34] ++ txt ">"
                        ++ text ++ txt "</a>").
  split; [reflexivity|]. split; [apply mt_lits; reflexivity|].
  exists [], (txt "=" ++ [chr 34] ++ href ++ [chr 34] ++ txt ">"
              ++ text ++ txt "</a>").
  split; [reflexivity|]. split; [constructor|].
  exists (txt "="), ([chr 34] ++ href ++ [chr 34] ++ txt ">"
                     ++ text ++ txt "</a>").
  split; [reflexivity|].
  split; [exists "="%char; split; [reflexivity | apply lit_eq; reflexivity]|].
  exists [], ([chr 34] ++ href ++ [chr 34] ++ txt ">" ++ text ++ txt "</a>").
  split; [reflexivity|]. split; [constructor|].
  exists [chr 34], (href ++ [chr 34] ++ txt ">" ++ text ++ txt "</a>").
  split; [reflexivity|].
  split; [apply mt_opt_quote; right; left; reflexivity|].
  exists href, ([chr 34] ++ txt ">" ++ text ++ txt "</a>").
  split; [reflexivity|]. split; [apply mt_lits; reflexivity|].
  exists [chr 34], (txt ">" ++ text ++ txt "</a>").
  split; [reflexivity|].
  split; [apply mt_opt_quote; right; left; reflexivity|].
  exists [], (txt ">" ++ text ++ txt "</a>").
  split; [reflexivity|]. split; [constructor|].
  exists (txt ">"), (text ++ txt "</a>").
  split; [reflexivity|].
  split; [exists ">"%char; split; [reflexivity | apply lit_gt; reflexivity]|].
  exists [], (text ++ txt "</a>").
  split; [reflexivity|]. split; [constructor|].
  exists text, (txt "</a>").
  split; [reflexivity|]. split; [apply mt_lits; reflexivity|].
  exists [], (txt "</a>").
  split; [reflexivity|]. split; [constructor|].
  exists (txt "</a>"), [].
  split; [reflexivity|]. split; [apply mt_lits; reflexivity | reflexivity].
Qed.

End AnchorFacts.

(** ** The anchor in the source text and the line-isolation guard *)

Lemma locate_sound (html href text : str) (idx : nat) (m : str) :
  locate html href text = Some (idx, m) ->
  exists pre post,
    html = pre ++ m ++ post /\ length pre = idx
    /\ Matches.mt true (anchor_regex href text)
                  (Matches.after None pre) m post.
Proof.
  unfold locate, Re.search, IGNORECASE. intros H.
  destruct (ReFacts.search_from_sound _ _ _ _ _ _ _ H)
    as (pre & post & -> & -> & Hm).
  exists pre, post. auto.
Qed.


(** X4.  An anchor written [<a href="HREF">TEXT</a>] anywhere in the
    text is never missed: the search succeeds, at that place or before
    it. *)
Theorem canonical_anchor_is_located (pre post href text : str) :
  exists idx m,
    locate (pre ++ canonical_anchor href text ++ post) href text
    = Some (idx, m)
    /\ idx <= length pre.
Proof.
  unfold locate, Re.search, IGNORECASE.
  destruct (ReFacts.search_from_complete true (anchor_regex href text) pre
              None 0 (canonical_anchor href text) post
              (AnchorFacts.mt_canonical_anchor _ _ _ _))
    as (i & g & H & Hle).
  exists i, g. split; [exact H | exact Hle].
Qed.

Lemma guard_isolated (html : str) (idx : nat) (m : str) :
  alone_on_line html idx m = true -> isolated (line_of html idx) m.
Proof.
  unfold alone_on_line, Re.match_, IGNORECASE.
  destruct (Re.match_here true (line_pattern m) None (line_of html idx))
    as [g|] eqn:E; [|discriminate].
  intros _. destruct (ReFacts.match_here_sound _ _ _ _ _ E)
    as (rest & Hline & Hm).
  apply PatternFacts.mt_line_pattern in Hm. destruct Hm as [Hiso Hend].
  destruct Hend as [-> | ->].
  - rewrite Hline, app_nil_r. exact Hiso.
  - exfalso. apply (line_of_no_newline html idx). rewrite Hline.
    apply in_or_app. right. left. reflexivity.
Qed.

(** X5.  The guard of lines 54-66 holds exactly when the line of the
    match is, up to the case of letters, the matched text with only white
    space around it, an opening tag [<p...>] and white space before it,
    white space and [</p>] after it, each optional. *)
Theorem alone_on_line_iff (html : str) (idx : nat) (m : str) :
  alone_on_line html idx m = true <-> isolated (line_of html idx) m.
Proof.
  split; [apply guard_isolated|].
  intros Hiso. unfold alone_on_line, Re.match_, IGNORECASE.
  assert (Matches.mt true (line_pattern m) None (line_of html idx) [])
    as Hm by (apply PatternFacts.mt_line_pattern; auto).
  destruct (ReFacts.match_here_complete _ _ _ _ _ Hm) as [g Hg].
  rewrite app_nil_r in Hg. rewrite Hg. reflexivity.
Qed.

Lemma ci_eq_no_newline (m' m : str) :
  ci_eq m' m -> ~ In newline m' -> ~ In newline m.
Proof.
  unfold ci_eq, PyStr.lower. intros H Hn Hin.
  apply (in_map PyStr.lower_char) in Hin. rewrite <- H in Hin.
  apply in_map_iff in Hin. destruct Hin as (c & Hc & Hin).
  apply lower_char_newline in Hc. subst c. contradiction.
Qed.

Lemma prefix_before_newline (x : str) :
  forall y b post,
    x ++ y = b ++ post -> ~ In newline x ->
    post = [] \/ (exists q, post = newline :: q) ->
    exists t, b = x ++ t.
Proof.
  induction x as [|c x IH]; intros y b post E Hx Hpost.
  - exists b. reflexivity.
  - destruct b as [|c' b].
    + exfalso. destruct Hpost as [-> | [q ->]]; simpl in E.
      * discriminate.
      * injection E as -> _. apply Hx. left. reflexivity.
    + simpl in E. injection E as <- E.
      destruct (IH y b post E) as [t ->].
      * intros H. apply Hx. right. exact H.
      * exact Hpost.
      * exists t. reflexivity.
Qed.

(** X6.  A match that passes the guard has no newline in it, and lies
    whole within the line of its first character. *)
Theorem guarded_match_on_one_line (html href text : str) (idx : nat)
        (m : str) :
  locate html href text = Some (idx, m) ->
  alone_on_line html idx m = true ->
  ~ In newline m
  /\ exists before after, line_of html idx = before ++ m ++ after.
Proof.
  intros Hloc Hguard.
  assert (~ In newline m) as Hm.
  { apply guard_isolated in Hguard.
    destruct Hguard as (ws1 & p & m' & c & ws2 & Hline & _ & _ & Hci & _).
    apply (ci_eq_no_newline m' m Hci). intros Hin.
    apply (line_of_no_newline html idx). rewrite Hline.
    apply in_or_app. right. apply in_or_app. right.
    apply in_or_app. left. exact Hin. }
  split; [exact Hm|].
  destruct (locate_sound _ _ _ _ _ Hloc) as (pre & post & E & Hl & _).
  destruct (line_of_spec html idx) as (pre' & a & b & post' & Hf & Hs & Hline
                                       & _ & _ & _ & Hpost).
  assert (skipn idx html = m ++ post) as Hs'
      by (rewrite E, <- Hl, skipn_length_app; reflexivity).
  rewrite Hs' in Hs.
  destruct (prefix_before_newline m post b post' Hs Hm Hpost) as [t ->].
  exists a, t. exact Hline.
Qed.

Section LocatorErrors.
Context {L : Library}.

Lemma find_all_has_href (soup : list node) (p : Bs4.path) (a : node) :
  In (p, a) (Bs4.find_all_a_href soup) ->
  exists href, Bs4.tag_get a (txt "href") = Some href.
Proof.
  unfold Bs4.find_all_a_href. intros H. apply filter_In in H.
  destruct H as [_ H]. apply andb_true_iff in H. destruct H as [_ H].
  unfold Bs4.has_attr in H. cbn [snd] in H.
  destruct (Bs4.tag_get a (txt "href")); [eauto | discriminate H].
Qed.

Lemma scan_raise_cause (html base : str) (anchors : list (Bs4.path * node)) :
  forall e,
    scan html base anchors = Raise e ->
    exists p a,
      In (p, a) anchors
      /\ ((Bs4.tag_get a (txt "href") = None /\ e = KeyError)
          \/ exists href, Bs4.tag_get a (txt "href") = Some href
                          /\ unresolvable base href e).
Proof.
  induction anchors as [|[p0 a0] rest IH]; intros e H; [discriminate|].
  cbn [scan] in H. unfold getitem_href in H.
  destruct (Bs4.tag_get a0 (txt "href")) as [href|] eqn:Eh.
  - cbn [bind] in H.
    destruct (urljoin base href) as [url|e1] eqn:Ej; cbn [bind] in H.
    + destruct (urlparse url) as [parsed|e2] eqn:Ep; cbn [bind] in H.
      * assert (scan html base rest = Raise e) as Hrest.
        { destruct (negb (is_gpx_path (path parsed))); [exact H|].
          destruct (locate html href (Bs4.get_text_strip a0))
            as [[idx m]|]; [|exact H].
          destruct (negb (alone_on_line html idx m)); [exact H|].
          destruct (scan html base rest); [discriminate | exact H]. }
        destruct (IH e Hrest) as (p & a & Hin & Hc).
        exists p, a. split; [right; exact Hin | exact Hc].
      * injection H as <-. exists p0, a0. split; [left; reflexivity|].
        right. exists href. split; [exact Eh|]. right. eauto.
    + injection H as <-. exists p0, a0. split; [left; reflexivity|].
      right. exists href. split; [exact Eh|]. left. exact Ej.
  - cbn [bind] in H. injection H as <-. exists p0, a0.
    split; [left; reflexivity | left; auto].
Qed.

Lemma scan_raises (html base : str) (anchors : list (Bs4.path * node))
      (p : Bs4.path) (a : node) (href : str) (e : exn) :
  In (p, a) anchors ->
  Bs4.tag_get a (txt "href") = Some href ->
  unresolvable base href e ->
  exists e', scan html base anchors = Raise e'.
Proof.
  intros Hin Hh Hu. induction anchors as [|[p0 a0] rest IH]; [contradiction|].
  cbn [scan]. unfold getitem_href.
  destruct (Bs4.tag_get a0 (txt "href")) as [href0|] eqn:Eh;
    cbn [bind]; [|eauto].
  destruct (urljoin base href0) as [url|e1] eqn:Ej; cbn [bind]; [|eauto].
  destruct (urlparse url) as [parsed|e2] eqn:Ep; cbn [bind]; [|eauto].
  destruct Hin as [E | Hin].
  - injection E as -> ->. rewrite Hh in Eh. injection Eh as ->.
    destruct Hu as [Hu | (url' & Hu1 & Hu2)]; [congruence|].
    rewrite Ej in Hu1. injection Hu1 as <-. congruence.
  - destruct (IH Hin) as [e' He'].
    destruct (negb (is_gpx_path (path parsed))); [eauto|].
    destruct (locate html href0 (Bs4.get_text_strip a0)) as [[idx m]|];
      [|eauto].
    destruct (negb (alone_on_line html idx m)); [eauto|].
    rewrite He'. cbn [bind]. eauto.
Qed.

(** X7.  [find_gpx_links] raises exactly when the parser refuses the
    document, or the document parses and the href of one of its anchors
    cannot be resolved ([urljoin] or [urlparse] raises on it), whether or
    not that anchor points to a gpx file; [a['href']] never raises. *)
Theorem find_gpx_links_raises_iff (html base : str) :
  (exists e, find_gpx_links html base = Raise e)
  <-> (exists e, BeautifulSoup html = Raise e)
      \/ exists soup p a href e,
           BeautifulSoup html = Return soup
           /\ In (p, a) (Bs4.find_all_a_href soup)
           /\ Bs4.tag_get a (txt "href") = Some href
           /\ unresolvable base href e.
Proof.
  unfold find_gpx_links.
  destruct (BeautifulSoup html) as [soup|e0]; cbn [bind].
  - split.
    + intros [e H]. right.
      destruct (scan_raise_cause _ _ _ _ H) as (p & a & Hin & Hc).
      destruct Hc as [[Hnone _] | (href & Hh & Hu)].
      * destruct (find_all_has_href _ _ _ Hin) as [href Hh]. congruence.
      * exists soup, p, a, href, e. auto.
    + intros [[e H] | (soup' & p & a & href & e & Hs & Hin & Hh & Hu)];
        [discriminate H|].
      injection Hs as <-.
      exact (scan_raises html base _ p a href e Hin Hh Hu).
  - split; [intros _; left; eauto | intros _; eauto].
Qed.

End LocatorErrors.

(** ** Examples of the locator *)

Lemma find_gpx_links_example :
  @find_gpx_links reference example_html example_base
  = Return [(example_anchor, txt "https://example.com/files/track.gpx",
             txt "My Hike")].
Proof. vm_compute. reflexivity. Qed.

Lemma locate_example :
  locate example_html (txt "/files/track.gpx") (txt "My Hike")
  = Some (3, example_match).
Proof. vm_compute. reflexivity. Qed.

Lemma find_gpx_links_membership_witness :
  exists soup,
    @BeautifulSoup reference example_html = Return soup
    /\ forall a url title,
         In (a, url, title)
            [(example_anchor, txt "https://example.com/files/track.gpx",
              txt "My Hike")]
         <-> (exists p, In (p, a) (Bs4.find_all_a_href soup))
             /\ @detected reference example_html example_base a url title.
Proof.
  apply (@find_gpx_links_membership reference example_html example_base).
  vm_compute. reflexivity.
Defined.

Lemma find_gpx_links_document_order_witness :
  exists soup,
    @BeautifulSoup reference example_html = Return soup
    /\ subsequence [example_anchor] (map snd (Bs4.find_all_a_href soup)).
Proof.
  apply (@find_gpx_links_document_order reference example_html example_base
           [(example_anchor, txt "https://example.com/files/track.gpx",
             txt "My Hike")]).
  vm_compute. reflexivity.
Defined.


Lemma guarded_match_witness :
  ~ In newline example_match
  /\ exists before after,
       line_of example_html 3 = before ++ example_match ++ after.
Proof.
  apply (guarded_match_on_one_line example_html (txt "/files/track.gpx")
           (txt "My Hike") 3 example_match).
  - vm_compute. reflexivity.
  - vm_compute. reflexivity.
Defined.

(** ** compute_relative_path: errors and shape *)

Section RelativePathMore.
Context {L : Library}.

(** X8.  [compute_relative_path] raises exactly when [urlparse] raises on
    the file URL, or returns for it and raises on the post URL; the
    exception is that of [urlparse]. *)
Theorem compute_relative_path_raises_iff (file_url post_url : str)
        (e : exn) :
  compute_relative_path file_url post_url = Raise e
  <-> urlparse file_url = Raise e
      \/ (exists f, urlparse file_url = Return f)
         /\ urlparse post_url = Raise e.
Proof.
  unfold compute_relative_path.
  destruct (urlparse file_url) as [f|e1]; cbn [bind].
  - destruct (urlparse post_url) as [p|e2]; cbn [bind].
    + destruct (negb (PyStr.eqb (netloc f) (netloc p))).
      * split; [discriminate | intros [H | [_ H]]; discriminate].
      * split; [discriminate | intros [H | [_ H]]; discriminate].
    + split.
      * intros H. injection H as ->. right. split; [eauto | reflexivity].
      * intros [H | [_ H]]; [discriminate | injection H as ->; reflexivity].
  - split.
    + intros H. injection H as ->. left. reflexivity.
    + intros [H | [[f H'] _]];
        [injection H as ->; reflexivity | discriminate].
Qed.

(** X9.  The last segment of the post path does not count: two posts of
    one netloc in one directory get the same relative path. *)
Theorem same_directory_same_relative_path
        (file_url post_url1 post_url2 : str) (p1 p2 : ParseResult)
        (segs : list str) :
  urlparse post_url1 = Return p1 ->
  urlparse post_url2 = Return p2 ->
  netloc p1 = netloc p2 ->
  in_directory (path p1) segs ->
  in_directory (path p2) segs ->
  compute_relative_path file_url post_url1
  = compute_relative_path file_url post_url2.
Proof.
  intros H1 H2 Hn Hd1 Hd2. unfold compute_relative_path.
  destruct (urlparse file_url) as [f|e]; cbn [bind]; [|reflexivity].
  rewrite H1, H2. cbn [bind]. rewrite Hn. cbv zeta.
  rewrite (post_dir_in_directory _ _ Hd1), (post_dir_in_directory _ _ Hd2).
  reflexivity.
Qed.

(** X10.  For two URLs of one netloc the result is a relative reference:
    it starts with a slash only when it is the file path itself, and that
    path has nothing but slashes. *)
Theorem relative_path_not_rooted (file_url post_url rel : str)
        (f p : ParseResult) :
  urlparse file_url = Return f ->
  urlparse post_url = Return p ->
  netloc f = netloc p ->
  compute_relative_path file_url post_url = Return rel ->
  PyStr.startswith rel (txt "/") = true ->
  rel = path f /\ Forall (fun c => c = "/"%char) (path f).
Proof.
  intros Hf Hp Hn. unfold compute_relative_path.
  rewrite Hf, Hp. cbn [bind]. rewrite Hn, str_eqb_refl. cbn [negb]. cbv zeta.
  rewrite join_steps.
  set (n := length _).
  destruct (lstrip_spec "/" (path f)) as (k & Hk & Hnot).
  destruct (concat (repeat (txt ".." ++ txt "/") n)
            ++ PyStr.lstrip "/" (path f)) as [|c joined] eqn:E;
    cbn [PyStr.is_empty]; intros H Hs; injection H as <-.
  - split; [reflexivity|].
    apply app_eq_nil in E. destruct E as [_ E]. rewrite E, app_nil_r in Hk.
    rewrite Hk. clear. induction k; simpl; constructor; auto.
  - exfalso. apply startswith_iff in Hs. destruct Hs as [t Hs].
    simpl in Hs. injection Hs as -> ->.
    destruct n as [|n]; [|discriminate E].
    simpl in E. exact (Hnot _ E).
Qed.

End RelativePathMore.

Lemma same_directory_witness :
  @compute_relative_path reference
     (txt "https://example.com/wp-content/uploads/track.gpx")
     (txt "https://example.com/2020/05/post")
  = @compute_relative_path reference
      (txt "https://example.com/wp-content/uploads/track.gpx")
      (txt "https://example.com/2020/05/").
Proof.
  apply (@same_directory_same_relative_path reference _ _ _
           {| netloc := txt "example.com"; path := txt "/2020/05/post" |}
           {| netloc := txt "example.com"; path := txt "/2020/05/" |}
           [txt "2020"; txt "05"]).
  - vm_compute. reflexivity.
  - vm_compute. reflexivity.
  - reflexivity.
  - right. exists (txt "post"). split; [|reflexivity].
    repeat constructor; discriminate.
  - right. exists []. split; [constructor | reflexivity].
Defined.

Lemma not_rooted_witness :
  txt "/" = txt "/" /\ Forall (fun c => c = "/"%char) (txt "/").
Proof.
  apply (@relative_path_not_rooted reference
           (txt "https://example.com/") (txt "https://example.com")
           (txt "/")
           {| netloc := txt "example.com"; path := txt "/" |}
           {| netloc := txt "example.com"; path := [] |}).
  - vm_compute. reflexivity.
  - vm_compute. reflexivity.
  - reflexivity.
  - vm_compute. reflexivity.
  - vm_compute. reflexivity.
Defined.

(** ** The soup *)

Module Bs4Facts.
Import Bs4.

Lemma node_induction (P : node -> Prop) :
  (forall name attrs kids, Forall P kids -> P (Tag name attrs kids)) ->
  (forall s, P (NavigableString s)) ->
  (forall out, P (Special out)) ->
  forall n, P n.
Proof.
  intros Htag Hs Hsp. fix IH 1. intros [name attrs kids | s | out].
  - apply Htag. induction kids as [|k ks IHks]; constructor.
    + apply IH.
    + exact IHks.
  - apply Hs.
  - apply Hsp.
Qed.

Lemma walk_tag (here : path) (name : str) (attrs : list (str * str))
      (kids : list node) :
  walk here (Tag name attrs kids)
  = (here, Tag name attrs kids) :: walk_all here 0 kids.
Proof.
  cbn [walk]. f_equal. generalize 0.
  induction kids as [|k ks IH]; intros i; [reflexivity|].
  cbn [walk_all]. rewrite <- IH. reflexivity.
Qed.

Lemma node_at_cons (soup : list node) (i j : nat) (rel : path) :
  node_at soup (i :: j :: rel)
  = match nth_error soup i with
    | Some (Tag _ _ kids) => node_at kids (j :: rel)
    | _ => None
    end.
Proof. reflexivity. Qed.

Lemma node_at_tail (k : node) (ks : list node) (j : nat) (rel : path) :
  node_at (k :: ks) (S j :: rel) = node_at ks (j :: rel).
Proof. destruct rel; reflexivity. Qed.

(** Every node listed with a path is the node at that path. *)
Lemma walk_node_at (n : node) :
  forall here p m,
    In (p, m) (walk here n) ->
    (p = here /\ m = n)
    \/ exists j rel name attrs kids,
         p = here ++ j :: rel /\ n = Tag name attrs kids
         /\ node_at kids (j :: rel) = Some m.
Proof.
  induction n as [name attrs kids IH | s | out] using node_induction;
    intros here p m Hin.
  - rewrite walk_tag in Hin. destruct Hin as [E | Hin].
    + injection E as <- <-. left. auto.
    + right.
      assert (forall i, In (p, m) (walk_all here i kids) ->
                        exists j rel, p = here ++ (i + j) :: rel
                                      /\ node_at kids (j :: rel) = Some m)
        as Hall.
      { clear Hin. induction IH as [|k ks Hk _ IHks]; intros i Hin;
          [contradiction|].
        cbn [walk_all] in Hin. apply in_app_or in Hin.
        destruct Hin as [Hin | Hin].
        - destruct (Hk _ _ _ Hin) as [[-> ->] | (j & rel & nm & at_ & kk
                                                 & -> & -> & Hm)].
          + exists 0, []. rewrite Nat.add_0_r. auto.
          + exists 0, (j :: rel). rewrite Nat.add_0_r, <- app_assoc.
            split; [reflexivity|]. exact Hm.
        - destruct (IHks _ Hin) as (j & rel & -> & Hm).
          exists (S j), rel. rewrite Nat.add_succ_r, node_at_tail. auto. }
      destruct (Hall 0 Hin) as (j & rel & -> & Hm).
      exists j, rel, name, attrs, kids. auto.
  - destruct Hin as [E | []]. injection E as <- <-. left. auto.
  - destruct Hin as [E | []]. injection E as <- <-. left. auto.
Qed.

Lemma descendants_node_at (soup : list node) (p : path) (m : node) :
  In (p, m) (descendants soup) -> node_at soup p = Some m.
Proof.
  unfold descendants.
  assert (forall i, In (p, m) (walk_all [] i soup) ->
                    exists j rel, p = (i + j) :: rel
                                  /\ node_at soup (j :: rel) = Some m) as H.
  { induction soup as [|k ks IH]; intros i Hin; [contradiction|].
    cbn [walk_all] in Hin. apply in_app_or in Hin.
    destruct Hin as [Hin | Hin].
    - destruct (walk_node_at k _ _ _ Hin)
        as [[-> ->] | (j & rel & nm & at_ & kk & -> & -> & Hm)].
      + exists 0, []. rewrite Nat.add_0_r. auto.
      + exists 0, (j :: rel). rewrite Nat.add_0_r. auto.
    - destruct (IH _ Hin) as (j & rel & -> & Hm).
      exists (S j), rel. rewrite Nat.add_succ_r, node_at_tail. auto. }
  intros Hin. destruct (H 0 Hin) as (j & rel & -> & Hm). exact Hm.
Qed.

Lemma find_all_node_at (soup : list node) (p : path) (a : node) :
  In (p, a) (find_all_a_href soup) -> node_at soup p = Some a.
Proof.
  unfold find_all_a_href. intros H. apply filter_In in H.
  apply descendants_node_at. tauto.
Qed.

(** The first element that satisfies the test. *)
Lemma find_first (A : Type) (f : A -> bool) (l : list A) (x : A) :
  find f l = Some x ->
  exists l1 l2, l = l1 ++ x :: l2 /\ f x = true
                /\ forall y, In y l1 -> f y = false.
Proof.
  induction l as [|a l IH]; [discriminate|]. simpl.
  destruct (f a) eqn:E.
  - intros H. injection H as <-. exists [], l.
    split; [reflexivity|]. split; [exact E | intros y []].
  - intros H. destruct (IH H) as (l1 & l2 & -> & Hx & Hl1).
    exists (a :: l1), l2. split; [reflexivity|]. split; [exact Hx|].
    intros y [<- | Hy]; auto.
Qed.

Lemma find_in_split (A : Type) (f : A -> bool) (l1 l2 : list A) (x : A) :
  f x = true -> (forall y, In y l1 -> f y = false) ->
  find f (l1 ++ x :: l2) = Some x.
Proof.
  intros Hx Hl1. induction l1 as [|a l1 IH]; simpl.
  - rewrite Hx. reflexivity.
  - rewrite (Hl1 a) by (left; reflexivity).
    apply IH. intros y Hy. apply Hl1. right. exact Hy.
Qed.

Lemma enclosing_prefixes (p : path) :
  enclosing p = map (fun k => firstn k p) (seq 1 (length p - 1)).
Proof.
  induction p as [|i p IH]; [reflexivity|].
  destruct p as [|j p]; [reflexivity|].
  change (enclosing (i :: j :: p))
    with ([i] :: map (cons i) (enclosing (j :: p))).
  rewrite IH.
  replace (length (i :: j :: p) - 1) with (S (length (j :: p) - 1))
    by (simpl; lia).
  cbn [seq map]. f_equal.
  rewrite <- (seq_shift (length (j :: p) - 1) 1), !map_map. reflexivity.
Qed.

(** The last of a range that satisfies a test, found by a search from
    its end. *)
Lemma find_from_the_end (A : Type) (g : A -> bool) (f : nat -> A)
      (a n : nat) :
  match find g (rev (map f (seq a n))) with
  | Some q => exists k, a <= k < a + n /\ q = f k /\ g q = true
                        /\ forall k', k < k' < a + n -> g (f k') = false
  | None => forall k, a <= k < a + n -> g (f k) = false
  end.
Proof.
  induction n as [|n IH].
  - simpl. intros k Hk. lia.
  - rewrite seq_S, map_app, rev_app_distr. cbn [map rev app find].
    destruct (g (f (a + n))) eqn:E.
    + exists (a + n). repeat split; try lia. exact E.
    + destruct (find g (rev (map f (seq a n)))) as [q|].
      * destruct IH as (k & Hk & Hq & Hg & Hlast).
        exists k. repeat split; try lia; try assumption.
        intros k' Hk'. destruct (Nat.eq_dec k' (a + n)) as [-> | Hne];
          [exact E | apply Hlast; lia].
      * intros k Hk. destruct (Nat.eq_dec k (a + n)) as [-> | Hne];
          [exact E | apply IH; lia].
Qed.

Lemma is_p_test (soup : list node) (q : path) :
  match node_at soup q with
  | Some n => is_tag_named (txt "p") n
  | None => false
  end = true <-> is_p soup q.
Proof.
  unfold is_p. destruct (node_at soup q) as [n|].
  - split; [eauto | intros (n' & E & H); injection E as ->; exact H].
  - split; [discriminate | intros (n' & E & _); discriminate].
Qed.

(** [find_parent('p')] gives the nearest enclosing [p], if there is one. *)
Lemma find_parent_spec (soup : list node) (p : path) :
  match find_parent (txt "p") soup p with
  | Some q => encloses q p /\ is_p soup q
              /\ forall q', encloses q' p -> length q < length q'
                            -> ~ is_p soup q'
  | None => forall q', encloses q' p -> ~ is_p soup q'
  end.
Proof.
  unfold find_parent, parents. rewrite enclosing_prefixes.
  pose proof (find_from_the_end _
                (fun q => match node_at soup q with
                          | Some n => is_tag_named (txt "p") n
                          | None => false
                          end)
                (fun k => firstn k p) 1 (length p - 1)) as H.
  destruct (find _ (rev (map _ (seq 1 (length p - 1))))) as [q|].
  - destruct H as (k & Hk & -> & Hg & Hlast).
    split; [exists k; split; [lia | reflexivity]|].
    split; [apply is_p_test; exact Hg|].
    intros q' (k' & Hk' & ->) Hlen Hp.
    rewrite !length_firstn in Hlen.
    apply is_p_test in Hp. rewrite Hlast in Hp by lia. discriminate.
  - intros q' (k' & Hk' & ->) Hp.
    apply is_p_test in Hp. rewrite H in Hp by lia. discriminate.
Qed.

Lemma written_all_app (w : writer) (parent : str) (xs ys : list node) :
  written_all w parent (xs ++ ys)
  = written_all w parent xs ++ written_all w parent ys.
Proof. unfold written_all. apply flat_map_app. Qed.

Lemma written_all_cons (w : writer) (parent : str) (n : node)
      (ns : list node) :
  written_all w parent (n :: ns)
  = written w parent n ++ written_all w parent ns.
Proof. reflexivity. Qed.

Lemma written_tag_with_contents (w : writer) (parent name : str)
      (attrs : list (str * str)) (kids : list node) :
  kids <> [] ->
  written w parent (Tag name attrs kids)
  = start_tag w name attrs ++ written_all w name kids
    ++ end_tag w name attrs.
Proof. intros H. destruct kids as [|k ks]; [contradiction | reflexivity]. Qed.

Lemma parent_name_cons (top : str) (soup : list node) (i j : nat)
      (q : path) :
  parent_name top soup (i :: j :: q)
  = match nth_error soup i with
    | Some (Tag nm _ kids) => parent_name nm kids (j :: q)
    | _ => top
    end.
Proof. reflexivity. Qed.

Lemma nth_error_parts (l : list node) (i : nat) (n : node) :
  nth_error l i = Some n ->
  l = firstn i l ++ n :: skipn (S i) l /\ skipn i l = n :: skipn (S i) l.
Proof.
  revert i. induction l as [|a l IH]; intros [|i] H; try discriminate.
  - injection H as ->. auto.
  - simpl in H. destruct (IH i H) as [E1 E2]. split.
    + simpl. f_equal. exact E1.
    + exact E2.
Qed.

Lemma insert_before_cons (soup : list node) (i j : nat) (q : path)
      (new : list node) :
  insert_before soup (i :: j :: q) new
  = match nth_error soup i with
    | Some (Tag nm attrs kids) =>
        firstn i soup ++ Tag nm attrs (insert_before kids (j :: q) new)
               :: skipn (S i) soup
    | _ => soup
    end.
Proof. reflexivity. Qed.

Lemma insert_before_not_nil (q : path) :
  forall soup new n,
    node_at soup q = Some n -> insert_before soup q new <> [].
Proof.
  destruct q as [|i [|j q]]; intros soup new n H; [discriminate| |].
  - cbn [node_at] in H. cbn [insert_before]. rewrite H.
    destruct (nth_error_parts _ _ _ H) as [_ E]. rewrite E.
    intros E'. apply app_eq_nil in E'. destruct E' as [_ E'].
    apply app_eq_nil in E'. destruct E' as [_ E']. discriminate.
  - rewrite node_at_cons in H. rewrite insert_before_cons.
    destruct (nth_error soup i) as [[nm attrs kids| |]|]; try discriminate.
    intros E'. apply app_eq_nil in E'. destruct E' as [_ E']. discriminate.
Qed.

(** In what a writer writes, [insert_before] puts the new nodes right
    before the node addressed, written as the contents of the tag that
    holds it, and changes nothing else. *)
Lemma written_insert_before (w : writer) (q : path) :
  forall top soup new n,
    node_at soup q = Some n ->
    exists pre post,
      written_all w top soup
      = pre ++ written w (parent_name top soup q) n ++ post
      /\ written_all w top (insert_before soup q new)
         = pre ++ written_all w (parent_name top soup q) new
               ++ written w (parent_name top soup q) n ++ post.
Proof.
  induction q as [|i q IH]; intros top soup new n H; [discriminate|].
  destruct q as [|j q].
  - cbn [node_at] in H. cbn [insert_before parent_name]. rewrite H.
    destruct (nth_error_parts _ _ _ H) as [E1 E2].
    exists (written_all w top (firstn i soup)),
      (written_all w top (skipn (S i) soup)).
    split.
    + rewrite E1 at 1. rewrite written_all_app, written_all_cons.
      reflexivity.
    + rewrite !written_all_app, E2, written_all_cons. reflexivity.
  - rewrite node_at_cons in H.
    rewrite insert_before_cons, parent_name_cons.
    destruct (nth_error soup i) as [[nm attrs kids| |]|] eqn:En;
      try discriminate.
    destruct (IH nm kids new n H) as (pre & post & Ek & Ek').
    destruct (nth_error_parts _ _ _ En) as [E1 _].
    exists (written_all w top (firstn i soup) ++ start_tag w nm attrs
            ++ pre),
      (post ++ end_tag w nm attrs
       ++ written_all w top (skipn (S i) soup)).
    assert (kids <> []) as Hk
        by (intros ->; destruct j, q; discriminate H).
    pose proof (insert_before_not_nil _ _ new _ H) as Hk'.
    split.
    + rewrite E1 at 1. rewrite written_all_app, written_all_cons.
      rewrite (written_tag_with_contents _ _ _ _ _ Hk), Ek.
      rewrite <- !app_assoc. reflexivity.
    + rewrite written_all_app, written_all_cons.
      rewrite (written_tag_with_contents _ _ _ _ _ Hk'), Ek'.
      rewrite <- !app_assoc. reflexivity.
Qed.

End Bs4Facts.

(** ** insert_shortcode_into_html *)

Section SplicerFacts.
Context {L : Library}.

Lemma option_str_eqb_eq (x y : option str) :
  option_str_eqb x y = true <-> x = y.
Proof.
  destruct x as [x|], y as [y|]; simpl.
  - rewrite str_eqb_eq. split; [intros ->; reflexivity|].
    intros H. injection H as ->. reflexivity.
  - split; discriminate.
  - split; discriminate.
  - tauto.
Qed.

Lemma same_link_iff (link_tag a : node) :
  same_link link_tag a = true <-> same_anchor link_tag a.
Proof.
  unfold same_link, same_anchor.
  rewrite andb_true_iff, option_str_eqb_eq, str_eqb_eq. tauto.
Qed.

(** The target the loop of lines 116-119 stops at. *)
Lemma first_same_anchor (link_tag : node) (anchors : list (Bs4.path * node)) :
  (exists p a, In (p, a) anchors /\ same_anchor link_tag a) ->
  exists before target a after,
    anchors = before ++ (target, a) :: after
    /\ same_anchor link_tag a
    /\ (forall p x, In (p, x) before -> ~ same_anchor link_tag x)
    /\ find (fun pn => same_link link_tag (snd pn)) anchors
       = Some (target, a).
Proof.
  intros (p & a & Hin & Hsame).
  destruct (find (fun pn => same_link link_tag (snd pn)) anchors)
    as [[target a']|] eqn:E.
  - destruct (Bs4Facts.find_first _ _ _ _ E) as (l1 & l2 & -> & Hx & Hl1).
    exists l1, target, a', l2. split; [reflexivity|].
    split; [apply same_link_iff; exact Hx|]. split; [|reflexivity].
    intros q x Hq Hs. apply same_link_iff in Hs.
    pose proof (Hl1 (q, x) Hq) as Hf. simpl in Hf. congruence.
  - exfalso. pose proof (find_none _ _ E (p, a) Hin) as Hn.
    apply same_link_iff in Hsame. simpl in Hn. congruence.
Qed.

(** X11.  When the document parses and no anchor with an href in it has
    the href and the stripped text of [link_tag], the function returns its
    input, the very string and not a re-serialization of it; the
    shortcode is not parsed. *)
Theorem splice_miss_returns_input (html : str) (link_tag : node)
        (sc : str) (soup : list node) :
  BeautifulSoup html = Return soup ->
  (forall p a, In (p, a) (Bs4.find_all_a_href soup) ->
               ~ same_anchor link_tag a) ->
  insert_shortcode_into_html html link_tag sc = Return html.
Proof.
  intros Hsoup Hnone. unfold insert_shortcode_into_html.
  rewrite Hsoup. cbn [bind].
  destruct (find (fun pn => same_link link_tag (snd pn))
                 (Bs4.find_all_a_href soup))
    as [[target a]|] eqn:E; [|reflexivity].
  exfalso. apply find_some in E. destruct E as [Hin Hs].
  apply same_link_iff in Hs. exact (Hnone _ _ Hin Hs).
Qed.

(** The search of lines 116-119 finds nothing when no anchor matches. *)
Lemma no_match_no_target (link_tag : node) (anchors : list (Bs4.path * node)) :
  (forall p a, In (p, a) anchors -> ~ same_anchor link_tag a) ->
  find (fun pn => same_link link_tag (snd pn)) anchors = None.
Proof.
  intros Hnone.
  destruct (find (fun pn => same_link link_tag (snd pn)) anchors)
    as [[target a]|] eqn:E; [|reflexivity].
  exfalso. apply find_some in E. destruct E as [Hin Hs].
  apply same_link_iff in Hs. exact (Hnone _ _ Hin Hs).
Qed.

(** The hit: the shortcode is parsed and put before the nearest [p]
    around the first matching anchor, or before that anchor. *)
Lemma splice_hit (html : str) (link_tag : node) (sc : str)
      (soup : list node) (before after : list (Bs4.path * node))
      (target : Bs4.path) (a : node) :
  BeautifulSoup html = Return soup ->
  Bs4.find_all_a_href soup = before ++ (target, a) :: after ->
  (forall p x, In (p, x) before -> ~ same_anchor link_tag x) ->
  same_anchor link_tag a ->
  exists q container,
    insertion_point soup target q
    /\ Bs4.node_at soup q = Some container
    /\ (q = target /\ container = a
        \/ Bs4.is_tag_named (txt "p") container = true)
    /\ insert_shortcode_into_html html link_tag sc
       = bind (BeautifulSoup sc)
              (fun sc_node =>
                 Return (decode (Bs4.insert_before soup q sc_node))).
Proof.
  intros Hsoup Hall Hbefore Hsame. unfold insert_shortcode_into_html.
  rewrite Hsoup. cbn [bind].
  assert (Bs4.node_at soup target = Some a) as Hat.
  { apply Bs4Facts.find_all_node_at. rewrite Hall.
    apply in_or_app. right. left. reflexivity. }
  rewrite Hall, Bs4Facts.find_in_split.
  - pose proof (Bs4Facts.find_parent_spec soup target) as Hp.
    destruct (Bs4.find_parent (txt "p") soup target) as [q|].
    + destruct Hp as (Henc & (n & Hn & Hnamed) & Hnear).
      exists q, n. split; [left; split; [exact Henc|]; split;
                           [exists n; auto | exact Hnear]|].
      split; [exact Hn|]. split; [right; exact Hnamed | reflexivity].
    + exists target, a. split; [right; split; [reflexivity | exact Hp]|].
      split; [exact Hat|]. split; [left; auto | reflexivity].
  - apply same_link_iff. exact Hsame.
  - intros [p x] Hin. simpl.
    destruct (same_link link_tag x) eqn:E; [|reflexivity].
    apply same_link_iff in E. exfalso. exact (Hbefore _ _ Hin E).
Qed.

(** X12.  When the document and the shortcode parse, the shortcode goes
    before the nearest [p] that encloses the first anchor with the href
    and stripped text of [link_tag], or before that anchor when no [p]
    encloses it; the result is [str(soup)] after that one insertion. *)
Theorem splice_goes_before_paragraph_or_anchor
        (html : str) (link_tag : node) (sc : str)
        (soup sc_soup : list node)
        (before after : list (Bs4.path * node)) (target : Bs4.path)
        (a : node) :
  BeautifulSoup html = Return soup ->
  BeautifulSoup sc = Return sc_soup ->
  Bs4.find_all_a_href soup = before ++ (target, a) :: after ->
  (forall p x, In (p, x) before -> ~ same_anchor link_tag x) ->
  same_anchor link_tag a ->
  exists q,
    insertion_point soup target q
    /\ insert_shortcode_into_html html link_tag sc
       = Return (decode (Bs4.insert_before soup q sc_soup)).
Proof.
  intros Hsoup Hsc Hall Hbefore Hsame.
  destruct (splice_hit html link_tag sc soup _ _ _ _ Hsoup Hall Hbefore
              Hsame) as (q & container & Hq & _ & _ & Hres).
  exists q. split; [exact Hq|]. rewrite Hres, Hsc. reflexivity.
Qed.

Lemma splice_hit_somewhere (html : str) (link_tag : node) (sc : str)
      (soup : list node) :
  BeautifulSoup html = Return soup ->
  (exists p a, In (p, a) (Bs4.find_all_a_href soup)
               /\ same_anchor link_tag a) ->
  exists q container,
    Bs4.node_at soup q = Some container
    /\ (same_anchor link_tag container
        \/ Bs4.is_tag_named (txt "p") container = true)
    /\ insert_shortcode_into_html html link_tag sc
       = bind (BeautifulSoup sc)
              (fun sc_node =>
                 Return (decode (Bs4.insert_before soup q sc_node))).
Proof.
  intros Hsoup Hex.
  destruct (first_same_anchor link_tag _ Hex)
    as (before & target & a & after & Hall & Hsame & Hbefore & _).
  destruct (splice_hit html link_tag sc soup _ _ _ _ Hsoup Hall Hbefore
              Hsame) as (q & container & _ & Hat & Hwhich & Hres).
  exists q, container. split; [exact Hat|]. split; [|exact Hres].
  destruct Hwhich as [[_ ->] | Hp]; [left; exact Hsame | right; exact Hp].
Qed.

(** X13.  For a library whose [str(soup)] writes the nodes one after the
    other: when the document and the shortcode parse and some anchor
    matches, the result is the document as written out, with the
    shortcode as written out put in at one place, right before the output
    of a [p] tag or of an anchor that matches; nothing else of the
    written document changes. *)
Theorem splice_frame (w : writer) (html : str) (link_tag : node) (sc : str)
        (soup sc_soup : list node) :
  writes w ->
  BeautifulSoup html = Return soup ->
  BeautifulSoup sc = Return sc_soup ->
  (exists p a, In (p, a) (Bs4.find_all_a_href soup)
               /\ same_anchor link_tag a) ->
  exists q container pre post,
    Bs4.node_at soup q = Some container
    /\ (same_anchor link_tag container
        \/ Bs4.is_tag_named (txt "p") container = true)
    /\ decode soup
       = pre ++ written w (Bs4.parent_name document_name soup q) container
             ++ post
    /\ insert_shortcode_into_html html link_tag sc
       = Return (pre
                 ++ written_all w (Bs4.parent_name document_name soup q)
                                sc_soup
                 ++ written w (Bs4.parent_name document_name soup q)
                            container
                 ++ post).
Proof.
  intros Hw Hsoup Hsc Hex.
  destruct (splice_hit_somewhere html link_tag sc soup Hsoup Hex)
    as (q & container & Hat & Hwhich & Hres).
  destruct (Bs4Facts.written_insert_before w q document_name soup sc_soup
              container Hat) as (pre & post & E1 & E2).
  exists q, container, pre, post.
  split; [exact Hat|]. split; [exact Hwhich|].
  split; [rewrite Hw; exact E1|].
  rewrite Hres, Hsc. cbn [bind]. rewrite Hw, E2. reflexivity.
Qed.

Lemma same_anchor_refl (a : node) : same_anchor a a.
Proof. split; reflexivity. Qed.

(** X14.  A tag that [find_gpx_links] returns is found again in the
    document it came from: splicing for it into that document is never a
    miss, the shortcode is parsed and, if it parses, put in before a [p]
    or an anchor with the href and text of the tag. *)
Theorem emitted_tag_is_found_again
        (html base sc : str) (results : list (node * str * str))
        (a : node) (url title : str) :
  find_gpx_links html base = Return results ->
  In (a, url, title) results ->
  exists soup q container,
    BeautifulSoup html = Return soup
    /\ Bs4.node_at soup q = Some container
    /\ (same_anchor a container
        \/ Bs4.is_tag_named (txt "p") container = true)
    /\ insert_shortcode_into_html html a sc
       = bind (BeautifulSoup sc)
              (fun sc_node =>
                 Return (decode (Bs4.insert_before soup q sc_node))).
Proof.
  intros Hres Hin.
  destruct (find_gpx_links_return _ _ _ Hres) as (soup & Hsoup & Hscan).
  apply (scan_membership html base _ _ Hscan) in Hin.
  destruct Hin as [[p Hp] _].
  destruct (splice_hit_somewhere html a sc soup Hsoup)
    as (q & container & Hat & Hwhich & Hres').
  - exists p, a. split; [exact Hp | apply same_anchor_refl].
  - exists soup, q, container. auto.
Qed.

(** X27.  [insert_shortcode_into_html] raises exactly when the parser
    refuses the document, or the document parses, some anchor matches and
    the parser refuses the shortcode; the exception is the parser's. *)
Theorem insert_shortcode_raises_iff (html : str) (link_tag : node)
        (sc : str) (e : exn) :
  insert_shortcode_into_html html link_tag sc = Raise e
  <-> BeautifulSoup html = Raise e
      \/ exists soup,
           BeautifulSoup html = Return soup
           /\ (exists p a, In (p, a) (Bs4.find_all_a_href soup)
                           /\ same_anchor link_tag a)
           /\ BeautifulSoup sc = Raise e.
Proof.
  destruct (BeautifulSoup html) as [soup|e0] eqn:Hsoup.
  - destruct (find (fun pn => same_link link_tag (snd pn))
                   (Bs4.find_all_a_href soup)) as [[target a]|] eqn:E.
    + assert (exists p a, In (p, a) (Bs4.find_all_a_href soup)
                          /\ same_anchor link_tag a) as Hex.
      { apply find_some in E. destruct E as [Hin Hs].
        apply same_link_iff in Hs. eauto. }
      destruct (splice_hit_somewhere html link_tag sc soup Hsoup Hex)
        as (q & container & _ & _ & Hres).
      rewrite Hres. split.
      * intros H. right. exists soup. split; [reflexivity|].
        split; [exact Hex|].
        destruct (BeautifulSoup sc) as [s|e1]; [discriminate H|].
        injection H as ->. reflexivity.
      * intros [H | (soup' & _ & _ & H)]; [discriminate H|].
        rewrite H. reflexivity.
    + assert (insert_shortcode_into_html html link_tag sc = Return html)
        as ->.
      { unfold insert_shortcode_into_html. rewrite Hsoup. cbn [bind].
        rewrite E. reflexivity. }
      split; [discriminate|].
      intros [H | (soup' & Hs' & (p & a & Hin & Hs) & _)]; [discriminate H|].
      injection Hs' as <-. apply same_link_iff in Hs.
      pose proof (find_none _ _ E (p, a) Hin) as Hn. simpl in Hn.
      congruence.
  - unfold insert_shortcode_into_html. rewrite Hsoup. cbn [bind]. split.
    + intros H. left. injection H as ->. reflexivity.
    + intros [H | (soup' & H & _)];
        [injection H as ->; reflexivity | discriminate H].
Qed.

End SplicerFacts.

Lemma example_soup :
  @BeautifulSoup reference example_html
  = Return [Tag (txt "p") [] [example_anchor]].
Proof. vm_compute. reflexivity. Qed.

Lemma example_shortcode_soup :
  @BeautifulSoup reference (txt "[osm]")
  = Return [NavigableString (txt "[osm]")].
Proof. vm_compute. reflexivity. Qed.

Lemma example_anchors :
  Bs4.find_all_a_href [Tag (txt "p") [] [example_anchor]]
  = [] ++ ([0; 0], example_anchor) :: [].
Proof. vm_compute. reflexivity. Qed.

(** The reference library writes with the formatter [minimal]. *)
Lemma reference_writes : @writes reference Formatter.minimal.
Proof. intros soup. reflexivity. Qed.

Lemma splice_miss_witness :
  @insert_shortcode_into_html reference example_html
     (Tag (txt "a") [(txt "href", txt "/files/other.gpx")]
          [NavigableString (txt "My Hike")])
     (txt "[osm]")
  = Return example_html.
Proof.
  apply (@splice_miss_returns_input reference _ _ _ _ example_soup).
  intros p a Hin [Hhref _]. rewrite example_anchors in Hin.
  destruct Hin as [E | []]. injection E as _ <-.
  vm_compute in Hhref. discriminate Hhref.
Defined.

Lemma splice_placement_witness :
  exists q,
    insertion_point [Tag (txt "p") [] [example_anchor]] [0; 0] q
    /\ @insert_shortcode_into_html reference example_html example_anchor
         (txt "[osm]")
       = Return (@decode reference
                   (Bs4.insert_before [Tag (txt "p") [] [example_anchor]] q
                                      [NavigableString (txt "[osm]")])).
Proof.
  apply (@splice_goes_before_paragraph_or_anchor reference example_html
           example_anchor (txt "[osm]") _ _ [] [] [0; 0] example_anchor
           example_soup example_shortcode_soup).
  - exact example_anchors.
  - intros p x [].
  - apply same_anchor_refl.
Defined.

Lemma splice_frame_witness :
  exists q container pre post,
    Bs4.node_at [Tag (txt "p") [] [example_anchor]] q = Some container
    /\ (same_anchor example_anchor container
        \/ Bs4.is_tag_named (txt "p") container = true)
    /\ @decode reference [Tag (txt "p") [] [example_anchor]]
       = pre ++ written Formatter.minimal
                  (Bs4.parent_name document_name
                     [Tag (txt "p") [] [example_anchor]] q) container
             ++ post
    /\ @insert_shortcode_into_html reference example_html example_anchor
         (txt "[osm]")
       = Return (pre
                 ++ written_all Formatter.minimal
                      (Bs4.parent_name document_name
                         [Tag (txt "p") [] [example_anchor]] q)
                      [NavigableString (txt "[osm]")]
                 ++ written Formatter.minimal
                      (Bs4.parent_name document_name
                         [Tag (txt "p") [] [example_anchor]] q) container
                 ++ post).
Proof.
  apply (@splice_frame reference Formatter.minimal example_html
           example_anchor (txt "[osm]") _ _ reference_writes example_soup
           example_shortcode_soup).
  exists [0; 0], example_anchor. split.
  - rewrite example_anchors. left. reflexivity.
  - apply same_anchor_refl.
Defined.

Lemma emitted_tag_witness :
  exists soup q container,
    @BeautifulSoup reference example_html = Return soup
    /\ Bs4.node_at soup q = Some container
    /\ (same_anchor example_anchor container
        \/ Bs4.is_tag_named (txt "p") container = true)
    /\ @insert_shortcode_into_html reference example_html example_anchor
         (txt "[osm]")
       = bind (@BeautifulSoup reference (txt "[osm]"))
              (fun sc_node =>
                 Return (@decode reference
                           (Bs4.insert_before soup q sc_node))).
Proof.
  apply (@emitted_tag_is_found_again reference example_html example_base
           (txt "[osm]")
           [(example_anchor, txt "https://example.com/files/track.gpx",
             txt "My Hike")]
           example_anchor (txt "https://example.com/files/track.gpx")
           (txt "My Hike")).
  - exact find_gpx_links_example.
  - left. reflexivity.
Defined.

(** ** main: the API base *)

Lemma repeat_snoc (c : ascii) (k : nat) :
  repeat c (S k) = repeat c k ++ [c].
Proof.
  induction k as [|k IH]; [reflexivity|].
  simpl in *. f_equal. exact IH.
Qed.

Lemma rstrip_fixed (c : ascii) (s : str) :
  (forall t, s <> t ++ [c]) -> PyStr.rstrip c s = s.
Proof.
  intros H. destruct (rstrip_spec c s) as (k & Hk & _).
  destruct k as [|k].
  - simpl in Hk. rewrite app_nil_r in Hk. symmetry. exact Hk.
  - exfalso. rewrite repeat_snoc, app_assoc in Hk. exact (H _ Hk).
Qed.

Lemma rstrip_idempotent (c : ascii) (s : str) :
  PyStr.rstrip c (PyStr.rstrip c s) = PyStr.rstrip c s.
Proof.
  apply rstrip_fixed. destruct (rstrip_spec c s) as (k & _ & H). exact H.
Qed.

(** X15.  Without [--api-base] (or with an empty one) the API base is the
    site followed by [/wp-json], whether or not the site was given with
    that suffix. *)
Theorem api_base_is_site_wp_json (site_arg : str) (api_base : option str) :
  api_base = None \/ api_base = Some [] ->
  snd (api_endpoints site_arg api_base)
  = fst (api_endpoints site_arg api_base) ++ txt "/wp-json".
Proof.
  intros H. unfold api_endpoints.
  assert (forall site,
             snd (if PyStr.endswith site (txt "/wp-json")
                  then (firstn (length site - length (txt "/wp-json")) site,
                        site)
                  else (site, site ++ txt "/wp-json"))
             = fst (if PyStr.endswith site (txt "/wp-json")
                    then (firstn (length site - length (txt "/wp-json")) site,
                          site)
                    else (site, site ++ txt "/wp-json")) ++ txt "/wp-json")
    as Hd.
  { intros site. destruct (PyStr.endswith site (txt "/wp-json")) eqn:E;
      [|reflexivity].
    apply endswith_iff in E. destruct E as [t ->]. cbn [fst snd].
    rewrite length_app, Nat.add_sub, firstn_length_app. reflexivity. }
  destruct H as [-> | ->]; apply Hd.
Qed.

(** X16.  In every case the API base has no trailing slash, so the
    [rstrip('/')] of [get_posts] and [update_post] leaves it as it is. *)
Theorem api_base_has_no_trailing_slash (site_arg : str)
        (api_base : option str) :
  PyStr.rstrip "/" (snd (api_endpoints site_arg api_base))
  = snd (api_endpoints site_arg api_base).
Proof.
  unfold api_endpoints.
  assert (forall site,
             PyStr.rstrip "/" site = site ->
             let r := if PyStr.endswith site (txt "/wp-json")
                      then (firstn (length site - length (txt "/wp-json"))
                                   site, site)
                      else (site, site ++ txt "/wp-json") in
             PyStr.rstrip "/" (snd r) = snd r) as Hd.
  { intros site Hs. destruct (PyStr.endswith site (txt "/wp-json"));
      cbn [snd]; [exact Hs|].
    change (site ++ txt "/wp-json")
      with (site ++ txt "/wp-jso" ++ ["n"%char]).
    rewrite app_assoc. apply rstrip_other. discriminate. }
  destruct api_base as [b|].
  - destruct (nonempty b); cbn [snd].
    + apply rstrip_idempotent.
    + apply Hd. apply rstrip_idempotent.
  - apply Hd. apply rstrip_idempotent.
Qed.

Lemma api_base_witness :
  snd (api_endpoints (txt "https://example.com/wp-json/") None)
  = fst (api_endpoints (txt "https://example.com/wp-json/") None)
    ++ txt "/wp-json".
Proof.
  apply api_base_is_site_wp_json. left. reflexivity.
Defined.

(** ** main: the loop over the posts *)

Section PipelineFacts.
Context {L : Library}.

(** The file URLs [find_gpx_links] returns were parsed by [urlparse]. *)
Lemma emitted_url_parses (html base : str)
      (results : list (node * str * str)) (a : node) (url title : str) :
  find_gpx_links html base = Return results ->
  In (a, url, title) results ->
  exists parsed, urlparse url = Return parsed.
Proof.
  intros Hres Hin.
  destruct (find_gpx_links_return _ _ _ Hres) as (soup & _ & Hscan).
  apply (scan_membership html base _ _ Hscan) in Hin.
  destruct Hin as [_ (href & parsed & idx & m & _ & _ & Hp & _)].
  eauto.
Qed.

Lemma insert_raises_what_the_parser_raised (html : str) (link_tag : node)
      (sc : str) (e : exn) :
  insert_shortcode_into_html html link_tag sc = Raise e ->
  BeautifulSoup html = Raise e \/ BeautifulSoup sc = Raise e.
Proof.
  unfold insert_shortcode_into_html.
  destruct (BeautifulSoup html) as [soup|e0]; cbn [bind].
  - destruct (find (fun pn => same_link link_tag (snd pn))
                   (Bs4.find_all_a_href soup)) as [[target a]|];
      [|discriminate].
    destruct (BeautifulSoup sc) as [sc_soup|e1]; cbn [bind];
      [discriminate|].
    intros H. injection H as ->. right. reflexivity.
  - intros H. injection H as ->. left. reflexivity.
Qed.

(** The splices raise only what the parser raises, when every URL
    parses. *)
Lemma splice_all_outcome (purl : str) (matches : list (node * str * str)) :
  (exists p, urlparse purl = Return p) ->
  (forall a url title, In (a, url, title) matches ->
                       exists f, urlparse url = Return f) ->
  forall content,
    (exists new, splice_all purl content matches = Return new)
    \/ exists e text, splice_all purl content matches = Raise e
                      /\ BeautifulSoup text = Raise e.
Proof.
  intros [p Hp] Hall. induction matches as [|[[a url] title] rest IH];
    intros content.
  - left. exists content. reflexivity.
  - cbn [splice_all].
    destruct (Hall a url title (or_introl eq_refl)) as [f Hf].
    assert (exists relpath, compute_relative_path url purl = Return relpath)
      as [relpath ->].
    { unfold compute_relative_path. rewrite Hf, Hp. cbn [bind].
      destruct (negb (PyStr.eqb (netloc f) (netloc p))); eauto. }
    cbn [bind].
    destruct (insert_shortcode_into_html content a
                (shortcode relpath title)) as [new|e] eqn:Ei; cbn [bind].
    + apply IH. intros a' u' t' Hin. apply (Hall a' u' t'). right. exact Hin.
    + right. exists e.
      destruct (insert_raises_what_the_parser_raised _ _ _ _ Ei); eauto.
Qed.

(** X17.  When the URL of the post parses, splicing the matches that
    [find_gpx_links] found returns, or raises what the parser raised on
    a document or a shortcode: the file URLs [find_gpx_links] returns
    have been parsed before, so [compute_relative_path] does not raise. *)
Theorem splicing_raises_only_what_the_parser_raises
        (content site purl : str) (matches : list (node * str * str))
        (p : ParseResult) :
  find_gpx_links content site = Return matches ->
  urlparse purl = Return p ->
  (exists new, splice_all purl content matches = Return new)
  \/ exists e text, splice_all purl content matches = Raise e
                    /\ BeautifulSoup text = Raise e.
Proof.
  intros Hres Hp. apply splice_all_outcome; [eauto|].
  intros a url title Hin. exact (emitted_url_parses _ _ _ _ _ _ Hres Hin).
Qed.

Lemma limit_reached_bound (limit : option Z) (n : nat) (l : Z) :
  limit = Some l -> (0 < l)%Z -> limit_reached limit n = false ->
  (Z.of_nat (S n) <= l)%Z.
Proof.
  intros -> Hl H. unfold limit_reached in H.
  apply andb_false_iff in H. destruct H as [H | H].
  - apply negb_false_iff, Z.eqb_eq in H. lia.
  - apply Z.leb_gt in H. lia.
Qed.

Lemma main_loop_bounds (limit : option Z) (auth : bool) (site : str)
      (posts : list Post) :
  forall n ups n' ups',
    main_loop limit auth site posts n ups = Return (n', ups') ->
    n <= n' /\ n' <= n + length posts
    /\ length ups' + n <= length ups + n'
    /\ length ups <= length ups'
    /\ (forall l, limit = Some l -> (0 < l)%Z -> (Z.of_nat n <= l)%Z ->
                  (Z.of_nat n' <= l)%Z).
Proof.
  induction posts as [|post rest IH]; intros n ups n' ups' H.
  - injection H as <- <-. simpl. repeat split; try lia; auto.
  - cbn [main_loop] in H.
    destruct (limit_reached limit n) eqn:El.
    + injection H as <- <-. simpl. repeat split; try lia; auto.
    + destruct (find_gpx_links (content_of auth post) site)
        as [[|m ms]|e]; cbn [bind] in H; [| |discriminate].
      * destruct (IH _ _ _ _ H) as (H1 & H2 & H3 & H4 & H5).
        simpl. repeat split; try lia; exact H5.
      * destruct (splice_all (post_url site post) (content_of auth post)
                             (m :: ms)) as [new|e]; cbn [bind] in H;
          [|discriminate].
        destruct (IH _ _ _ _ H) as (H1 & H2 & H3 & H4 & H5).
        assert (length ups
                <= length (if negb (PyStr.eqb new (content_of auth post))
                           then ups ++ [{| update_post_id := post_id post;
                                           update_title := post_title post;
                                           update_old := content_of auth post;
                                           update_new := new |}]
                           else ups)
                <= S (length ups)) as Hu.
        { destruct (negb (PyStr.eqb new (content_of auth post)));
            [rewrite length_app; simpl; lia | lia]. }
        simpl. repeat split; try lia.
        intros l Hl Hpos Hn. apply (H5 l Hl Hpos).
        exact (limit_reached_bound _ _ _ Hl Hpos El).
Qed.

(** X18.  The summary of [main]: no more posts are to be updated than were
    processed, no more were processed than there are posts, and with a
    positive [--limit] no more than the limit. *)
Theorem summary_bounds (limit : option Z) (auth : bool) (site : str)
        (posts : list Post) (processed : nat) (updates : list Update) :
  main_loop limit auth site posts 0 [] = Return (processed, updates) ->
  length updates <= processed
  /\ processed <= length posts
  /\ (forall l, limit = Some l -> (0 < l)%Z -> (Z.of_nat processed <= l)%Z).
Proof.
  intros H. destruct (main_loop_bounds _ _ _ _ _ _ _ _ H)
    as (H1 & H2 & H3 & H4 & H5).
  simpl in *. repeat split; try lia.
  intros l Hl Hpos. apply (H5 l Hl Hpos). lia.
Qed.

Lemma main_loop_updates (limit : option Z) (auth : bool) (site : str)
      (posts : list Post) :
  forall n ups n' ups',
    main_loop limit auth site posts n ups = Return (n', ups') ->
    forall u, In u ups' ->
      In u ups
      \/ exists post matches,
           In post posts
           /\ update_post_id u = post_id post
           /\ update_title u = post_title post
           /\ update_old u = content_of auth post
           /\ find_gpx_links (content_of auth post) site = Return matches
           /\ matches <> []
           /\ splice_all (post_url site post) (content_of auth post) matches
              = Return (update_new u)
           /\ update_new u <> update_old u.
Proof.
  induction posts as [|post rest IH]; intros n ups n' ups' H u Hu.
  - injection H as <- <-. left. exact Hu.
  - cbn [main_loop] in H.
    destruct (limit_reached limit n).
    + injection H as <- <-. left. exact Hu.
    + destruct (find_gpx_links (content_of auth post) site)
        as [[|m ms]|e] eqn:Ef; cbn [bind] in H; [| |discriminate].
      * destruct (IH _ _ _ _ H u Hu) as [Hin | (p' & ms' & Hp & Hrest)];
          [left; exact Hin|].
        right. exists p', ms'. split; [right; exact Hp | exact Hrest].
      * destruct (splice_all (post_url site post) (content_of auth post)
                             (m :: ms)) as [new|e] eqn:Es; cbn [bind] in H;
          [|discriminate].
        destruct (IH _ _ _ _ H u Hu) as [Hin | (p' & ms' & Hp & Hrest)].
        -- destruct (PyStr.eqb new (content_of auth post)) eqn:Ee;
             cbn [negb] in Hin; [left; exact Hin|].
           apply in_app_or in Hin. destruct Hin as [Hin | [<- | []]];
             [left; exact Hin|].
           right. exists post, (m :: ms). cbn.
           split; [left; reflexivity|]. repeat split; try assumption.
           ++ discriminate.
           ++ apply str_eqb_neq. exact Ee.
        -- right. exists p', ms'. split; [right; exact Hp | exact Hrest].
Qed.

(** X19.  Every entry of [updates] comes from a post of the list in which
    [find_gpx_links] found at least one link; its old text is the content
    read from the post, its new text is the result of the splices, and the
    two differ. *)
Theorem updates_are_changed_posts (limit : option Z) (auth : bool)
        (site : str) (posts : list Post) (processed : nat)
        (updates : list Update) (u : Update) :
  main_loop limit auth site posts 0 [] = Return (processed, updates) ->
  In u updates ->
  exists post matches,
    In post posts
    /\ update_post_id u = post_id post
    /\ update_title u = post_title post
    /\ update_old u = content_of auth post
    /\ find_gpx_links (content_of auth post) site = Return matches
    /\ matches <> []
    /\ splice_all (post_url site post) (content_of auth post) matches
       = Return (update_new u)
    /\ update_new u <> update_old u.
Proof.
  intros H Hu.
  destruct (main_loop_updates _ _ _ _ _ _ _ _ H u Hu) as [[] | Hex].
  exact Hex.
Qed.

(** X20.  Posts in which no link is found are neither counted nor
    updated: over such posts the loop leaves its state as it was. *)
Theorem posts_without_links_are_skipped (limit : option Z) (auth : bool)
        (site : str) (posts : list Post) (n : nat) (ups : list Update) :
  (forall post, In post posts ->
                find_gpx_links (content_of auth post) site = Return []) ->
  main_loop limit auth site posts n ups = Return (n, ups).
Proof.
  induction posts as [|post rest IH]; intros H; [reflexivity|].
  cbn [main_loop]. destruct (limit_reached limit n); [reflexivity|].
  rewrite (H post (or_introl eq_refl)). cbn [bind].
  apply IH. intros p Hp. apply H. right. exact Hp.
Qed.

End PipelineFacts.

Lemma splicing_outcome_witness :
  (exists new,
      @splice_all reference (txt "https://example.com/2020/05/01/post/")
         example_html
         [(example_anchor, txt "https://example.com/files/track.gpx",
           txt "My Hike")]
      = Return new)
  \/ exists e text,
       @splice_all reference (txt "https://example.com/2020/05/01/post/")
          example_html
          [(example_anchor, txt "https://example.com/files/track.gpx",
            txt "My Hike")]
       = Raise e
       /\ @BeautifulSoup reference text = Raise e.
Proof.
  apply (@splicing_raises_only_what_the_parser_raises reference example_html
           example_base (txt "https://example.com/2020/05/01/post/") _
           {| netloc := txt "example.com"; path := txt "/2020/05/01/post/" |}).
  - exact find_gpx_links_example.
  - vm_compute. reflexivity.
Defined.

(** A link that is found and whose shortcode the parser refuses: the
    href holds a marked section of an unknown kind, which is text within
    the quotes of the attribute and markup within the shortcode. *)
Lemma refused_shortcode_example :
  (exists a,
      @find_gpx_links reference rejecting_html example_base
      = Return [(a, txt "https://example.com/<![x]>.gpx", txt "t")]
      /\ @splice_all reference (txt "https://example.com/") rejecting_html
           [(a, txt "https://example.com/<![x]>.gpx", txt "t")]
         = Raise ParserRejectedMarkup)
  /\ @find_gpx_links reference (txt "<![x]>") example_base
     = Raise ParserRejectedMarkup.
Proof.
  split; [eexists; split|]; vm_compute; reflexivity.
Qed.

Lemma summary_bounds_witness :
  exists processed updates,
    @main_loop reference (Some 1%Z) true example_base
       [example_post; plain_post; example_post] 0 []
    = Return (processed, updates)
    /\ (length updates <= processed
        /\ processed <= length [example_post; plain_post; example_post]
        /\ (forall l, Some 1%Z = Some l -> (0 < l)%Z ->
                      (Z.of_nat processed <= l)%Z)).
Proof.
  eexists. eexists. split.
  - vm_compute. reflexivity.
  - apply (@summary_bounds reference (Some 1%Z) true example_base
             [example_post; plain_post; example_post]).
    vm_compute. reflexivity.
Defined.

Lemma updates_witness :
  exists post matches,
    In post [example_post]
    /\ 7 = post_id post
    /\ txt "Hike" = post_title post
    /\ example_html = @content_of true post
    /\ @find_gpx_links reference (content_of true post) example_base
       = Return matches
    /\ matches <> []
    /\ @splice_all reference (post_url example_base post)
         (content_of true post) matches
       = Return
           (shortcode (txt "../../../../files/track.gpx") (txt "My Hike")
            ++ example_html)
    /\ shortcode (txt "../../../../files/track.gpx") (txt "My Hike")
       ++ example_html <> example_html.
Proof.
  apply (@updates_are_changed_posts reference None true example_base
           [example_post] 1
           [{| update_post_id := 7; update_title := txt "Hike";
               update_old := example_html;
               update_new :=
                 shortcode (txt "../../../../files/track.gpx")
                           (txt "My Hike") ++ example_html |}]
           {| update_post_id := 7; update_title := txt "Hike";
              update_old := example_html;
              update_new :=
                shortcode (txt "../../../../files/track.gpx")
                          (txt "My Hike") ++ example_html |}).
  - vm_compute. reflexivity.
  - left. reflexivity.
Defined.

Lemma skipped_posts_witness :
  @main_loop reference None true example_base [plain_post; plain_post] 0 []
  = Return (0, []).
Proof.
  apply (@posts_without_links_are_skipped reference).
  intros post [<- | [<- | []]]; vm_compute; reflexivity.
Defined.

(** ** get_posts *)

Lemma pages_cons (sg : nat -> option Response) (first n : nat)
      (resp : Response) :
  sg first = Some resp ->
  pages sg first (S n) = json resp ++ pages sg (S first) n.
Proof.
  intros H. unfold pages. cbn [seq flat_map]. rewrite H. reflexivity.
Qed.

(** Over pages on which the loop goes on, the generator yields them and
    goes on with what is left of the fuel. *)
Lemma get_posts_from_goes_on (sg : nat -> option Response)
      (per_page : nat) :
  forall n fuel first,
    (forall k, first <= k < first + n -> goes_on sg per_page k) ->
    n <= fuel ->
    get_posts_from sg per_page fuel first
    = (pages sg first n
       ++ fst (get_posts_from sg per_page (fuel - n) (first + n)),
       snd (get_posts_from sg per_page (fuel - n) (first + n))).
Proof.
  induction n as [|n IH]; intros fuel first Hgo Hfuel.
  - rewrite Nat.sub_0_r, Nat.add_0_r.
    destruct (get_posts_from sg per_page fuel first). reflexivity.
  - destruct fuel as [|fuel]; [lia|].
    destruct (Hgo first ltac:(lia)) as (resp & Es & H404 & Herr & Hj & Hstop).
    cbn [get_posts_from]. rewrite Es.
    apply Nat.eqb_neq in H404. rewrite H404, Herr.
    rewrite (pages_cons _ _ _ _ Es).
    destruct (json resp) as [|it its] eqn:Ej; [contradiction|].
    assert (match total_pages resp with
            | Some total => (total <=? Z.of_nat first)%Z
            | None => length (it :: its) <? per_page
            end = false) as ->.
    { destruct (total_pages resp) as [total|].
      - apply Z.leb_gt. exact Hstop.
      - apply Nat.ltb_ge. exact Hstop. }
    rewrite (IH fuel (S first)) by (try lia; intros k Hk; apply Hgo; lia).
    replace (S first + n) with (first + S n) by lia.
    cbn [Nat.sub]. rewrite <- app_assoc. reflexivity.
Qed.

(** X21.  A page that is not found, or that holds nothing, ends the
    generator without an exception: when the loop goes on over the pages
    1 to [n] and page [n + 1] answers 404 or with an empty list, the
    generator yields the posts of those [n] pages, in order, and
    returns. *)
Theorem get_posts_ends_at_missing_page
        (sg : nat -> option Response) (per_page fuel n : nat) :
  n < fuel ->
  (forall k, 1 <= k <= n -> goes_on sg per_page k) ->
  (exists resp,
      sg (S n) = Some resp
      /\ (status_code resp = 404
          \/ is_error (status_code resp) = false /\ json resp = [])) ->
  get_posts sg per_page fuel = (pages sg 1 n, Exhausted).
Proof.
  intros Hfuel Hgo (resp & Es & Hend). unfold get_posts.
  rewrite (get_posts_from_goes_on sg per_page n fuel 1)
    by (try lia; intros k Hk; apply Hgo; lia).
  destruct (fuel - n) as [|left_] eqn:El; [lia|].
  cbn [get_posts_from Nat.add]. rewrite Es.
  destruct Hend as [H404 | [Herr Hj]].
  - rewrite H404. cbn [Nat.eqb fst snd]. rewrite app_nil_r. reflexivity.
  - destruct (status_code resp =? 404);
      [cbn [fst snd]; rewrite app_nil_r; reflexivity|].
    rewrite Herr, Hj. cbn [fst snd]. rewrite app_nil_r. reflexivity.
Qed.

(** X28.  An error comes after what was yielded before it: when the loop
    goes on over the pages 1 to [n] and the request for page [n + 1]
    raises, or is answered with an error status other than 404, the
    generator yields the posts of those [n] pages and then the exception
    leaves it. *)
Theorem get_posts_fails_after_yielding
        (sg : nat -> option Response) (per_page fuel n : nat) :
  n < fuel ->
  (forall k, 1 <= k <= n -> goes_on sg per_page k) ->
  (sg (S n) = None
   \/ exists resp, sg (S n) = Some resp
                   /\ status_code resp <> 404
                   /\ is_error (status_code resp) = true) ->
  get_posts sg per_page fuel = (pages sg 1 n, Failed).
Proof.
  intros Hfuel Hgo Hend. unfold get_posts.
  rewrite (get_posts_from_goes_on sg per_page n fuel 1)
    by (try lia; intros k Hk; apply Hgo; lia).
  destruct (fuel - n) as [|left_] eqn:El; [lia|].
  cbn [get_posts_from Nat.add].
  destruct Hend as [Es | (resp & Es & H404 & Herr)]; rewrite Es.
  - cbn [fst snd]. rewrite app_nil_r. reflexivity.
  - apply Nat.eqb_neq in H404. rewrite H404, Herr.
    cbn [fst snd]. rewrite app_nil_r. reflexivity.
Qed.

Lemma get_posts_from_total (sg : nat -> option Response)
      (per_page total : nat) :
  (forall k, 1 <= k <= total ->
             exists resp, sg k = Some resp
                          /\ status_code resp <> 404
                          /\ is_error (status_code resp) = false
                          /\ json resp <> []
                          /\ total_pages resp = Some (Z.of_nat total)) ->
  forall left_ fuel page,
    1 <= page -> page + left_ = S total -> left_ <= fuel -> 0 < left_ ->
    get_posts_from sg per_page fuel page = (pages sg page left_, Exhausted).
Proof.
  intros Hpages. induction left_ as [|left_ IH];
    intros fuel page Hp Hsum Hfuel Hpos; [lia|].
  destruct fuel as [|fuel]; [lia|].
  destruct (Hpages page ltac:(lia)) as (resp & Es & H404 & Herr & Hj & Ht).
  cbn [get_posts_from]. rewrite Es.
  apply Nat.eqb_neq in H404. rewrite H404, Herr, Ht.
  rewrite (pages_cons _ _ _ _ Es).
  destruct (json resp) as [|it its]; [contradiction|].
  destruct left_ as [|left_].
  - replace (Z.of_nat total <=? Z.of_nat page)%Z with true
      by (symmetry; apply Z.leb_le; lia).
    unfold pages. simpl. rewrite app_nil_r. reflexivity.
  - replace (Z.of_nat total <=? Z.of_nat page)%Z with false
      by (symmetry; apply Z.leb_gt; lia).
    rewrite (IH fuel (S page)) by lia. reflexivity.
Qed.

(** X22.  When the pages 1 to [total] are served without error, none
    empty, each with the header [X-WP-TotalPages] equal to [total], the
    generator yields those pages and returns; it asks for no page beyond
    [total], whatever the size of the pages. *)
Theorem get_posts_stops_at_total_pages
        (sg : nat -> option Response) (per_page fuel total : nat) :
  1 <= total <= fuel ->
  (forall k, 1 <= k <= total ->
             exists resp, sg k = Some resp
                          /\ status_code resp <> 404
                          /\ is_error (status_code resp) = false
                          /\ json resp <> []
                          /\ total_pages resp = Some (Z.of_nat total)) ->
  get_posts sg per_page fuel = (pages sg 1 total, Exhausted).
Proof.
  intros Ht Hpages. unfold get_posts.
  apply (get_posts_from_total sg per_page total Hpages total fuel 1); lia.
Qed.

Lemma get_posts_from_short_page (sg : nat -> option Response)
      (per_page last : nat) :
  (forall k, 1 <= k <= last ->
             exists resp, sg k = Some resp
                          /\ status_code resp <> 404
                          /\ is_error (status_code resp) = false
                          /\ json resp <> []
                          /\ total_pages resp = None
                          /\ (length (json resp) < per_page <-> k = last)) ->
  forall left_ fuel page,
    1 <= page -> page + left_ = S last -> left_ <= fuel -> 0 < left_ ->
    get_posts_from sg per_page fuel page = (pages sg page left_, Exhausted).
Proof.
  intros Hpages. induction left_ as [|left_ IH];
    intros fuel page Hp Hsum Hfuel Hpos; [lia|].
  destruct fuel as [|fuel]; [lia|].
  destruct (Hpages page ltac:(lia))
    as (resp & Es & H404 & Herr & Hj & Ht & Hshort).
  cbn [get_posts_from]. rewrite Es.
  apply Nat.eqb_neq in H404. rewrite H404, Herr, Ht.
  rewrite (pages_cons _ _ _ _ Es).
  destruct (json resp) as [|it its] eqn:Ej; [contradiction|].
  destruct left_ as [|left_].
  - replace (length (it :: its) <? per_page) with true
      by (symmetry; apply Nat.ltb_lt; apply Hshort; lia).
    unfold pages. simpl. rewrite app_nil_r. reflexivity.
  - replace (length (it :: its) <? per_page) with false
      by (symmetry; apply Nat.ltb_ge;
          destruct (Nat.lt_ge_cases (length (it :: its)) per_page) as [Hlt|Hge];
          [apply Hshort in Hlt; lia | exact Hge]).
    rewrite (IH fuel (S page)) by lia. reflexivity.
Qed.

(** X23.  Without the header the generator stops after the first page
    that holds fewer than [per_page] posts: when the pages 1 to [last] are
    served without error and without header, none empty, and page [last]
    is the first short one, it yields those pages and returns. *)
Theorem get_posts_stops_at_short_page
        (sg : nat -> option Response) (per_page fuel last : nat) :
  1 <= last <= fuel ->
  (forall k, 1 <= k <= last ->
             exists resp, sg k = Some resp
                          /\ status_code resp <> 404
                          /\ is_error (status_code resp) = false
                          /\ json resp <> []
                          /\ total_pages resp = None
                          /\ (length (json resp) < per_page <-> k = last)) ->
  get_posts sg per_page fuel = (pages sg 1 last, Exhausted).
Proof.
  intros Ht Hpages. unfold get_posts.
  apply (get_posts_from_short_page sg per_page last Hpages last fuel 1); lia.
Qed.

Lemma first_page_goes_on (sg : nat -> option Response) :
  sg 1 = Some {| status_code := 200; json := [example_post; plain_post];
                 total_pages := None |} ->
  forall k, 1 <= k <= 1 -> goes_on sg 2 k.
Proof.
  intros H k Hk. assert (k = 1) as -> by lia.
  eexists. split; [exact H|]. simpl.
  repeat split; try discriminate; lia.
Qed.

Lemma missing_page_witness :
  get_posts vanishing_server 2 5 = (pages vanishing_server 1 1, Exhausted).
Proof.
  apply (get_posts_ends_at_missing_page vanishing_server 2 5 1).
  - lia.
  - apply first_page_goes_on. reflexivity.
  - eexists. split; [reflexivity|]. left. reflexivity.
Defined.

Lemma failing_page_witness :
  get_posts failing_server 2 5 = (pages failing_server 1 1, Failed).
Proof.
  apply (get_posts_fails_after_yielding failing_server 2 5 1).
  - lia.
  - apply first_page_goes_on. reflexivity.
  - right. eexists. split; [reflexivity|]. split; [discriminate|].
    reflexivity.
Defined.

Lemma total_pages_witness :
  get_posts example_server 50 5 = (pages example_server 1 2, Exhausted).
Proof.
  apply (get_posts_stops_at_total_pages example_server 50 5 2).
  - lia.
  - intros k Hk. assert (k = 1 \/ k = 2) as [-> | ->] by lia.
    + eexists. split; [reflexivity|]. simpl.
      repeat split; discriminate.
    + eexists. split; [reflexivity|]. simpl.
      repeat split; discriminate.
Defined.

Lemma short_page_witness :
  get_posts headerless_server 2 5 = (pages headerless_server 1 2, Exhausted).
Proof.
  apply (get_posts_stops_at_short_page headerless_server 2 5 2).
  - lia.
  - intros k Hk. assert (k = 1 \/ k = 2) as [-> | ->] by lia.
    + eexists. split; [reflexivity|]. simpl.
      repeat split; try discriminate; lia.
    + eexists. split; [reflexivity|]. simpl.
      repeat split; try discriminate; lia.
Defined.

(** ** main: the limit and the composition of splices *)

Section LimitFacts.
Context {L : Library}.

Lemma main_loop_same_limit (limit limit' : option Z) (auth : bool)
      (site : str) (posts : list Post) :
  (forall n, limit_reached limit n = limit_reached limit' n) ->
  forall n ups,
    main_loop limit auth site posts n ups
    = main_loop limit' auth site posts n ups.
Proof.
  intros Hsame. induction posts as [|post rest IH]; intros n ups;
    [reflexivity|].
  cbn [main_loop]. rewrite Hsame.
  destruct (limit_reached limit' n); [reflexivity|].
  destruct (find_gpx_links (content_of auth post) site) as [[|m ms]|e];
    cbn [bind]; [apply IH | | reflexivity].
  destruct (splice_all (post_url site post) (content_of auth post) (m :: ms));
    cbn [bind]; [apply IH | reflexivity].
Qed.

(** X24.  [--limit 0] is no limit: the loop runs as without the option.
    A negative limit stops the loop at the first post, before anything is
    read from it. *)
Theorem limit_zero_and_negative (auth : bool) (site : str)
        (posts : list Post) (n : nat) (ups : list Update) :
  main_loop (Some 0%Z) auth site posts n ups
  = main_loop None auth site posts n ups
  /\ forall l, (l < 0)%Z ->
               main_loop (Some l) auth site posts n ups = Return (n, ups).
Proof.
  split.
  - apply main_loop_same_limit. intros k. reflexivity.
  - intros l Hl. destruct posts as [|post rest]; [reflexivity|].
    cbn [main_loop]. unfold limit_reached.
    replace (l =? 0)%Z with false by (symmetry; apply Z.eqb_neq; lia).
    replace (l <=? Z.of_nat n)%Z with true by (symmetry; apply Z.leb_le; lia).
    reflexivity.
Qed.

(** X25.  Splicing a list of matches is splicing its first part and then
    the rest into what that gave: every splice works on the result of the
    ones before it. *)
Theorem splice_all_app (purl content : str)
        (first rest : list (node * str * str)) :
  splice_all purl content (first ++ rest)
  = bind (splice_all purl content first)
         (fun new => splice_all purl new rest).
Proof.
  revert content. induction first as [|[[a url] title] first IH];
    intros content; [reflexivity|].
  cbn [app splice_all].
  destruct (compute_relative_path url purl) as [relpath|e]; cbn [bind];
    [|reflexivity].
  destruct (insert_shortcode_into_html content a (shortcode relpath title))
    as [new|e]; cbn [bind]; [apply IH | reflexivity].
Qed.

End LimitFacts.

Lemma limit_witness :
  @main_loop reference (Some 0%Z) true example_base [example_post] 0 []
  = @main_loop reference None true example_base [example_post] 0 []
  /\ @main_loop reference (Some (-1)%Z) true example_base [example_post] 0 []
     = Return (0, []).
Proof.
  destruct (@limit_zero_and_negative reference true example_base
              [example_post] 0 []) as [H0 Hneg].
  split; [exact H0 | apply Hneg; lia].
Defined.

(** ** What find_gpx_links emits *)

Section EmittedMatches.
Context {L : Library}.

(** What is emitted has passed the checks of the loop. *)
Lemma emitted_is_detected (html base : str)
      (results : list (node * str * str)) (a : node) (url title : str) :
  find_gpx_links html base = Return results ->
  In (a, url, title) results ->
  detected html base a url title.
Proof.
  intros Hres Hin.
  destruct (find_gpx_links_return _ _ _ Hres) as (soup & _ & Hscan).
  apply (scan_membership html base _ _ Hscan) in Hin. tauto.
Qed.

Lemma guarded_no_newline (html : str) (idx : nat) (m : str) :
  alone_on_line html idx m = true -> ~ In newline m.
Proof.
  intros Hguard. apply guard_isolated in Hguard.
  destruct Hguard as (ws1 & p & m' & c & ws2 & Hline & _ & _ & Hci & _).
  apply (ci_eq_no_newline m' m Hci). intros Hin.
  apply (line_of_no_newline html idx). rewrite Hline.
  apply in_or_app. right. apply in_or_app. right.
  apply in_or_app. left. exact Hin.
Qed.

Lemma match_within_line (html href text : str) (idx : nat) (m : str) :
  locate html href text = Some (idx, m) ->
  ~ In newline m ->
  exists before after, line_of html idx = before ++ m ++ after.
Proof.
  intros Hloc Hm.
  destruct (locate_sound _ _ _ _ _ Hloc) as (pre & post & E & Hl & _).
  destruct (line_of_spec html idx) as (pre' & a & b & post' & Hf & Hs & Hline
                                       & _ & _ & _ & Hpost).
  assert (skipn idx html = m ++ post) as Hs'
      by (rewrite E, <- Hl, skipn_length_app; reflexivity).
  rewrite Hs' in Hs.
  destruct (prefix_before_newline m post b post' Hs Hm Hpost) as [t ->].
  exists a, t. exact Hline.
Qed.

Lemma guard_on_line (doc : str) (i : nat) (line m : str) (b : bool) :
  line_of doc i = line ->
  (match Re.match_ IGNORECASE (line_pattern m) line with
   | Some _ => true
   | None => false
   end) = b ->
  alone_on_line doc i m = b.
Proof. intros Hl Hb. unfold alone_on_line. rewrite Hl. exact Hb. Qed.

(** C1, as the program has it.  A match is emitted only if the line of
    its first character is, up to the case of letters, the matched text
    with white space only around it, at most an opening tag [<p...>] and
    white space before it and white space and [</p>] after it.  The line
    [<p><a href="x">t</a></p>] passes the guard; the line
    [prefix <a href="x">t</a> suffix] fails it. *)
Theorem emitted_match_is_alone_on_its_line
        (html base : str) (results : list (node * str * str))
        (a : node) (url title : str) :
  find_gpx_links html base = Return results ->
  In (a, url, title) results ->
  (exists href idx m,
      Bs4.tag_get a (txt "href") = Some href
      /\ locate html href title = Some (idx, m)
      /\ isolated (line_of html idx) m)
  /\ (forall doc i, line_of doc i = wrapped_line ->
                    alone_on_line doc i bare_anchor = true)
  /\ (forall doc i, line_of doc i = crowded_line ->
                    alone_on_line doc i bare_anchor = false).
Proof.
  intros Hres Hin. split; [|split].
  - destruct (emitted_is_detected _ _ _ _ _ _ Hres Hin)
      as (href & parsed & idx & m & Hh & _ & _ & _ & _ & Hloc & Hguard).
    exists href, idx, m. split; [exact Hh|]. split; [exact Hloc|].
    apply guard_isolated. exact Hguard.
  - intros doc i Hl. apply (guard_on_line doc i _ _ _ Hl).
    vm_compute. reflexivity.
  - intros doc i Hl. apply (guard_on_line doc i _ _ _ Hl).
    vm_compute. reflexivity.
Qed.


(** C10.  For every match that is emitted, the text found in the source
    has no newline and lies whole within the line of its first character;
    a match with a newline in it never passes the guard. *)
Theorem emitted_match_is_on_one_line
        (html base : str) (results : list (node * str * str))
        (a : node) (url title : str) :
  find_gpx_links html base = Return results ->
  In (a, url, title) results ->
  (exists href idx m,
      Bs4.tag_get a (txt "href") = Some href
      /\ locate html href title = Some (idx, m)
      /\ ~ In newline m
      /\ exists before after, line_of html idx = before ++ m ++ after)
  /\ (forall doc i m, In newline m -> alone_on_line doc i m = false).
Proof.
  intros Hres Hin. split.
  - destruct (emitted_is_detected _ _ _ _ _ _ Hres Hin)
      as (href & parsed & idx & m & Hh & _ & _ & _ & _ & Hloc & Hguard).
    pose proof (guarded_no_newline _ _ _ Hguard) as Hm.
    exists href, idx, m. split; [exact Hh|]. split; [exact Hloc|].
    split; [exact Hm|]. exact (match_within_line _ _ _ _ _ Hloc Hm).
  - intros doc i m Hm.
    destruct (alone_on_line doc i m) eqn:E; [|reflexivity].
    exfalso. exact (guarded_no_newline _ _ _ E Hm).
Qed.

End EmittedMatches.

Lemma alone_on_its_line_witness :
  (exists href idx m,
      Bs4.tag_get example_anchor (txt "href") = Some href
      /\ locate example_html href (txt "My Hike") = Some (idx, m)
      /\ isolated (line_of example_html idx) m)
  /\ alone_on_line wrapped_line 0 bare_anchor = true
  /\ alone_on_line crowded_line 7 bare_anchor = false.
Proof.
  destruct (@emitted_match_is_alone_on_its_line reference example_html
              example_base _ example_anchor _ (txt "My Hike")
              find_gpx_links_example (or_introl eq_refl))
    as (H1 & H2 & H3).
  split; [exact H1|]. split.
  - apply H2. vm_compute. reflexivity.
  - apply H3. vm_compute. reflexivity.
Defined.

(** White space between [<p>] and the anchor: the match is emitted, and
    the stripped line is not the matched text with a tag right before
    it. *)
Lemma space_after_the_paragraph_tag_passes :
  @find_gpx_links reference spaced_html example_base
  = Return [(short_anchor, txt "https://example.com/t.gpx", txt "t")]
  /\ locate spaced_html (txt "/t.gpx") (txt "t")
     = Some (4, markup "<a href=`/t.gpx`>t</a>")
  /\ alone_on_line spaced_html 4 (markup "<a href=`/t.gpx`>t</a>") = true
  /\ ~ strictly_isolated (line_of spaced_html 4)
                         (markup "<a href=`/t.gpx`>t</a>").
Proof.
  split; [vm_compute; reflexivity|]. split; [vm_compute; reflexivity|].
  split; [vm_compute; reflexivity|].
  intros (p & c & E & Hp & _).
  destruct Hp as [-> | (attrs & -> & Hattrs)].
  - vm_compute in E. discriminate E.
  - destruct attrs as [|x attrs].
    + vm_compute in E. discriminate E.
    + inversion Hattrs as [|? ? Hx _]; subst.
      vm_compute in E. injection E as E _. apply Hx. symmetry. exact E.
Qed.




Lemma on_one_line_witness :
  (exists href idx m,
      Bs4.tag_get example_anchor (txt "href") = Some href
      /\ locate example_html href (txt "My Hike") = Some (idx, m)
      /\ ~ In newline m
      /\ exists before after,
           line_of example_html idx = before ++ m ++ after)
  /\ (forall doc i m, In newline m -> alone_on_line doc i m = false).
Proof.
  apply (@emitted_match_is_on_one_line reference example_html example_base
           _ example_anchor (txt "https://example.com/files/track.gpx")
           (txt "My Hike") find_gpx_links_example).
  left. reflexivity.
Defined.

(** ** The splicer: placement, miss and frame *)

Section SplicerProperties.
Context {L : Library}.

(** C4.  When the document and the directive parse and some anchor with
    an href has the href and the stripped text of the match, the function
    takes the first such anchor of the freshly parsed document and puts
    the parsed directive right before the nearest [p] that encloses it,
    or right before the anchor when no [p] encloses it; the result is the
    soup written out. *)
Theorem directive_goes_before_the_paragraph
        (html : str) (link_tag : node) (sc : str)
        (soup sc_soup : list node) :
  BeautifulSoup html = Return soup ->
  BeautifulSoup sc = Return sc_soup ->
  (exists p a, In (p, a) (Bs4.find_all_a_href soup)
               /\ same_anchor link_tag a) ->
  exists before target a after q,
    Bs4.find_all_a_href soup = before ++ (target, a) :: after
    /\ same_anchor link_tag a
    /\ (forall p x, In (p, x) before -> ~ same_anchor link_tag x)
    /\ insertion_point soup target q
    /\ insert_shortcode_into_html html link_tag sc
       = Return (decode (Bs4.insert_before soup q sc_soup)).
Proof.
  intros Hsoup Hsc Hex.
  destruct (first_same_anchor link_tag _ Hex)
    as (before & target & a & after & Hall & Hsame & Hbefore & _).
  destruct (splice_hit html link_tag sc soup _ _ _ _ Hsoup Hall Hbefore
              Hsame) as (q & container & Hq & _ & _ & Hres).
  exists before, target, a, after, q.
  repeat split; try assumption.
  - exact (proj1 Hsame).
  - exact (proj2 Hsame).
  - rewrite Hres, Hsc. reflexivity.
Qed.

(** C5.  When the document parses and none of its anchors with an href
    has both the href and the stripped text of the match, the function
    returns the input text itself, for every directive. *)
Theorem reidentification_miss_returns_the_input
        (html : str) (link_tag : node) (soup : list node) :
  BeautifulSoup html = Return soup ->
  (forall p a,
      In (p, a) (Bs4.find_all_a_href soup) ->
      Bs4.tag_get a (txt "href") = Bs4.tag_get link_tag (txt "href") ->
      Bs4.get_text_strip a <> Bs4.get_text_strip link_tag) ->
  forall sc, insert_shortcode_into_html html link_tag sc = Return html.
Proof.
  intros Hsoup Hnone sc. unfold insert_shortcode_into_html.
  rewrite Hsoup. cbn [bind].
  rewrite no_match_no_target; [reflexivity|].
  intros p a Hin [Hh Ht]. exact (Hnone p a Hin Hh Ht).
Qed.

(** C6, as the program has it.  For a library whose [str(soup)] writes
    the nodes one after the other: when the document and the directive
    parse and the anchor is found again, the result is the document as
    the library writes it out, with text put in at one place; every
    character of the written document outside that place stays. *)
Theorem splice_keeps_the_written_document
        (w : writer) (html : str) (link_tag : node) (sc : str)
        (soup sc_soup : list node) :
  writes w ->
  BeautifulSoup html = Return soup ->
  BeautifulSoup sc = Return sc_soup ->
  (exists p a, In (p, a) (Bs4.find_all_a_href soup)
               /\ same_anchor link_tag a) ->
  exists out,
    insert_shortcode_into_html html link_tag sc = Return out
    /\ inserted_into (decode soup) out.
Proof.
  intros Hw Hsoup Hsc Hex.
  destruct (splice_hit_somewhere html link_tag sc soup Hsoup Hex)
    as (q & container & Hat & _ & Hres).
  destruct (Bs4Facts.written_insert_before w q document_name soup sc_soup
              container Hat) as (pre & post & E1 & E2).
  eexists. split; [rewrite Hres, Hsc; reflexivity|].
  exists pre,
    (written_all w (Bs4.parent_name document_name soup q) sc_soup),
    (written w (Bs4.parent_name document_name soup q) container ++ post).
  rewrite !Hw. split; [exact E1 | exact E2].
Qed.

End SplicerProperties.

Lemma directive_placement_witness :
  exists before target a after q,
    Bs4.find_all_a_href [Tag (txt "p") [] [example_anchor]]
    = before ++ (target, a) :: after
    /\ same_anchor example_anchor a
    /\ (forall p x, In (p, x) before -> ~ same_anchor example_anchor x)
    /\ insertion_point [Tag (txt "p") [] [example_anchor]] target q
    /\ @insert_shortcode_into_html reference example_html example_anchor
         (txt "[osm]")
       = Return (@decode reference
                   (Bs4.insert_before [Tag (txt "p") [] [example_anchor]] q
                                      [NavigableString (txt "[osm]")])).
Proof.
  apply (@directive_goes_before_the_paragraph reference example_html
           example_anchor (txt "[osm]") _ _ example_soup
           example_shortcode_soup).
  exists [0; 0], example_anchor. split.
  - rewrite example_anchors. left. reflexivity.
  - apply same_anchor_refl.
Defined.

Lemma reidentification_miss_witness :
  @insert_shortcode_into_html reference example_html
     (Tag (txt "a") [(txt "href", txt "/files/other.gpx")]
          [NavigableString (txt "My Hike")])
     (txt "<![x]>")
  = Return example_html.
Proof.
  apply (@reidentification_miss_returns_the_input reference _ _ _
           example_soup).
  intros p a Hin Hhref _. rewrite example_anchors in Hin.
  destruct Hin as [E | []]. injection E as _ <-.
  vm_compute in Hhref. discriminate Hhref.
Defined.

Lemma written_document_witness :
  exists out,
    @insert_shortcode_into_html reference example_html example_anchor
       (txt "[osm]") = Return out
    /\ inserted_into (@decode reference [Tag (txt "p") [] [example_anchor]])
                     out.
Proof.
  apply (@splice_keeps_the_written_document reference Formatter.minimal
           example_html example_anchor (txt "[osm]") _ _ reference_writes
           example_soup example_shortcode_soup).
  exists [0; 0], example_anchor. split.
  - rewrite example_anchors. left. reflexivity.
  - apply same_anchor_refl.
Defined.

Lemma contains_in (c : ascii) (s : str) :
  In c s -> Bs4.contains c s = true.
Proof.
  intros H. unfold Bs4.contains. apply existsb_exists.
  exists c. split; [exact H | apply char_eqb_refl].
Qed.

(** An attribute in single quotes is written with double quotes: the
    result is not the input with text put in at one place. *)
Lemma single_quotes_are_rewritten :
  @insert_shortcode_into_html reference single_quoted_html short_anchor
     (txt "[osm]")
  = Return (txt "[osm]" ++ markup "<p><a href=`/t.gpx`>t</a></p>")
  /\ ~ inserted_into single_quoted_html
         (txt "[osm]" ++ markup "<p><a href=`/t.gpx`>t</a></p>").
Proof.
  split; [vm_compute; reflexivity|].
  intros (pre & ins & post & E1 & E2).
  assert (In "'"%char (pre ++ post)) as Hin
      by (rewrite <- E1; vm_compute; tauto).
  assert (In "'"%char (txt "[osm]" ++ markup "<p><a href=`/t.gpx`>t</a></p>"))
    as Hout.
  { rewrite E2. apply in_app_or in Hin.
    destruct Hin as [H | H]; apply in_or_app; [left; exact H|].
    right. apply in_or_app. right. exact H. }
  apply contains_in in Hout. vm_compute in Hout. discriminate Hout.
Qed.

(** A directive that the parser refuses is not inserted: the anchor is
    found, the directive is parsed, and the exception leaves the
    function. *)
Lemma refused_directive_is_not_inserted :
  @BeautifulSoup reference example_html
  = Return [Tag (txt "p") [] [example_anchor]]
  /\ In ([0; 0], example_anchor)
        (Bs4.find_all_a_href [Tag (txt "p") [] [example_anchor]])
  /\ @BeautifulSoup reference (txt "<![x]>") = Raise ParserRejectedMarkup
  /\ @insert_shortcode_into_html reference example_html example_anchor
       (txt "<![x]>")
     = Raise ParserRejectedMarkup.
Proof.
  split; [vm_compute; reflexivity|].
  split; [vm_compute; left; reflexivity|].
  split; vm_compute; reflexivity.
Qed.

(** A document that the parser refuses is not returned: it has no anchor
    at all, and the function raises. *)
Lemma refused_document_is_not_returned :
  infix (txt "<a") (txt "<![x]>") = false
  /\ @BeautifulSoup reference (txt "<![x]>") = Raise ParserRejectedMarkup
  /\ @insert_shortcode_into_html reference (txt "<![x]>") example_anchor
       (txt "[osm]")
     = Raise ParserRejectedMarkup.
Proof. vm_compute. repeat split. Qed.
